(** * pstream: the packet stream of the sound server, verified against its specification

    A shallow embedding of [src/pstream.c].  The stream multiplexes "packet"
    frames (control data) and "memblock" frames (sample data) over a
    non-blocking byte channel.  Every C function of the file is embedded as a
    Rocq function of the same name; the statements about them follow the
    definitions.

    Conventions of the embedding

    - [size_t] and [ssize_t] are 64 bits wide (LP64); [uint32_t] is 32 bits
      wide.  Unsigned arithmetic wraps, and the wrap-around is written out
      with [size_t] and [uint32_t] below.
    - [assert] aborts the process: a function either returns a new stream
      state or aborts, and in both cases leaves the trace of the calls it
      made to its collaborators (channel, allocator, reference counts,
      callbacks).
    - [malloc] returns a block of indeterminate content.  The content is an
      argument of the function that allocates, so that a field the function
      never writes keeps an arbitrary value.
    - The collaborators whose code is outside the file (the byte channel,
      the allocator of packets and memblocks) are given to each engine
      invocation as an environment: what the channel answers to a request
      of [l] bytes, and the address the allocator returns.
    - Callbacks are opaque: an invocation is recorded in the trace and does
      not call back into the stream.
    - A packet and a memblock carry their buffer: the [data] field of the
      pointee is taken to be allocated with the object, as [packet_new] and
      [memblock_new] leave it, and [InPacket a off] and [InMemblock a off]
      stand for [a->data + off].  A client buffer whose [data] field is
      NULL is outside the embedding: for such a buffer the code stops at
      [assert(p->write.data)] (line 243) before the first transfer.  The
      assertion itself is embedded, and the statements below on what the
      write engine does with the head of the queue and on when it aborts
      keep the case of a NULL data pointer apart. *)

From Stdlib Require Import ZArith List Bool Lia.
Import ListNotations.
Open Scope Z_scope.

(** ** Machine integers *)

Definition SIZE_MAX : Z := 2 ^ 64 - 1.
Definition SSIZE_MAX : Z := 2 ^ 63 - 1.

(** Conversion to [size_t], and the result of [size_t] arithmetic. *)
Definition size_t (x : Z) : Z := x mod 2 ^ 64.

(** Conversion to [uint32_t]. *)
Definition uint32_t (x : Z) : Z := x mod 2 ^ 32.

(** Conversion of a [uint32_t] to [int32_t] (two's complement). *)
Definition int32_t (x : Z) : Z :=
  let u := uint32_t x in if u <? 2 ^ 31 then u else u - 2 ^ 32.

(** ** Pointers *)

(** The address of an object; [NULL] is 0. *)
Definition ptr := Z.
Definition NULL : ptr := 0.
Definition is_null (a : ptr) : bool := a =? NULL.

(** A [void*] into one of the byte buffers the stream reads or writes. *)
Inductive dataptr :=
| NullData
| InWriteDescriptor (off : Z)        (* (void* ) p->write.descriptor + off *)
| InReadDescriptor (off : Z)         (* (void* ) p->read.descriptor + off *)
| InPacket (pk : ptr) (off : Z)       (* pk->data + off *)
| InMemblock (mb : ptr) (off : Z).    (* mb->data + off *)

Definition data_is_null (d : dataptr) : bool :=
  match d with NullData => true | _ => false end.

(** Pointer arithmetic [d + n] inside a buffer. *)
Definition data_add (d : dataptr) (n : Z) : dataptr :=
  match d with
  | NullData => NullData
  | InWriteDescriptor o => InWriteDescriptor (o + n)
  | InReadDescriptor o => InReadDescriptor (o + n)
  | InPacket a o => InPacket a (o + n)
  | InMemblock a o => InMemblock a (o + n)
  end.

(** ** Buffers *)

(** What a [struct packet *] denotes: the address of the packet and the
    [length] field of the pointee, which is fixed when the packet is
    allocated. *)
Record packet_p := { pk_addr : ptr; pk_length : Z }.

Definition packet_is_null (pk : packet_p) : bool := is_null (pk_addr pk).

(** [pk->data]: the start of the buffer of the packet; the field itself is
    taken not to be NULL (see the conventions above). *)
Definition packet_data (pk : packet_p) : dataptr := InPacket (pk_addr pk) 0.
Definition NULL_packet : packet_p := {| pk_addr := NULL; pk_length := 0 |}.

(** [struct memchunk]: a view into a memblock. *)
Record memchunk := { mc_memblock : ptr; mc_index : Z; mc_length : Z }.

(** [mb->data]: the start of the buffer of the memblock; the field itself
    is taken not to be NULL (see the conventions above). *)
Definition memblock_data (mb : ptr) : dataptr := InMemblock mb 0.

(** ** The frame descriptor *)

Inductive pstream_descriptor_index :=
| PSTREAM_DESCRIPTOR_LENGTH
| PSTREAM_DESCRIPTOR_CHANNEL
| PSTREAM_DESCRIPTOR_DELTA.

Definition PSTREAM_DESCRIPTOR_MAX : Z := 3.

(** [typedef uint32_t pstream_descriptor[PSTREAM_DESCRIPTOR_MAX]]. *)
Record pstream_descriptor := { d_length : Z; d_channel : Z; d_delta : Z }.

(** Reading an element yields a [uint32_t] value whatever the memory held. *)
Definition descriptor_get (d : pstream_descriptor) (i : pstream_descriptor_index) : Z :=
  match i with
  | PSTREAM_DESCRIPTOR_LENGTH => uint32_t (d_length d)
  | PSTREAM_DESCRIPTOR_CHANNEL => uint32_t (d_channel d)
  | PSTREAM_DESCRIPTOR_DELTA => uint32_t (d_delta d)
  end.

Definition descriptor_set (d : pstream_descriptor) (i : pstream_descriptor_index) (v : Z)
  : pstream_descriptor :=
  match i with
  | PSTREAM_DESCRIPTOR_LENGTH =>
      {| d_length := uint32_t v; d_channel := d_channel d; d_delta := d_delta d |}
  | PSTREAM_DESCRIPTOR_CHANNEL =>
      {| d_length := d_length d; d_channel := uint32_t v; d_delta := d_delta d |}
  | PSTREAM_DESCRIPTOR_DELTA =>
      {| d_length := d_length d; d_channel := d_channel d; d_delta := uint32_t v |}
  end.

Definition PSTREAM_DESCRIPTOR_SIZE : Z := PSTREAM_DESCRIPTOR_MAX * 4.
Definition FRAME_SIZE_MAX : Z := 1024 * 64.

(** The descriptor seen as bytes, which is how the channel reads and writes
    it.  The host is little-endian. *)
Definition word_bytes (w : Z) : list Z :=
  [w mod 256; (w / 256) mod 256; (w / 65536) mod 256; (w / 16777216) mod 256].

Definition bytes_word (bs : list Z) : Z :=
  nth 0 bs 0 + 256 * nth 1 bs 0 + 65536 * nth 2 bs 0 + 16777216 * nth 3 bs 0.

Definition descriptor_bytes (d : pstream_descriptor) : list Z :=
  word_bytes (d_length d) ++ word_bytes (d_channel d) ++ word_bytes (d_delta d).

Definition descriptor_of_bytes (bs : list Z) : pstream_descriptor :=
  {| d_length := bytes_word (firstn 4 bs);
     d_channel := bytes_word (firstn 4 (skipn 4 bs));
     d_delta := bytes_word (firstn 4 (skipn 8 bs)) |}.

(** [store_bytes mem off bs]: the buffer [mem] after [bs] was copied to its
    offset [off].  Bytes that would land past the end of [mem] are outside
    the descriptor and are not tracked. *)
Fixpoint store_bytes (mem : list Z) (off : nat) (bs : list Z) : list Z :=
  match mem with
  | [] => []
  | m :: mem' =>
      match off with
      | S off' => m :: store_bytes mem' off' bs
      | O =>
          match bs with
          | [] => m :: mem'
          | b :: bs' => (b mod 256) :: store_bytes mem' O bs'
          end
      end
  end.

Definition descriptor_store (d : pstream_descriptor) (off : Z) (bs : list Z)
  : pstream_descriptor :=
  descriptor_of_bytes (store_bytes (descriptor_bytes d) (Z.to_nat off) bs).

(** ** Outbound items *)

Inductive item_type := PSTREAM_ITEM_PACKET | PSTREAM_ITEM_MEMBLOCK.

Record item_info := {
  type : item_type;
  (* memblock info *)
  chunk : memchunk;
  channel : Z;
  delta : Z;
  (* packet info *)
  packet : packet_p
}.

(** ** The stream *)

Record write_cursor := {
  write_current : option item_info;
  write_descriptor : pstream_descriptor;
  write_data : dataptr;
  write_index : Z
}.

Record read_cursor := {
  read_memblock : ptr;
  read_packet : packet_p;
  read_descriptor : pstream_descriptor;
  read_data : dataptr;
  read_index : Z
}.

(** [struct pstream].  [mainloop_source] is the enabled flag of the
    scheduler hook the stream owns; a callback field is [true] when a
    callback is registered (the function pointer is not NULL).  The handles
    [mainloop] and [io] and the userdata pointers are passed through to the
    collaborators unchanged and are left out. *)
Record pstream := {
  mainloop_source : bool;
  send_queue : list item_info;
  dead : bool;
  write : write_cursor;
  send_callback : bool;
  read : read_cursor;
  recieve_packet_callback : bool;
  recieve_memblock_callback : bool
}.

Definition set_mainloop_source (b : bool) (p : pstream) : pstream :=
  {| mainloop_source := b; send_queue := send_queue p; dead := dead p;
     write := write p; send_callback := send_callback p; read := read p;
     recieve_packet_callback := recieve_packet_callback p;
     recieve_memblock_callback := recieve_memblock_callback p |}.

Definition set_send_queue (q : list item_info) (p : pstream) : pstream :=
  {| mainloop_source := mainloop_source p; send_queue := q; dead := dead p;
     write := write p; send_callback := send_callback p; read := read p;
     recieve_packet_callback := recieve_packet_callback p;
     recieve_memblock_callback := recieve_memblock_callback p |}.

Definition set_dead (b : bool) (p : pstream) : pstream :=
  {| mainloop_source := mainloop_source p; send_queue := send_queue p; dead := b;
     write := write p; send_callback := send_callback p; read := read p;
     recieve_packet_callback := recieve_packet_callback p;
     recieve_memblock_callback := recieve_memblock_callback p |}.

Definition set_write (w : write_cursor) (p : pstream) : pstream :=
  {| mainloop_source := mainloop_source p; send_queue := send_queue p; dead := dead p;
     write := w; send_callback := send_callback p; read := read p;
     recieve_packet_callback := recieve_packet_callback p;
     recieve_memblock_callback := recieve_memblock_callback p |}.

Definition set_read (r : read_cursor) (p : pstream) : pstream :=
  {| mainloop_source := mainloop_source p; send_queue := send_queue p; dead := dead p;
     write := write p; send_callback := send_callback p; read := r;
     recieve_packet_callback := recieve_packet_callback p;
     recieve_memblock_callback := recieve_memblock_callback p |}.

Definition set_send_callback (b : bool) (p : pstream) : pstream :=
  {| mainloop_source := mainloop_source p; send_queue := send_queue p; dead := dead p;
     write := write p; send_callback := b; read := read p;
     recieve_packet_callback := recieve_packet_callback p;
     recieve_memblock_callback := recieve_memblock_callback p |}.

Definition set_recieve_packet_callback (b : bool) (p : pstream) : pstream :=
  {| mainloop_source := mainloop_source p; send_queue := send_queue p; dead := dead p;
     write := write p; send_callback := send_callback p; read := read p;
     recieve_packet_callback := b;
     recieve_memblock_callback := recieve_memblock_callback p |}.

Definition set_recieve_memblock_callback (b : bool) (p : pstream) : pstream :=
  {| mainloop_source := mainloop_source p; send_queue := send_queue p; dead := dead p;
     write := write p; send_callback := send_callback p; read := read p;
     recieve_packet_callback := recieve_packet_callback p;
     recieve_memblock_callback := b |}.

Definition set_write_current (c : option item_info) (w : write_cursor) : write_cursor :=
  {| write_current := c; write_descriptor := write_descriptor w;
     write_data := write_data w; write_index := write_index w |}.

Definition set_write_descriptor (d : pstream_descriptor) (w : write_cursor) : write_cursor :=
  {| write_current := write_current w; write_descriptor := d;
     write_data := write_data w; write_index := write_index w |}.

Definition set_write_data (d : dataptr) (w : write_cursor) : write_cursor :=
  {| write_current := write_current w; write_descriptor := write_descriptor w;
     write_data := d; write_index := write_index w |}.

Definition set_write_index (i : Z) (w : write_cursor) : write_cursor :=
  {| write_current := write_current w; write_descriptor := write_descriptor w;
     write_data := write_data w; write_index := i |}.

Definition set_read_memblock (m : ptr) (r : read_cursor) : read_cursor :=
  {| read_memblock := m; read_packet := read_packet r;
     read_descriptor := read_descriptor r; read_data := read_data r;
     read_index := read_index r |}.

Definition set_read_packet (k : packet_p) (r : read_cursor) : read_cursor :=
  {| read_memblock := read_memblock r; read_packet := k;
     read_descriptor := read_descriptor r; read_data := read_data r;
     read_index := read_index r |}.

Definition set_read_descriptor (d : pstream_descriptor) (r : read_cursor) : read_cursor :=
  {| read_memblock := read_memblock r; read_packet := read_packet r;
     read_descriptor := d; read_data := read_data r;
     read_index := read_index r |}.

Definition set_read_data (d : dataptr) (r : read_cursor) : read_cursor :=
  {| read_memblock := read_memblock r; read_packet := read_packet r;
     read_descriptor := read_descriptor r; read_data := d;
     read_index := read_index r |}.

Definition set_read_index (i : Z) (r : read_cursor) : read_cursor :=
  {| read_memblock := read_memblock r; read_packet := read_packet r;
     read_descriptor := read_descriptor r; read_data := read_data r;
     read_index := i |}.

(** ** Collaborators: events and environment *)

(** The calls a function makes to its collaborators, in order. *)
Inductive event :=
| Ev_iochannel_write (d : dataptr) (l r : Z)   (* iochannel_write(io, d, l) returned r *)
| Ev_iochannel_read (d : dataptr) (l r : Z)    (* iochannel_read(io, d, l) returned r *)
| Ev_iochannel_free
| Ev_packet_new (length : Z) (a : ptr)
| Ev_memblock_new (length : Z) (a : ptr)
| Ev_packet_unref (pk : ptr)
| Ev_memblock_unref (mb : ptr)
| Ev_send_callback
| Ev_recieve_packet_callback (pk : packet_p)
| Ev_recieve_memblock_callback (channel delta : Z) (chunk : memchunk).

Definition trace := list event.

(** What the collaborators answer during one invocation of the engines:
    the readiness of the channel, the result of a write or a read of [l]
    bytes, the bytes a successful read deposits, and the addresses the
    allocator hands out. *)
Record env := {
  iochannel_is_writable : bool;
  iochannel_write : Z -> Z;
  iochannel_is_readable : bool;
  iochannel_read : Z -> Z;
  incoming : list Z;
  packet_new : ptr;
  memblock_new : ptr
}.

(** ** Control: return, abort, sequence *)

Inductive outcome :=
| Returned (p : pstream) (tr : trace)
| Aborted (tr : trace).

Definition M := pstream -> outcome.

Definition ret : M := fun p => Returned p [].

(** The outcome [o] of what runs after the calls of [t] were made. *)
Definition prepend (t : trace) (o : outcome) : outcome :=
  match o with
  | Returned p t' => Returned p (t ++ t')
  | Aborted t' => Aborted (t ++ t')
  end.

Definition bind (m k : M) : M := fun p =>
  match m p with
  | Returned p1 t1 => prepend t1 (k p1)
  | Aborted t1 => Aborted t1
  end.

Notation "m ;; k" := (bind m k) (at level 61, right associativity).

Definition emit (ev : event) : M := fun p => Returned p [ev].
Definition assert (b : bool) : M := fun p => if b then Returned p [] else Aborted [].
Definition modify (f : pstream -> pstream) : M := fun p => Returned (f p) [].

(** Read the state to decide what to do next. *)
Definition get (k : pstream -> M) : M := fun p => k p p.

Definition trace_of (o : outcome) : trace :=
  match o with Returned _ tr => tr | Aborted tr => tr end.

(** ** The functions of pstream.c *)

Definition mainloop_source_enable (b : bool) : M := modify (set_mainloop_source b).

(** [pstream_new]; [fresh] is the content of the block [malloc] returned. *)
Definition pstream_new (fresh : pstream) : pstream :=
  {| dead := false;
     mainloop_source := false;
     send_queue := [];
     write := set_write_index 0 (set_write_current None (write fresh));
     read := set_read_index 0
               (set_read_packet NULL_packet (set_read_memblock NULL (read fresh)));
     send_callback := false;
     recieve_packet_callback := false;
     recieve_memblock_callback := false |}.

(** [item_free]; the [free] of the item itself leaves no trace. *)
Definition item_free (i : item_info) : M :=
  match type i with
  | PSTREAM_ITEM_PACKET =>
      assert (negb (is_null (mc_memblock (chunk i)))) ;;
      emit (Ev_memblock_unref (mc_memblock (chunk i)))
  | PSTREAM_ITEM_MEMBLOCK =>
      assert (negb (packet_is_null (packet i))) ;;
      emit (Ev_packet_unref (pk_addr (packet i)))
  end.

(** [queue_free(q, item_free, NULL)]: the items that remain, head first. *)
Fixpoint queue_free (q : list item_info) : M :=
  match q with
  | [] => ret
  | i :: q' => item_free i ;; queue_free q'
  end.

Definition pstream_free : M := get (fun p =>
   emit Ev_iochannel_free ;;
   queue_free (send_queue p) ;;
   modify (set_send_queue []) ;;
   (match write_current (write p) with
    | Some i => item_free i
    | None => ret
    end) ;;
   (if negb (is_null (read_memblock (read p)))
    then emit (Ev_memblock_unref (read_memblock (read p))) else ret) ;;
   (if negb (packet_is_null (read_packet (read p)))
    then emit (Ev_packet_unref (pk_addr (read_packet (read p)))) else ret)).

(** The callback setters assert that the callback is not NULL; [callback]
    is [true] for a function and [false] for NULL. *)
Definition pstream_set_send_callback (callback : bool) : M :=
  assert callback ;; modify (set_send_callback callback).

(** [queue_push]: append at the tail. *)
Definition queue_push (i : item_info) : M :=
  modify (fun p => set_send_queue (send_queue p ++ [i]) p).

(** [i] starts as the block [malloc] returned, [fresh]. *)
Definition pstream_send_packet (pk : packet_p) (fresh : item_info) : M :=
  assert (negb (packet_is_null pk)) ;;
  let i := {| type := PSTREAM_ITEM_PACKET;
              packet := pk;
              chunk := chunk fresh; channel := channel fresh; delta := delta fresh |} in
  queue_push i ;;
  mainloop_source_enable true.

(** [chunk = None] is a NULL [struct memchunk *]. *)
Definition pstream_send_memblock (ch : Z) (dl : Z) (ck : option memchunk)
  (fresh : item_info) : M :=
  match ck with
  | None => assert false
  | Some c =>
      assert (negb (ch =? 0)) ;;
      let i := {| type := PSTREAM_ITEM_MEMBLOCK;
                  chunk := c;
                  channel := ch;
                  delta := dl;
                  packet := packet fresh |} in
      queue_push i ;;
      mainloop_source_enable true
  end.

Definition pstream_set_recieve_packet_callback (callback : bool) : M :=
  assert callback ;; modify (set_recieve_packet_callback callback).

Definition pstream_set_recieve_memblock_callback (callback : bool) : M :=
  assert callback ;; modify (set_recieve_memblock_callback callback).

Definition modify_write (f : write_cursor -> write_cursor) : M :=
  modify (fun p => set_write (f (write p)) p).

Definition modify_read (f : read_cursor -> read_cursor) : M :=
  modify (fun p => set_read (f (read p)) p).

Definition prepare_next_write_item : M := get (fun p =>
  match send_queue p with
  | [] => modify_write (set_write_current None)
  | i :: q =>
       modify (set_send_queue q) ;;
       modify_write (set_write_current (Some i)) ;;
       modify_write (set_write_index 0) ;;
       match type i with
       | PSTREAM_ITEM_PACKET =>
           assert (negb (packet_is_null (packet i))) ;;
           modify_write (set_write_data (packet_data (packet i))) ;;
           modify_write (fun w => set_write_descriptor
             (descriptor_set (write_descriptor w) PSTREAM_DESCRIPTOR_LENGTH
                (pk_length (packet i))) w) ;;
           modify_write (fun w => set_write_descriptor
             (descriptor_set (write_descriptor w) PSTREAM_DESCRIPTOR_CHANNEL 0) w) ;;
           modify_write (fun w => set_write_descriptor
             (descriptor_set (write_descriptor w) PSTREAM_DESCRIPTOR_DELTA 0) w)
       | PSTREAM_ITEM_MEMBLOCK =>
           assert (negb (is_null (mc_memblock (chunk i)))) ;;
           modify_write (set_write_data
             (data_add (memblock_data (mc_memblock (chunk i))) (mc_index (chunk i)))) ;;
           modify_write (fun w => set_write_descriptor
             (descriptor_set (write_descriptor w) PSTREAM_DESCRIPTOR_LENGTH
                (mc_length (chunk i))) w) ;;
           modify_write (fun w => set_write_descriptor
             (descriptor_set (write_descriptor w) PSTREAM_DESCRIPTOR_CHANNEL
                (channel i)) w) ;;
           modify_write (fun w => set_write_descriptor
             (descriptor_set (write_descriptor w) PSTREAM_DESCRIPTOR_DELTA
                (delta i)) w)
       end
  end).

Definition queue_is_empty (q : list item_info) : bool :=
  match q with [] => true | _ => false end.

(** The span of the next write, lines 245-251 of do_write: where it starts
    and how many bytes are requested. *)
Definition write_span (p : pstream) : dataptr * Z :=
  let w := write p in
  if write_index w <? PSTREAM_DESCRIPTOR_SIZE then
    (InWriteDescriptor (write_index w),
     size_t (PSTREAM_DESCRIPTOR_SIZE - write_index w))
  else
    (data_add (data_add (write_data w) (write_index w)) (- PSTREAM_DESCRIPTOR_SIZE),
     size_t (descriptor_get (write_descriptor w) PSTREAM_DESCRIPTOR_LENGTH
             - write_index w - PSTREAM_DESCRIPTOR_SIZE)).

Definition do_write (e : env) : M :=
  mainloop_source_enable false ;;
  get (fun p =>
  if dead p || negb (iochannel_is_writable e) then ret else
  (match write_current (write p) with
   | None => prepare_next_write_item
   | Some _ => ret
   end) ;;
  get (fun p =>
  match write_current (write p) with
  | None => ret
  | Some current =>
      assert (negb (data_is_null (write_data (write p)))) ;;
      let (d, l) := write_span p in
      let r := iochannel_write e l in
      emit (Ev_iochannel_write d l r) ;;
      if r <? 0 then modify (set_dead true) else
      modify_write (fun w => set_write_index (size_t (write_index w + r)) w) ;;
      get (fun p =>
      if write_index (write p) >=?
         size_t (PSTREAM_DESCRIPTOR_SIZE
                 + descriptor_get (write_descriptor (write p)) PSTREAM_DESCRIPTOR_LENGTH)
      then
        item_free current ;;
        modify_write (set_write_current None) ;;
        get (fun p =>
        if send_callback p && queue_is_empty (send_queue p)
        then emit Ev_send_callback else ret)
      else ret)
  end)).

(** The span of the next read, lines 281-288 of do_read. *)
Definition read_span (p : pstream) : dataptr * Z :=
  let r := read p in
  if read_index r <? PSTREAM_DESCRIPTOR_SIZE then
    (InReadDescriptor (read_index r),
     size_t (PSTREAM_DESCRIPTOR_SIZE - read_index r))
  else
    (data_add (data_add (read_data r) (read_index r)) (- PSTREAM_DESCRIPTOR_SIZE),
     size_t (descriptor_get (read_descriptor r) PSTREAM_DESCRIPTOR_LENGTH
             - read_index r - PSTREAM_DESCRIPTOR_SIZE)).

(** The channel copies the [r] bytes it read to [d].  Bytes that go to the
    descriptor change what the descriptor decodes to; the content of
    payload buffers is not tracked. *)
Definition deposit (e : env) (d : dataptr) (r : Z) : M :=
  match d with
  | InReadDescriptor off =>
      modify_read (fun rd => set_read_descriptor
        (descriptor_store (read_descriptor rd) off
           (firstn (Z.to_nat r) (incoming e))) rd)
  | _ => ret
  end.

(** The span of an incremental delivery, line 326 of do_read. *)
Definition delivery_span (index r : Z) : Z :=
  if size_t (index - r) <? PSTREAM_DESCRIPTOR_SIZE
  then size_t (index - PSTREAM_DESCRIPTOR_SIZE)
  else size_t r.

(** Lines 297-318 of do_read: the frame descriptor is complete. *)
Definition descriptor_complete (e : env) : M := get (fun p =>
  let length := descriptor_get (read_descriptor (read p)) PSTREAM_DESCRIPTOR_LENGTH in
  let channel := descriptor_get (read_descriptor (read p)) PSTREAM_DESCRIPTOR_CHANNEL in
  (* Frame size too large *)
  if length >? FRAME_SIZE_MAX then modify (set_dead true) else
  assert (packet_is_null (read_packet (read p)) && is_null (read_memblock (read p))) ;;
  if channel =? 0 then
    (* Frame is a packet frame *)
    let pk := {| pk_addr := packet_new e; pk_length := length |} in
    emit (Ev_packet_new length (packet_new e)) ;;
    modify_read (set_read_packet pk) ;;
    assert (negb (packet_is_null pk)) ;;
    modify_read (set_read_data (packet_data pk))
  else
    (* Frame is a memblock frame *)
    emit (Ev_memblock_new length (memblock_new e)) ;;
    modify_read (set_read_memblock (memblock_new e)) ;;
    assert (negb (is_null (memblock_new e))) ;;
    modify_read (set_read_data (memblock_data (memblock_new e)))).

(** Lines 323-337 of do_read: memblock data is passed to the user as it
    arrives; [r] is the result of the read of this invocation. *)
Definition pass_memblock_data (r : Z) : M := get (fun p =>
  let channel := descriptor_get (read_descriptor (read p)) PSTREAM_DESCRIPTOR_CHANNEL in
  let delta := descriptor_get (read_descriptor (read p)) PSTREAM_DESCRIPTOR_DELTA in
  if negb (is_null (read_memblock (read p))) && recieve_memblock_callback p then
    let l := delivery_span (read_index (read p)) r in
    if l >? 0 then
      let chunk := {| mc_memblock := read_memblock (read p);
                      mc_index := size_t (read_index (read p)
                                          - PSTREAM_DESCRIPTOR_SIZE - l);
                      mc_length := l |} in
      emit (Ev_recieve_memblock_callback channel (int32_t delta) chunk)
    else ret
  else ret).

(** Lines 339-357 of do_read: the frame is complete. *)
Definition frame_complete : M := get (fun p =>
  let length := descriptor_get (read_descriptor (read p)) PSTREAM_DESCRIPTOR_LENGTH in
  if read_index (read p) >=? size_t (length + PSTREAM_DESCRIPTOR_SIZE) then
    (if negb (is_null (read_memblock (read p))) then
       assert (packet_is_null (read_packet (read p))) ;;
       emit (Ev_memblock_unref (read_memblock (read p))) ;;
       modify_read (set_read_memblock NULL)
     else
       assert (negb (packet_is_null (read_packet (read p)))) ;;
       (if recieve_packet_callback p
        then emit (Ev_recieve_packet_callback (read_packet (read p))) else ret) ;;
       emit (Ev_packet_unref (pk_addr (read_packet (read p)))) ;;
       modify_read (set_read_packet NULL_packet)) ;;
    modify_read (set_read_index 0)
  else ret).

(** Lines 297-358 of do_read: what the offset, advanced by the [r] bytes
    that arrived, calls for. *)
Definition frame_progress (e : env) (r : Z) : M := get (fun p =>
  if read_index (read p) =? PSTREAM_DESCRIPTOR_SIZE then
    descriptor_complete e
  else if read_index (read p) >? PSTREAM_DESCRIPTOR_SIZE then
    (* Frame payload available *)
    pass_memblock_data r ;;
    frame_complete
  else ret).

Definition do_read (e : env) : M :=
  mainloop_source_enable false ;;
  get (fun p =>
  if dead p || negb (iochannel_is_readable e) then ret else
  (if read_index (read p) <? PSTREAM_DESCRIPTOR_SIZE then ret
   else assert (negb (data_is_null (read_data (read p))))) ;;
  let (d, l) := read_span p in
  let r := iochannel_read e l in
  emit (Ev_iochannel_read d l r) ;;
  if r <=? 0 then modify (set_dead true) else
  deposit e d r ;;
  modify_read (fun rd => set_read_index (size_t (read_index rd + r)) rd) ;;
  frame_progress e r).

(** The callbacks of the channel and of the scheduler hook. *)
Definition io_callback (e : env) : M := do_write e ;; do_read e.
Definition prepare_callback (e : env) : M := do_write e ;; do_read e.

(** ** Driving a stream *)

(** The calls a client and the main loop make on a live stream.  The two
    engines are listed on their own as well, since [io_callback] and
    [prepare_callback] run one after the other. *)
Inductive call :=
| Call_send_packet (pk : packet_p) (fresh : item_info)
| Call_send_memblock (ch dl : Z) (ck : option memchunk) (fresh : item_info)
| Call_set_send_callback (callback : bool)
| Call_set_recieve_packet_callback (callback : bool)
| Call_set_recieve_memblock_callback (callback : bool)
| Call_do_write (e : env)
| Call_do_read (e : env)
| Call_io_callback (e : env)
| Call_prepare_callback (e : env).

Definition exec (c : call) : M :=
  match c with
  | Call_send_packet pk fresh => pstream_send_packet pk fresh
  | Call_send_memblock ch dl ck fresh => pstream_send_memblock ch dl ck fresh
  | Call_set_send_callback cb => pstream_set_send_callback cb
  | Call_set_recieve_packet_callback cb => pstream_set_recieve_packet_callback cb
  | Call_set_recieve_memblock_callback cb => pstream_set_recieve_memblock_callback cb
  | Call_do_write e => do_write e
  | Call_do_read e => do_read e
  | Call_io_callback e => io_callback e
  | Call_prepare_callback e => prepare_callback e
  end.

Fixpoint run (cs : list call) : M :=
  match cs with
  | [] => ret
  | c :: cs' => exec c ;; run cs'
  end.

(** The results of the channel are [ssize_t] values. *)
Definition ssize_range (r : Z) : Prop := - 2 ^ 63 <= r <= SSIZE_MAX.

Definition env_ok (e : env) : Prop :=
  (forall l, 0 <= l -> ssize_range (iochannel_write e l)) /\
  (forall l, 0 <= l -> ssize_range (iochannel_read e l)).

(** The contract of the channel: it never transfers more than it was
    asked for. *)
Definition channel_bounded (e : env) : Prop :=
  (forall l, iochannel_write e l <= l) /\
  (forall l, iochannel_read e l <= l).

Definition call_ok (c : call) : Prop :=
  match c with
  | Call_do_write e | Call_do_read e | Call_io_callback e | Call_prepare_callback e =>
      env_ok e
  | _ => True
  end.

(** The states a stream goes through from its creation. *)
Inductive reachable : pstream -> Prop :=
| reachable_new : forall fresh, reachable (pstream_new fresh)
| reachable_step : forall p c p' tr,
    reachable p -> call_ok c -> exec c p = Returned p' tr -> reachable p'.

(** ** What a trace contains *)

Definition is_io (ev : event) : bool :=
  match ev with
  | Ev_iochannel_write _ _ _ | Ev_iochannel_read _ _ _ => true
  | _ => false
  end.

Definition is_callback (ev : event) : bool :=
  match ev with
  | Ev_send_callback | Ev_recieve_packet_callback _
  | Ev_recieve_memblock_callback _ _ _ => true
  | _ => false
  end.

Definition is_send_callback (ev : event) : bool :=
  match ev with Ev_send_callback => true | _ => false end.

Definition is_alloc (ev : event) : bool :=
  match ev with
  | Ev_packet_new _ _ | Ev_memblock_new _ _ => true
  | _ => false
  end.

Definition count (f : event -> bool) (tr : trace) : nat := length (filter f tr).

(** The number of times the reference [a] to a packet (to a memblock) is
    released in a trace. *)
Definition packet_unrefs (a : ptr) (tr : trace) : nat :=
  count (fun ev => match ev with Ev_packet_unref b => a =? b | _ => false end) tr.

Definition memblock_unrefs (a : ptr) (tr : trace) : nat :=
  count (fun ev => match ev with Ev_memblock_unref b => a =? b | _ => false end) tr.

(** The payload bytes a trace hands to the channel: the results of the
    writes that start in a packet or in a memblock. *)
Fixpoint payload_written (tr : trace) : Z :=
  match tr with
  | [] => 0
  | Ev_iochannel_write (InPacket _ _) _ r :: tr'
  | Ev_iochannel_write (InMemblock _ _) _ r :: tr' => Z.max 0 r + payload_written tr'
  | _ :: tr' => payload_written tr'
  end.

(** The chunk views a trace delivers to the receive-memblock callback. *)
Fixpoint delivered (tr : trace) : list memchunk :=
  match tr with
  | [] => []
  | Ev_recieve_memblock_callback _ _ c :: tr' => c :: delivered tr'
  | _ :: tr' => delivered tr'
  end.

Definition delivered_bytes (tr : trace) : Z :=
  fold_right (fun c n => mc_length c + n) 0 (delivered tr).

(** ** Concrete streams *)

(** A block of zeroes, as [malloc] may return it. *)
Definition blank_item : item_info :=
  {| type := PSTREAM_ITEM_PACKET;
     chunk := {| mc_memblock := NULL; mc_index := 0; mc_length := 0 |};
     channel := 0; delta := 0; packet := NULL_packet |}.

(** A block that was used before: its fields hold stale pointers. *)
Definition stale_item : item_info :=
  {| type := PSTREAM_ITEM_MEMBLOCK;
     chunk := {| mc_memblock := 77; mc_index := 3; mc_length := 9 |};
     channel := 5; delta := 1; packet := {| pk_addr := 88; pk_length := 4 |} |}.

Definition blank_descriptor : pstream_descriptor :=
  {| d_length := 0; d_channel := 0; d_delta := 0 |}.

Definition blank_stream : pstream :=
  {| mainloop_source := false; send_queue := []; dead := false;
     write := {| write_current := None; write_descriptor := blank_descriptor;
                 write_data := NullData; write_index := 0 |};
     send_callback := false;
     read := {| read_memblock := NULL; read_packet := NULL_packet;
                read_descriptor := blank_descriptor;
                read_data := NullData; read_index := 0 |};
     recieve_packet_callback := false;
     recieve_memblock_callback := false |}.

(** A channel that is ready and transfers at most [k] bytes per call; a
    read deposits the first bytes of [bs]. *)
Definition mock (k : Z) (bs : list Z) : env :=
  {| iochannel_is_writable := true;
     iochannel_write := fun l => Z.min k l;
     iochannel_is_readable := true;
     iochannel_read := fun l => Z.min k l;
     incoming := bs;
     packet_new := 1000;
     memblock_new := 2000 |}.

(** A channel whose next write and next read fail with the result [r]. *)
Definition failing (r : Z) : env :=
  {| iochannel_is_writable := true;
     iochannel_write := fun _ => r;
     iochannel_is_readable := true;
     iochannel_read := fun _ => r;
     incoming := [];
     packet_new := 1000;
     memblock_new := 2000 |}.

(** The state a sequence of calls leaves a stream in. *)
Definition after (cs : list call) (p : pstream) : pstream :=
  match run cs p with
  | Returned p' _ => p'
  | Aborted _ => p
  end.

Definition packet8 : packet_p := {| pk_addr := 500; pk_length := 8 |}.
Definition packet24 : packet_p := {| pk_addr := 600; pk_length := 24 |}.
Definition packet30 : packet_p := {| pk_addr := 700; pk_length := 30 |}.

(** The header of a memblock frame of 30 bytes for channel 2, delta -5. *)
Definition header30 : list Z := [30; 0; 0; 0; 2; 0; 0; 0; 251; 255; 255; 255].

(** The header of a packet frame of 8 bytes. *)
Definition header8 : list Z := [8; 0; 0; 0; 0; 0; 0; 0; 0; 0; 0; 0].

(** The header of a frame that claims 65537 bytes. *)
Definition header_oversized : list Z := [1; 0; 1; 0; 0; 0; 0; 0; 0; 0; 0; 0].

(** The state in which the header of a packet of 24 bytes was written, and
    the state in which the header of a memblock frame of 30 bytes was read. *)
Definition header_written : pstream :=
  after [Call_send_packet packet24 stale_item; Call_do_write (mock 12 [])]
    (pstream_new blank_stream).

Definition header_read : pstream :=
  after [Call_do_read (mock 12 header30)] (pstream_new blank_stream).

(** ** Notions used in the statements *)

(** [m] returns with the part [f] of the state as it found it. *)
Definition keeps {A : Type} (f : pstream -> A) (m : M) : Prop :=
  forall p p' tr, m p = Returned p' tr -> f p' = f p.

(** Whatever the outcome, [m] makes only calls that satisfy [P]. *)
Definition emits (P : event -> Prop) (m : M) : Prop :=
  forall p, Forall P (trace_of (m p)).

(** What one call does to a dead stream: nothing the channel or a callback
    could see. *)
Definition inert (p : pstream) (o : outcome) : Prop :=
  match o with
  | Aborted tr => tr = []
  | Returned p' tr =>
      tr = [] /\ dead p' = true /\ write p' = write p /\ read p' = read p /\
      exists sent, send_queue p' = send_queue p ++ sent
  end.

Definition is_none {A} (o : option A) : bool :=
  match o with None => true | Some _ => false end.

(** The payload pointer of an item is NULL. *)
Definition item_payload_is_null (i : item_info) : bool :=
  match type i with
  | PSTREAM_ITEM_PACKET => packet_is_null (packet i)
  | PSTREAM_ITEM_MEMBLOCK => is_null (mc_memblock (chunk i))
  end.

(** The write cursor [prepare_next_write_item] sets up for the item [i]. *)
Definition cursor_of_item (i : item_info) : write_cursor :=
  match type i with
  | PSTREAM_ITEM_PACKET =>
      {| write_current := Some i;
         write_descriptor := {| d_length := uint32_t (pk_length (packet i));
                                d_channel := uint32_t 0; d_delta := uint32_t 0 |};
         write_data := packet_data (packet i);
         write_index := 0 |}
  | PSTREAM_ITEM_MEMBLOCK =>
      {| write_current := Some i;
         write_descriptor := {| d_length := uint32_t (mc_length (chunk i));
                                d_channel := uint32_t (channel i);
                                d_delta := uint32_t (delta i) |};
         write_data := data_add (memblock_data (mc_memblock (chunk i))) (mc_index (chunk i));
         write_index := 0 |}
  end.

(** What [do_write] does on a live stream whose channel is writable, with
    the item [i] in progress. *)
Definition write_result (e : env) (i : item_info) (p : pstream) : outcome :=
  let p0 := set_mainloop_source false p in
  let d := fst (write_span p) in
  let l := snd (write_span p) in
  let r := iochannel_write e l in
  prepend [Ev_iochannel_write d l r]
    (if r <? 0 then Returned (set_dead true p0) [] else
     let p1 := set_write (set_write_index (size_t (write_index (write p) + r)) (write p)) p0 in
     if size_t (write_index (write p) + r) >=?
        size_t (PSTREAM_DESCRIPTOR_SIZE
                + descriptor_get (write_descriptor (write p)) PSTREAM_DESCRIPTOR_LENGTH)
     then
       match item_free i p1 with
       | Returned _ t =>
           Returned (set_write (set_write_current None (write p1)) p1)
             (t ++ if send_callback p && queue_is_empty (send_queue p)
                   then [Ev_send_callback] else [])
       | Aborted t => Aborted t
       end
     else Returned p1 []).

(** The item one invocation of the write engine works on, and the state
    in which the transfer starts: the item in progress, or else the head
    of the queue with the cursor set up for it. *)
Definition write_start (p : pstream) : option (item_info * pstream) :=
  match write_current (write p) with
  | Some i => Some (i, p)
  | None =>
      match send_queue p with
      | [] => None
      | i :: q => Some (i, set_write (cursor_of_item i) (set_send_queue q p))
      end
  end.

(** The offset at which the transfer of this invocation starts. *)
Definition write_offset (p : pstream) : Z :=
  match write_start p with
  | Some (_, pb) => write_index (write pb)
  | None => write_index (write p)
  end.

(** The stream after the channel copied the [r] bytes it read to [d]. *)
Definition deposited (e : env) (d : dataptr) (r : Z) (p : pstream) : pstream :=
  match d with
  | InReadDescriptor off =>
      set_read (set_read_descriptor
                  (descriptor_store (read_descriptor (read p)) off
                     (firstn (Z.to_nat r) (incoming e))) (read p)) p
  | _ => p
  end.

(** The stream after the read offset advanced by [r]. *)
Definition advanced (r : Z) (p : pstream) : pstream :=
  set_read (set_read_index (size_t (read_index (read p) + r)) (read p)) p.

(** What [do_read] does on a live stream whose channel is readable. *)
Definition read_result (e : env) (p : pstream) : outcome :=
  let p0 := set_mainloop_source false p in
  let d := fst (read_span p) in
  let l := snd (read_span p) in
  let r := iochannel_read e l in
  prepend [Ev_iochannel_read d l r]
    (if r <=? 0 then Returned (set_dead true p0) []
     else frame_progress e r (advanced r (deposited e d r p0))).

(** The decoded fields of the descriptor being read. *)
Definition read_length (p : pstream) : Z :=
  descriptor_get (read_descriptor (read p)) PSTREAM_DESCRIPTOR_LENGTH.
Definition read_channel (p : pstream) : Z :=
  descriptor_get (read_descriptor (read p)) PSTREAM_DESCRIPTOR_CHANNEL.
Definition read_delta (p : pstream) : Z :=
  descriptor_get (read_descriptor (read p)) PSTREAM_DESCRIPTOR_DELTA.

(** The read cursor once the buffer of the frame is allocated. *)
Definition with_packet (a : ptr) (p : pstream) : pstream :=
  let pk := {| pk_addr := a; pk_length := read_length p |} in
  set_read (set_read_data (packet_data pk) (set_read_packet pk (read p))) p.

Definition with_memblock (a : ptr) (p : pstream) : pstream :=
  set_read (set_read_data (memblock_data a) (set_read_memblock a (read p))) p.

(** The call an incremental delivery makes, if any. *)
Definition passed (r : Z) (p : pstream) : trace :=
  if negb (is_null (read_memblock (read p))) && recieve_memblock_callback p then
    let l := delivery_span (read_index (read p)) r in
    if l >? 0 then
      [Ev_recieve_memblock_callback (read_channel p) (int32_t (read_delta p))
         {| mc_memblock := read_memblock (read p);
            mc_index := size_t (read_index (read p) - PSTREAM_DESCRIPTOR_SIZE - l);
            mc_length := l |}]
    else []
  else [].

(** The stream when a frame is over: the buffer is dropped and the offset
    is back to 0. *)
Definition frame_reset (p : pstream) : pstream :=
  if negb (is_null (read_memblock (read p)))
  then set_read (set_read_index 0 (set_read_memblock NULL (read p))) p
  else set_read (set_read_index 0 (set_read_packet NULL_packet (read p))) p.

(** The read offset stays small, and no buffer is held while the header is
    being read. *)
Definition read_inv (p : pstream) : Prop :=
  0 <= read_index (read p) < 2 ^ 32 + PSTREAM_DESCRIPTOR_SIZE /\
  (read_index (read p) < PSTREAM_DESCRIPTOR_SIZE ->
   packet_is_null (read_packet (read p)) = true /\
   is_null (read_memblock (read p)) = true).

(** The descriptor once the bytes of this read arrived. *)
Definition decoded (e : env) (p : pstream) : pstream_descriptor :=
  descriptor_store (read_descriptor (read p)) (read_index (read p))
    (firstn (Z.to_nat (iochannel_read e (snd (read_span p)))) (incoming e)).

(** The payload length of the frame of an item. *)
Definition item_length (i : item_info) : Z :=
  match type i with
  | PSTREAM_ITEM_PACKET => pk_length (packet i)
  | PSTREAM_ITEM_MEMBLOCK => mc_length (chunk i)
  end.

(** The payload bytes of the current item that were handed to the channel. *)
Definition payload_sent (p : pstream) : Z :=
  match write_current (write p) with
  | Some _ => Z.max 0 (write_index (write p) - PSTREAM_DESCRIPTOR_SIZE)
  | None => 0
  end.

(** The item [i] is the only outbound work, and its offset is at most
    [length - header_size]. *)
Definition stuck (i : item_info) (p : pstream) : Prop :=
  (write_current (write p) = None /\ send_queue p = [i]) \/
  (send_queue p = [] /\
   exists idx, 0 <= idx <= item_length i - PSTREAM_DESCRIPTOR_SIZE /\
               write p = set_write_index idx (cursor_of_item i)).

(** A memblock frame of [L] bytes is being received into [mb], and the
    read offset is at most [L - header_size]. *)
Definition receiving (mb : ptr) (L : Z) (p : pstream) : Prop :=
  read_memblock (read p) = mb /\
  is_null (read_memblock (read p)) = false /\
  packet_is_null (read_packet (read p)) = true /\
  read_data (read p) = memblock_data (read_memblock (read p)) /\
  read_length p = L /\
  PSTREAM_DESCRIPTOR_SIZE <= read_index (read p) <= L - PSTREAM_DESCRIPTOR_SIZE.

(** The field [item_free] asserts on and releases is NULL, and the release
    it makes when the field is not NULL. *)
Definition item_freed_field_is_null (i : item_info) : bool :=
  match type i with
  | PSTREAM_ITEM_PACKET => is_null (mc_memblock (chunk i))
  | PSTREAM_ITEM_MEMBLOCK => packet_is_null (packet i)
  end.

Definition item_release (i : item_info) : event :=
  match type i with
  | PSTREAM_ITEM_PACKET => Ev_memblock_unref (mc_memblock (chunk i))
  | PSTREAM_ITEM_MEMBLOCK => Ev_packet_unref (pk_addr (packet i))
  end.

(** The invocation of the write engine on [p] gets as far as the transfer
    (line 253) with the item [i], from the state [pb]: the stream is alive,
    the channel writable, [i] is the item in progress or else the head of
    the queue with a payload that is not NULL, and the data pointer of the
    cursor is not NULL. *)
Definition transfers (e : env) (p : pstream) (i : item_info) (pb : pstream) : Prop :=
  dead p = false /\ iochannel_is_writable e = true /\
  write_start p = Some (i, pb) /\
  (write_current (write p) = None -> item_payload_is_null i = false) /\
  data_is_null (write_data (write pb)) = false.

(** The transfer that starts in [pb] writes the final byte of the frame:
    its result is not negative and brings the offset to the end of the
    frame (lines 253-260). *)
Definition completes (e : env) (pb : pstream) : bool :=
  let r := iochannel_write e (snd (write_span pb)) in
  (0 <=? r) &&
  (size_t (write_index (write pb) + r) >=?
   size_t (PSTREAM_DESCRIPTOR_SIZE
           + descriptor_get (write_descriptor (write pb)) PSTREAM_DESCRIPTOR_LENGTH)).

(** ** Notions used in the further properties *)

(** The calls of the write side and of the read side. *)
Definition is_write_side (ev : event) : bool :=
  match ev with
  | Ev_iochannel_write _ _ _ | Ev_packet_unref _ | Ev_memblock_unref _
  | Ev_send_callback => true
  | _ => false
  end.

Definition is_read_side (ev : event) : bool :=
  match ev with
  | Ev_iochannel_read _ _ _ | Ev_packet_new _ _ | Ev_memblock_new _ _
  | Ev_packet_unref _ | Ev_memblock_unref _
  | Ev_recieve_packet_callback _ | Ev_recieve_memblock_callback _ _ _ => true
  | _ => false
  end.

Definition is_recieve_packet (ev : event) : bool :=
  match ev with Ev_recieve_packet_callback _ => true | _ => false end.

(** The channel field and the delta field of the frame of an item. *)
Definition item_channel (i : item_info) : Z :=
  match type i with
  | PSTREAM_ITEM_PACKET => 0
  | PSTREAM_ITEM_MEMBLOCK => channel i
  end.

Definition item_delta (i : item_info) : Z :=
  match type i with
  | PSTREAM_ITEM_PACKET => 0
  | PSTREAM_ITEM_MEMBLOCK => delta i
  end.

(** The channel of every engine call keeps its contract. *)
Definition call_bounded (c : call) : Prop :=
  match c with
  | Call_do_write e | Call_do_read e | Call_io_callback e | Call_prepare_callback e =>
      channel_bounded e
  | _ => True
  end.

(** The states a stream goes through when its channel never returns more
    than it was asked for. *)
Inductive well_driven : pstream -> Prop :=
| well_driven_new : forall fresh, well_driven (pstream_new fresh)
| well_driven_step : forall p c p' tr,
    well_driven p -> call_ok c -> call_bounded c ->
    exec c p = Returned p' tr -> well_driven p'.

(** The read cursor holds the buffer of the frame being received: a packet
    of the length of the descriptor, or a memblock, never both, and the
    data pointer is the start of that buffer. *)
Definition holding (p : pstream) : Prop :=
  (is_null (read_memblock (read p)) = true /\
   packet_is_null (read_packet (read p)) = false /\
   pk_length (read_packet (read p)) = read_length p /\
   read_data (read p) = packet_data (read_packet (read p))) \/
  (is_null (read_memblock (read p)) = false /\
   packet_is_null (read_packet (read p)) = true /\
   read_data (read p) = memblock_data (read_memblock (read p))).

(** The invariant of the read cursor of a well-driven stream. *)
Definition read_wf (p : pstream) : Prop :=
  0 <= read_index (read p) < FRAME_SIZE_MAX + PSTREAM_DESCRIPTOR_SIZE /\
  (read_index (read p) < PSTREAM_DESCRIPTOR_SIZE ->
   packet_is_null (read_packet (read p)) = true /\
   is_null (read_memblock (read p)) = true) /\
  (PSTREAM_DESCRIPTOR_SIZE <= read_index (read p) -> dead p = false ->
   holding p /\ read_length p <= FRAME_SIZE_MAX /\
   (read_index (read p) = PSTREAM_DESCRIPTOR_SIZE \/
    read_index (read p) < read_length p + PSTREAM_DESCRIPTOR_SIZE)) /\
  (is_null (read_memblock (read p)) || packet_is_null (read_packet (read p)) = true).

(** The buffer the read cursor holds, as [pstream_free] releases it. *)
Definition held_buffer_release (p : pstream) : trace :=
  if negb (is_null (read_memblock (read p)))
  then [Ev_memblock_unref (read_memblock (read p))]
  else if negb (packet_is_null (read_packet (read p)))
       then [Ev_packet_unref (pk_addr (read_packet (read p)))]
       else [].

(** The item a send enqueues, and whether its assertions hold. *)
Definition sent_item (c : call) : list item_info :=
  match c with
  | Call_send_packet pk fresh =>
      [{| type := PSTREAM_ITEM_PACKET; packet := pk; chunk := chunk fresh;
          channel := channel fresh; delta := delta fresh |}]
  | Call_send_memblock ch dl (Some ck) fresh =>
      [{| type := PSTREAM_ITEM_MEMBLOCK; chunk := ck; channel := ch; delta := dl;
          packet := packet fresh |}]
  | _ => []
  end.

Definition send_ok (c : call) : bool :=
  match c with
  | Call_send_packet pk _ => negb (packet_is_null pk)
  | Call_send_memblock ch _ (Some _) _ => negb (ch =? 0)
  | _ => false
  end.

Definition is_send (c : call) : Prop :=
  match c with
  | Call_send_packet _ _ | Call_send_memblock _ _ _ _ => True
  | _ => False
  end.

(** The 12 bytes the write engine hands to the channel as the header of
    the frame of an item. *)
Definition header_bytes (i : item_info) : list Z :=
  descriptor_bytes (write_descriptor (cursor_of_item i)).

(** A channel that delivers the bytes [bs] in pieces of the sizes [ks],
    one piece per read. *)
Fixpoint feed (ks : list Z) (bs : list Z) : list env :=
  match ks with
  | [] => []
  | k :: ks' => mock k bs :: feed ks' (skipn (Z.to_nat k) bs)
  end.

Definition is_byte (b : Z) : Prop := 0 <= b < 256.

(** The invariant of the write cursor: the offset is a [size_t], and while
    an item is in progress the descriptor and the data pointer are the
    ones [prepare_next_write_item] computed from that item. *)
Definition write_wf (p : pstream) : Prop :=
  0 <= write_index (write p) < 2 ^ 64 /\
  forall i, write_current (write p) = Some i ->
    write_descriptor (write p) = write_descriptor (cursor_of_item i) /\
    write_data (write p) = write_data (cursor_of_item i).

(** The three callbacks that are registered. *)
Definition callbacks (p : pstream) : bool * bool * bool :=
  (send_callback p, recieve_packet_callback p, recieve_memblock_callback p).

(** ** Arithmetic of the machine integers *)

Lemma size_t_range : forall x, 0 <= size_t x < 2 ^ 64.
Proof. intro x. unfold size_t. apply Z.mod_pos_bound. lia. Qed.

Lemma size_t_small : forall x, 0 <= x < 2 ^ 64 -> size_t x = x.
Proof. intros x H. unfold size_t. apply Z.mod_small. exact H. Qed.

Lemma size_t_add_sub : forall i r, 0 <= i < 2 ^ 64 -> size_t (size_t (i + r) - r) = i.
Proof.
  intros i r H. unfold size_t.
  rewrite Zminus_mod_idemp_l.
  replace (i + r - r) with i by lia.
  apply Z.mod_small. exact H.
Qed.

Lemma uint32_t_range : forall x, 0 <= uint32_t x < 2 ^ 32.
Proof. intro x. unfold uint32_t. apply Z.mod_pos_bound. lia. Qed.

Lemma size_t_off_by_24 : forall x, size_t x <> x + 24.
Proof.
  intros x H. unfold size_t in H.
  pose proof (Z.div_mod x (2 ^ 64)) as D.
  change (2 ^ 64) with 18446744073709551616 in *.
  lia.
Qed.

Lemma descriptor_get_range : forall d i, 0 <= descriptor_get d i < 2 ^ 32.
Proof. intros d i. destruct i; simpl; apply uint32_t_range. Qed.

(** ** The span of one transfer *)

(** C1 (defect of the code).  While the offset is within the header, the
    span either engine requests is the rest of the header.  Once the offset
    is at or past the header, the span is [length - offset - header_size]
    in [size_t] arithmetic, which is never the number of payload bytes that
    remain, [length - (offset - header_size)]: the two differ by twice the
    header size. *)
Theorem span_of_one_transfer :
  forall p : pstream,
    (0 <= write_index (write p) < PSTREAM_DESCRIPTOR_SIZE ->
     snd (write_span p) = PSTREAM_DESCRIPTOR_SIZE - write_index (write p)) /\
    (0 <= read_index (read p) < PSTREAM_DESCRIPTOR_SIZE ->
     snd (read_span p) = PSTREAM_DESCRIPTOR_SIZE - read_index (read p)) /\
    (PSTREAM_DESCRIPTOR_SIZE <= write_index (write p) ->
     snd (write_span p) <>
       descriptor_get (write_descriptor (write p)) PSTREAM_DESCRIPTOR_LENGTH
       - (write_index (write p) - PSTREAM_DESCRIPTOR_SIZE)) /\
    (PSTREAM_DESCRIPTOR_SIZE <= read_index (read p) ->
     snd (read_span p) <>
       descriptor_get (read_descriptor (read p)) PSTREAM_DESCRIPTOR_LENGTH
       - (read_index (read p) - PSTREAM_DESCRIPTOR_SIZE)).
Proof.
  intro p. unfold write_span, read_span.
  destruct (Z.ltb_spec (write_index (write p)) PSTREAM_DESCRIPTOR_SIZE) as [W | W];
    destruct (Z.ltb_spec (read_index (read p)) PSTREAM_DESCRIPTOR_SIZE) as [R | R];
    cbn [snd]; unfold PSTREAM_DESCRIPTOR_SIZE, PSTREAM_DESCRIPTOR_MAX in *;
    change (3 * 4) with 12 in *;
    repeat split; intro H; try lia;
    try (apply size_t_small; change (2 ^ 64) with 18446744073709551616; lia);
    intro E; eapply size_t_off_by_24; rewrite E; lia.
Qed.

Lemma span_of_one_transfer_witness :
  snd (write_span (pstream_new blank_stream)) = 12 - 0 /\
  snd (read_span (pstream_new blank_stream)) = 12 - 0 /\
  snd (write_span header_written) <> 24 - (12 - 12) /\
  snd (read_span header_read) <> 30 - (12 - 12).
Proof.
  destruct (span_of_one_transfer (pstream_new blank_stream)) as (W & R & _ & _).
  destruct (span_of_one_transfer header_written) as (_ & _ & W' & _).
  destruct (span_of_one_transfer header_read) as (_ & _ & _ & R').
  split; [apply W; vm_compute; split; [discriminate | reflexivity] |].
  split; [apply R; vm_compute; split; [discriminate | reflexivity] |].
  split; [apply W' | apply R']; vm_compute; discriminate.
Defined.

(** What the engines request there: nothing of the 24 bytes of the packet,
    and 6 of the 30 bytes of the memblock. *)
Example span_after_the_header :
  write_span header_written = (InPacket 600 0, 0) /\
  read_span header_read = (InMemblock 2000 0, 6).
Proof. split; vm_compute; reflexivity. Qed.

(** ** Laws of sequencing *)

Lemma prepend_nil : forall o, prepend [] o = o.
Proof. intros [p t | t]; reflexivity. Qed.

Lemma prepend_app : forall t1 t2 o, prepend (t1 ++ t2) o = prepend t1 (prepend t2 o).
Proof. intros t1 t2 [p t | t]; simpl; rewrite app_assoc; reflexivity. Qed.

Lemma trace_of_prepend : forall t o, trace_of (prepend t o) = t ++ trace_of o.
Proof. intros t [p t' | t']; reflexivity. Qed.

Lemma bind_ret : forall k p, (ret ;; k) p = k p.
Proof. intros k p. unfold bind, ret. apply prepend_nil. Qed.

Lemma bind_modify : forall f k p, (modify f ;; k) p = k (f p).
Proof. intros f k p. unfold bind, modify. apply prepend_nil. Qed.

Lemma bind_emit : forall ev k p, (emit ev ;; k) p = prepend [ev] (k p).
Proof. reflexivity. Qed.

Lemma bind_assert_true : forall k p, (assert true ;; k) p = k p.
Proof. intros k p. unfold bind, assert. apply prepend_nil. Qed.

Lemma bind_assert_false : forall k p, (assert false ;; k) p = Aborted [].
Proof. reflexivity. Qed.

Lemma bind_get : forall f k p, (get f ;; k) p = (f p ;; k) p.
Proof. reflexivity. Qed.

Lemma bind_assoc : forall m k h p, ((m ;; k) ;; h) p = (m ;; (k ;; h)) p.
Proof.
  intros m k h p. unfold bind.
  destruct (m p) as [p1 t1 | t1]; [| reflexivity].
  destruct (k p1) as [p2 t2 | t2]; simpl; [| reflexivity].
  destruct (h p2) as [p3 t3 | t3]; simpl; rewrite app_assoc; reflexivity.
Qed.

Lemma bind_returned : forall m k p p' tr,
  (m ;; k) p = Returned p' tr ->
  exists p1 t1 t2, m p = Returned p1 t1 /\ k p1 = Returned p' t2 /\ tr = t1 ++ t2.
Proof.
  intros m k p p' tr H. unfold bind in H.
  destruct (m p) as [p1 t1 | t1]; [| discriminate].
  destruct (k p1) as [p2 t2 | t2] eqn:E; simpl in H; [| discriminate].
  inversion H; subst. exists p1, t1, t2. repeat split. exact E.
Qed.

(** ** What a function leaves alone *)

Section Keeps.
Context {A : Type} (f : pstream -> A).

Lemma keeps_ret : keeps f ret.
Proof. intros p p' tr H. inversion H. reflexivity. Qed.

Lemma keeps_emit : forall ev, keeps f (emit ev).
Proof. intros ev p p' tr H. inversion H. reflexivity. Qed.

Lemma keeps_assert : forall b, keeps f (assert b).
Proof. intros b p p' tr H. unfold assert in H. destruct b; inversion H. reflexivity. Qed.

Lemma keeps_modify : forall g, (forall p, f (g p) = f p) -> keeps f (modify g).
Proof. intros g Hg p p' tr H. inversion H. apply Hg. Qed.

Lemma keeps_bind : forall m k, keeps f m -> keeps f k -> keeps f (m ;; k).
Proof.
  intros m k Hm Hk p p' tr H. unfold bind in H.
  destruct (m p) as [p1 t1 |] eqn:E1; [| discriminate].
  destruct (k p1) as [p2 t2 |] eqn:E2; [| discriminate].
  simpl in H. inversion H; subst. rewrite (Hk _ _ _ E2). exact (Hm _ _ _ E1).
Qed.

Lemma keeps_get : forall k, (forall q, keeps f (k q)) -> keeps f (get k).
Proof. intros k Hk p p' tr H. exact (Hk p _ _ _ H). Qed.
End Keeps.

Ltac keeps_step :=
  match goal with
  | |- keeps _ (_ ;; _) => apply keeps_bind
  | |- keeps _ (get _) => apply keeps_get; intro
  | |- keeps _ ret => apply keeps_ret
  | |- keeps _ (emit _) => apply keeps_emit
  | |- keeps _ (assert _) => apply keeps_assert
  | |- keeps _ (modify _) => apply keeps_modify; intro; reflexivity
  | |- keeps _ (modify_write _) => apply keeps_modify; intro; reflexivity
  | |- keeps _ (modify_read _) => apply keeps_modify; intro; reflexivity
  | |- keeps _ (mainloop_source_enable _) => apply keeps_modify; intro; reflexivity
  | |- keeps _ (queue_push _) => apply keeps_modify; intro; reflexivity
  | |- keeps _ (if ?c then _ else _) => destruct c
  | |- keeps _ (let (_, _) := ?x in _) => destruct x
  | |- keeps _ (match ?x with _ => _ end) => destruct x
  end.

Ltac keeps_tac := repeat keeps_step.

Lemma item_free_keeps : forall {A} (f : pstream -> A) i, keeps f (item_free i).
Proof. intros A f i. unfold item_free. keeps_tac. Qed.

Lemma item_free_state : forall i p p' tr, item_free i p = Returned p' tr -> p' = p.
Proof. intros i p p' tr H. exact (item_free_keeps (fun q => q) i _ _ _ H). Qed.

Lemma prepare_next_write_item_keeps_source :
  keeps mainloop_source prepare_next_write_item.
Proof. unfold prepare_next_write_item. keeps_tac. Qed.

Lemma prepare_next_write_item_keeps_read : keeps read prepare_next_write_item.
Proof. unfold prepare_next_write_item. keeps_tac. Qed.

(** ** The scheduler hook *)

Lemma do_write_disarms : forall e p p' tr,
  do_write e p = Returned p' tr -> mainloop_source p' = false.
Proof.
  intros e p p' tr H. unfold do_write in H.
  unfold mainloop_source_enable in H. rewrite bind_modify in H.
  match type of H with
  | ?k _ = _ => assert (K : keeps mainloop_source k)
  end.
  - keeps_tac; try apply item_free_keeps; apply prepare_next_write_item_keeps_source.
  - rewrite (K _ _ _ H). reflexivity.
Qed.

(** C7 (counterexample).  A packet of 8 bytes was sent and the channel took
    5 bytes of its frame: the item is in progress, and the write engine
    returned with the scheduler hook disarmed. *)
Lemma hook_disarmed_with_work_pending :
  exists p' tr,
    do_write (mock 5 [])
      (after [Call_send_packet packet8 stale_item] (pstream_new blank_stream))
    = Returned p' tr /\
    write_current (write p') <> None /\
    mainloop_source p' = false.
Proof.
  eexists. eexists. split; [vm_compute; reflexivity |].
  split; [discriminate | reflexivity].
Qed.

Lemma do_read_disarms : forall e p p' tr,
  do_read e p = Returned p' tr -> mainloop_source p' = false.
Proof.
  intros e p p' tr H. unfold do_read in H.
  unfold mainloop_source_enable in H. rewrite bind_modify in H.
  match type of H with
  | ?k _ = _ => assert (K : keeps mainloop_source k)
  end.
  - unfold frame_progress, descriptor_complete, pass_memblock_data, frame_complete,
      deposit.
    keeps_tac.
  - rewrite (K _ _ _ H). reflexivity.
Qed.

Lemma setter_keeps_source : forall (set : bool -> pstream -> pstream) cb p p' tr,
  (forall b q, mainloop_source (set b q) = mainloop_source q) ->
  (assert cb ;; modify (set cb)) p = Returned p' tr ->
  mainloop_source p' = mainloop_source p.
Proof.
  intros set cb p p' tr K H. destruct cb.
  - rewrite bind_assert_true in H. inversion H. apply K.
  - rewrite bind_assert_false in H. discriminate.
Qed.

(** C7 (as amended).  The scheduler hook after a call that returns: it is
    disarmed after every invocation of the write engine, of the read
    engine and of the two callbacks that run them, whatever work remains;
    it is armed after [pstream_send_packet] and [pstream_send_memblock];
    the three callback setters leave it as it was.  So the engines never
    arm the hook, and nothing but a send does. *)
Theorem hook_armed_by_send_disarmed_by_engine :
  forall (c : call) (p p' : pstream) (tr : trace),
    exec c p = Returned p' tr ->
    mainloop_source p' =
    match c with
    | Call_send_packet _ _ | Call_send_memblock _ _ _ _ => true
    | Call_set_send_callback _ | Call_set_recieve_packet_callback _
    | Call_set_recieve_memblock_callback _ => mainloop_source p
    | Call_do_write _ | Call_do_read _ | Call_io_callback _
    | Call_prepare_callback _ => false
    end.
Proof.
  intros c p p' tr H.
  assert (Both : forall e, (do_write e ;; do_read e) p = Returned p' tr ->
                           mainloop_source p' = false).
  { intros e Hb. apply bind_returned in Hb.
    destruct Hb as (p1 & t1 & t2 & _ & H2 & _).
    exact (do_read_disarms e p1 p' t2 H2). }
  destruct c; simpl in H.
  - unfold pstream_send_packet, bind, assert in H.
    destruct (negb (packet_is_null pk)); [| discriminate].
    cbn in H. inversion H. reflexivity.
  - unfold pstream_send_memblock in H.
    destruct ck as [ck |]; [| discriminate].
    unfold bind, assert in H.
    destruct (negb (ch =? 0)); [| discriminate].
    cbn in H. inversion H. reflexivity.
  - apply (setter_keeps_source set_send_callback callback p p' tr); [| exact H].
    intros b q. reflexivity.
  - apply (setter_keeps_source set_recieve_packet_callback callback p p' tr); [| exact H].
    intros b q. reflexivity.
  - apply (setter_keeps_source set_recieve_memblock_callback callback p p' tr);
      [| exact H].
    intros b q. reflexivity.
  - exact (do_write_disarms e p p' tr H).
  - exact (do_read_disarms e p p' tr H).
  - exact (Both e H).
  - exact (Both e H).
Qed.

Lemma hook_armed_by_send_disarmed_by_engine_witness :
  mainloop_source
    (after [Call_send_packet packet8 stale_item; Call_do_write (mock 5 [])]
       (pstream_new blank_stream)) = false /\
  mainloop_source
    (after [Call_send_packet packet8 stale_item; Call_io_callback (mock 5 header8)]
       (pstream_new blank_stream)) = false /\
  mainloop_source
    (after [Call_send_memblock 2 (-5)
              (Some {| mc_memblock := 900; mc_index := 0; mc_length := 8 |}) blank_item]
       (pstream_new blank_stream)) = true /\
  mainloop_source
    (after [Call_send_packet packet8 stale_item; Call_set_send_callback true]
       (pstream_new blank_stream)) = true /\
  mainloop_source
    (after [Call_set_recieve_packet_callback true] (pstream_new blank_stream)) = false.
Proof.
  split; [| split; [| split; [| split]]].
  - apply (hook_armed_by_send_disarmed_by_engine (Call_do_write (mock 5 []))
             (after [Call_send_packet packet8 stale_item] (pstream_new blank_stream))
             _ [Ev_iochannel_write (InWriteDescriptor 0) 12 5]).
    vm_compute. reflexivity.
  - apply (hook_armed_by_send_disarmed_by_engine (Call_io_callback (mock 5 header8))
             (after [Call_send_packet packet8 stale_item] (pstream_new blank_stream))
             _ [Ev_iochannel_write (InWriteDescriptor 0) 12 5;
                Ev_iochannel_read (InReadDescriptor 0) 12 5]).
    vm_compute. reflexivity.
  - apply (hook_armed_by_send_disarmed_by_engine
             (Call_send_memblock 2 (-5)
                (Some {| mc_memblock := 900; mc_index := 0; mc_length := 8 |}) blank_item)
             (pstream_new blank_stream) _ []).
    vm_compute. reflexivity.
  - rewrite (hook_armed_by_send_disarmed_by_engine (Call_set_send_callback true)
               (after [Call_send_packet packet8 stale_item] (pstream_new blank_stream))
               (after [Call_send_packet packet8 stale_item; Call_set_send_callback true]
                  (pstream_new blank_stream)) []);
      [reflexivity | vm_compute; reflexivity].
  - rewrite (hook_armed_by_send_disarmed_by_engine (Call_set_recieve_packet_callback true)
               (pstream_new blank_stream)
               (after [Call_set_recieve_packet_callback true] (pstream_new blank_stream))
               []);
      [reflexivity | vm_compute; reflexivity].
Defined.

(** ** The dead state *)

Lemma do_write_dead : forall e p,
  dead p = true -> do_write e p = Returned (set_mainloop_source false p) [].
Proof.
  intros e p H. unfold do_write, bind, get, mainloop_source_enable, modify.
  cbn [dead set_mainloop_source]. rewrite H. reflexivity.
Qed.

Lemma do_read_dead : forall e p,
  dead p = true -> do_read e p = Returned (set_mainloop_source false p) [].
Proof.
  intros e p H. unfold do_read, bind, get, mainloop_source_enable, modify.
  cbn [dead set_mainloop_source]. rewrite H. reflexivity.
Qed.

Lemma inert_same : forall p b, dead p = true ->
  inert p (Returned (set_mainloop_source b p) []).
Proof.
  intros p b H. simpl. repeat split; try assumption.
  exists []. rewrite app_nil_r. reflexivity.
Qed.

Lemma exec_dead : forall c p, dead p = true -> inert p (exec c p).
Proof.
  intros c p H. destruct c; simpl exec.
  - unfold pstream_send_packet, bind, assert.
    destruct (negb (packet_is_null pk)); [| reflexivity].
    cbn. repeat split; try assumption. eexists. reflexivity.
  - unfold pstream_send_memblock. destruct ck as [c |]; [| reflexivity].
    unfold bind, assert. destruct (negb (ch =? 0)); [| reflexivity].
    cbn. repeat split; try assumption. eexists. reflexivity.
  - unfold pstream_set_send_callback, bind, assert.
    destruct callback; [| reflexivity].
    cbn. repeat split; try assumption. exists []. rewrite app_nil_r. reflexivity.
  - unfold pstream_set_recieve_packet_callback, bind, assert.
    destruct callback; [| reflexivity].
    cbn. repeat split; try assumption. exists []. rewrite app_nil_r. reflexivity.
  - unfold pstream_set_recieve_memblock_callback, bind, assert.
    destruct callback; [| reflexivity].
    cbn. repeat split; try assumption. exists []. rewrite app_nil_r. reflexivity.
  - rewrite (do_write_dead e p H). apply inert_same. exact H.
  - rewrite (do_read_dead e p H). apply inert_same. exact H.
  - unfold io_callback, bind. rewrite (do_write_dead e p H).
    rewrite do_read_dead by exact H.
    simpl. repeat split; try assumption. exists []. rewrite app_nil_r. reflexivity.
  - unfold prepare_callback, bind. rewrite (do_write_dead e p H).
    rewrite do_read_dead by exact H.
    simpl. repeat split; try assumption. exists []. rewrite app_nil_r. reflexivity.
Qed.

Lemma run_dead : forall cs p, dead p = true -> inert p (run cs p).
Proof.
  induction cs as [| c cs IH]; intros p H.
  - simpl. repeat split; try assumption. exists []. rewrite app_nil_r. reflexivity.
  - simpl run. unfold bind.
    pose proof (exec_dead c p H) as Hc.
    destruct (exec c p) as [p1 t1 | t1]; simpl in Hc.
    + destruct Hc as (-> & D1 & W1 & R1 & s1 & Q1).
      pose proof (IH p1 D1) as Hr.
      destruct (run cs p1) as [p2 t2 | t2]; simpl in Hr |- *.
      * destruct Hr as (-> & D2 & W2 & R2 & s2 & Q2).
        repeat split; try congruence.
        exists (s1 ++ s2). rewrite Q2, Q1, app_assoc. reflexivity.
      * subst. reflexivity.
    + subst. reflexivity.
Qed.

(** C9.  On a dead stream each engine returns at once: no I/O, no callback,
    and the queue and both cursors as they were.  Whatever is called
    afterwards, sends included, the stream stays dead, the channel is never
    used and no callback fires: what is sent stays in the queue. *)
Theorem dead_stream_is_inert :
  forall (p : pstream) (e : env) (cs : list call),
    dead p = true ->
    do_write e p = Returned (set_mainloop_source false p) [] /\
    do_read e p = Returned (set_mainloop_source false p) [] /\
    trace_of (run cs p) = [] /\
    (forall p' tr, run cs p = Returned p' tr ->
       dead p' = true /\ write p' = write p /\ read p' = read p /\
       exists sent, send_queue p' = send_queue p ++ sent).
Proof.
  intros p e cs H.
  split; [apply do_write_dead; exact H |].
  split; [apply do_read_dead; exact H |].
  pose proof (run_dead cs p H) as I.
  destruct (run cs p) as [p1 t1 | t1]; simpl in I |- *.
  - destruct I as (-> & D & W & R & Q). split; [reflexivity |].
    intros p' tr E. inversion E; subst. auto.
  - split; [exact I | intros p' tr E; discriminate].
Qed.

Lemma dead_stream_is_inert_witness :
  trace_of
    (run [Call_send_packet packet8 stale_item; Call_do_write (mock 5 []);
          Call_io_callback (mock 5 header8)]
       (after [Call_do_read (failing 0)] (pstream_new blank_stream))) = [].
Proof.
  destruct (dead_stream_is_inert
              (after [Call_do_read (failing 0)] (pstream_new blank_stream))
              (mock 5 [])
              [Call_send_packet packet8 stale_item; Call_do_write (mock 5 []);
               Call_io_callback (mock 5 header8)]) as (_ & _ & T & _).
  - vm_compute. reflexivity.
  - exact T.
Defined.

(** ** One invocation of the write engine *)

Arguments size_t : simpl never.
Arguments uint32_t : simpl never.
Arguments int32_t : simpl never.

Lemma prepare_next_write_item_pop : forall p i q,
  send_queue p = i :: q ->
  prepare_next_write_item p =
  if item_payload_is_null i then Aborted []
  else Returned (set_write (cursor_of_item i) (set_send_queue q p)) [].
Proof.
  intros p i q H. unfold prepare_next_write_item, get. rewrite H.
  rewrite bind_modify. unfold modify_write. rewrite !bind_modify.
  unfold item_payload_is_null, cursor_of_item.
  destruct (type i).
  - destruct (packet_is_null (packet i)); cbn [negb].
    + apply bind_assert_false.
    + rewrite bind_assert_true, !bind_modify. reflexivity.
  - destruct (is_null (mc_memblock (chunk i))); cbn [negb].
    + apply bind_assert_false.
    + rewrite bind_assert_true, !bind_modify. reflexivity.
Qed.

Lemma do_write_busy : forall e p i,
  dead p = false -> iochannel_is_writable e = true ->
  write_current (write p) = Some i ->
  do_write e p =
  if data_is_null (write_data (write p)) then Aborted [] else write_result e i p.
Proof.
  intros e p i D W C. unfold do_write, mainloop_source_enable.
  rewrite bind_modify. unfold get at 1. cbn [dead set_mainloop_source].
  rewrite D, W. cbn [negb orb]. cbn [write set_mainloop_source]. rewrite C.
  rewrite bind_ret. unfold get at 1. cbn [write set_mainloop_source]. rewrite C.
  destruct (data_is_null (write_data (write p))); cbn [negb].
  - apply bind_assert_false.
  - rewrite bind_assert_true. unfold write_result.
    change (write_span (set_mainloop_source false p)) with (write_span p).
    destruct (write_span p) as [d l]. cbn [fst snd].
    rewrite bind_emit. f_equal.
    destruct (iochannel_write e l <? 0); [reflexivity |].
    unfold modify_write. rewrite bind_modify. unfold get at 1.
    cbn [write set_write set_mainloop_source write_index set_write_index write_descriptor].
    destruct (_ >=? _); [| reflexivity].
    unfold bind at 1.
    pose proof (item_free_state i) as S.
    destruct (item_free i _) as [p2 t2 | t2] eqn:E.
    + apply S in E. subst p2. rewrite bind_modify. unfold get.
      cbn [send_callback set_write set_mainloop_source send_queue].
      destruct (send_callback p && queue_is_empty (send_queue p)); reflexivity.
    + reflexivity.
Qed.

Lemma do_write_blocked : forall e p,
  iochannel_is_writable e = false ->
  do_write e p = Returned (set_mainloop_source false p) [].
Proof.
  intros e p W. unfold do_write, mainloop_source_enable.
  rewrite bind_modify. unfold get. rewrite W, orb_true_r. reflexivity.
Qed.

Lemma do_write_idle : forall e p,
  dead p = false -> iochannel_is_writable e = true ->
  write_current (write p) = None -> send_queue p = [] ->
  do_write e p =
  Returned (set_write (set_write_current None (write p)) (set_mainloop_source false p)) [].
Proof.
  intros e p D W C Q. unfold do_write, mainloop_source_enable.
  rewrite bind_modify. unfold get at 1. cbn [dead set_mainloop_source].
  rewrite D, W. cbn [negb orb]. cbn [write set_mainloop_source]. rewrite C.
  unfold bind, prepare_next_write_item, get. cbn [send_queue set_mainloop_source].
  rewrite Q. reflexivity.
Qed.

Lemma do_write_pop : forall e p i q,
  dead p = false -> iochannel_is_writable e = true ->
  write_current (write p) = None -> send_queue p = i :: q ->
  do_write e p =
  if item_payload_is_null i then Aborted []
  else do_write e (set_write (cursor_of_item i) (set_send_queue q p)).
Proof.
  intros e p i q D W C Q. unfold do_write at 1, mainloop_source_enable.
  rewrite bind_modify. unfold get at 1. cbn [dead set_mainloop_source].
  rewrite D, W. cbn [negb orb]. cbn [write set_mainloop_source]. rewrite C.
  unfold bind at 1.
  rewrite (prepare_next_write_item_pop _ i q) by exact Q.
  destruct (item_payload_is_null i) eqn:N; [reflexivity |].
  rewrite prepend_nil.
  assert (C' : write_current (cursor_of_item i) = Some i).
  { unfold cursor_of_item. destruct (type i); reflexivity. }
  symmetry. unfold do_write, mainloop_source_enable. rewrite bind_modify.
  unfold get at 1. cbn [dead set_mainloop_source set_write set_send_queue].
  rewrite D, W. cbn [negb orb]. cbn [write set_mainloop_source set_write]. rewrite C'.
  rewrite bind_ret. reflexivity.
Qed.

Lemma set_write_current_same : forall p,
  write_current (write p) = None ->
  set_write (set_write_current None (write p)) (set_mainloop_source false p)
  = set_mainloop_source false p.
Proof.
  intros [s q d [c wd wdt wi] sc r rp rm] H. simpl in H. subst c. reflexivity.
Qed.

Lemma cursor_of_item_data : forall i,
  item_payload_is_null i = false -> data_is_null (write_data (cursor_of_item i)) = false.
Proof. intros i _. unfold cursor_of_item. destruct (type i); reflexivity. Qed.

Lemma cursor_of_item_current : forall i, write_current (cursor_of_item i) = Some i.
Proof. intro i. unfold cursor_of_item. destruct (type i); reflexivity. Qed.

Lemma cursor_of_item_index : forall i, write_index (cursor_of_item i) = 0.
Proof. intro i. unfold cursor_of_item. destruct (type i); reflexivity. Qed.

(** The three ways an invocation of the write engine goes. *)
Lemma do_write_cases : forall e p,
  do_write e p = Aborted [] \/
  (do_write e p = Returned (set_mainloop_source false p) [] /\
   (dead p = true \/ iochannel_is_writable e = false \/ write_start p = None)) \/
  (exists i pb,
      write_start p = Some (i, pb) /\
      dead p = false /\ iochannel_is_writable e = true /\
      do_write e p = write_result e i pb).
Proof.
  intros e p.
  destruct (dead p) eqn:D.
  { right; left. split; [apply do_write_dead; exact D | auto]. }
  destruct (iochannel_is_writable e) eqn:W.
  2:{ right; left. split; [apply do_write_blocked; exact W | auto]. }
  unfold write_start.
  destruct (write_current (write p)) as [i |] eqn:C.
  - rewrite (do_write_busy e p i D W C).
    destruct (data_is_null (write_data (write p))); [left; reflexivity |].
    right; right. exists i, p. auto.
  - destruct (send_queue p) as [| i q] eqn:Q.
    + right; left. rewrite (do_write_idle e p D W C Q).
      rewrite set_write_current_same by exact C. auto.
    + rewrite (do_write_pop e p i q D W C Q).
      destruct (item_payload_is_null i) eqn:N; [left; reflexivity |].
      rewrite (do_write_busy e _ i); [| exact D | exact W | apply cursor_of_item_current].
      cbn [write set_write]. rewrite cursor_of_item_data by exact N.
      right; right. eexists. eexists. split; [reflexivity |]. auto.
Qed.

Lemma item_free_cases : forall i p,
  item_free i p = Aborted [] \/
  (exists a, item_free i p = Returned p [Ev_memblock_unref a]) \/
  (exists a, item_free i p = Returned p [Ev_packet_unref a]).
Proof.
  intros i p. unfold item_free.
  destruct (type i).
  - destruct (is_null (mc_memblock (chunk i))); cbn [negb].
    + left. apply bind_assert_false.
    + right; left. eexists. rewrite bind_assert_true. reflexivity.
  - destruct (packet_is_null (packet i)); cbn [negb].
    + left. apply bind_assert_false.
    + right; right. eexists. rewrite bind_assert_true. reflexivity.
Qed.

Lemma write_start_keeps : forall p i pb,
  write_start p = Some (i, pb) ->
  send_callback pb = send_callback p /\ write_current (write pb) = Some i.
Proof.
  intros p i pb S. unfold write_start in S.
  destruct (write_current (write p)) eqn:C.
  - inversion S; subst. auto.
  - destruct (send_queue p); [discriminate |]. inversion S; subst.
    split; [reflexivity | apply cursor_of_item_current].
Qed.

Lemma do_write_transfers : forall e p i pb,
  transfers e p i pb -> do_write e p = write_result e i pb.
Proof.
  intros e p i pb (D & W & S & N & DN). unfold write_start in S.
  destruct (write_current (write p)) as [j |] eqn:C.
  - inversion S; subst. rewrite (do_write_busy e pb i D W C), DN. reflexivity.
  - destruct (send_queue p) as [| j q] eqn:Q; [discriminate |].
    inversion S; subst. rewrite (do_write_pop e p i q D W C Q), (N eq_refl).
    rewrite (do_write_busy e _ i); [| exact D | exact W | apply cursor_of_item_current].
    rewrite DN. reflexivity.
Qed.

Lemma do_write_without_transfer : forall e p,
  (forall i pb, ~ transfers e p i pb) ->
  do_write e p = Aborted [] \/ do_write e p = Returned (set_mainloop_source false p) [].
Proof.
  intros e p NT.
  destruct (dead p) eqn:D; [right; apply do_write_dead; exact D |].
  destruct (iochannel_is_writable e) eqn:W; [| right; apply do_write_blocked; exact W].
  destruct (write_current (write p)) as [i |] eqn:C.
  - rewrite (do_write_busy e p i D W C).
    destruct (data_is_null (write_data (write p))) eqn:DN; [left; reflexivity |].
    exfalso. apply (NT i p). unfold transfers, write_start. rewrite C.
    split; [exact D |]. split; [exact W |]. split; [reflexivity |].
    split; [discriminate | exact DN].
  - destruct (send_queue p) as [| i q] eqn:Q.
    + right. rewrite (do_write_idle e p D W C Q).
      rewrite set_write_current_same by exact C. reflexivity.
    + rewrite (do_write_pop e p i q D W C Q).
      destruct (item_payload_is_null i) eqn:N; [left; reflexivity |].
      rewrite (do_write_busy e _ i); [| exact D | exact W | apply cursor_of_item_current].
      destruct (data_is_null _) eqn:DN; [left; reflexivity |].
      exfalso. apply (NT i (set_write (cursor_of_item i) (set_send_queue q p))).
      unfold transfers, write_start. rewrite C, Q.
      split; [exact D |]. split; [exact W |]. split; [reflexivity |].
      split; [intros _; exact N | exact DN].
Qed.

Lemma item_free_release : forall i p,
  item_free i p =
  if item_freed_field_is_null i then Aborted [] else Returned p [item_release i].
Proof.
  intros i p. unfold item_free, item_freed_field_is_null, item_release.
  destruct (type i).
  - destruct (is_null (mc_memblock (chunk i))); cbn [negb].
    + apply bind_assert_false.
    + rewrite bind_assert_true. reflexivity.
  - destruct (packet_is_null (packet i)); cbn [negb].
    + apply bind_assert_false.
    + rewrite bind_assert_true. reflexivity.
Qed.

Lemma write_result_completes : forall e i pb,
  completes e pb = true ->
  let w := Ev_iochannel_write (fst (write_span pb)) (snd (write_span pb))
             (iochannel_write e (snd (write_span pb))) in
  (item_freed_field_is_null i = true -> write_result e i pb = Aborted [w]) /\
  (item_freed_field_is_null i = false ->
   exists p',
     write_result e i pb
     = Returned p'
         (w :: item_release i
            :: (if send_callback pb && queue_is_empty (send_queue pb)
                then [Ev_send_callback] else [])) /\
     write_current (write p') = None /\ send_queue p' = send_queue pb).
Proof.
  intros e i pb K w. unfold completes in K. apply andb_prop in K. destruct K as [K1 K2].
  unfold write_result.
  assert (N : (iochannel_write e (snd (write_span pb)) <? 0) = false).
  { apply Z.ltb_ge. apply Z.leb_le. exact K1. }
  rewrite N. cbv zeta. rewrite K2, item_free_release.
  split; intro F; rewrite F.
  - reflexivity.
  - eexists. split; [reflexivity |]. split; reflexivity.
Qed.

Lemma write_result_incomplete : forall e i pb,
  completes e pb = false ->
  count is_send_callback (trace_of (write_result e i pb)) = 0%nat.
Proof.
  intros e i pb K. unfold completes in K. unfold write_result.
  destruct (Z.ltb_spec (iochannel_write e (snd (write_span pb))) 0) as [N | N].
  - reflexivity.
  - assert (K1 : (0 <=? iochannel_write e (snd (write_span pb))) = true)
      by (apply Z.leb_le; exact N).
    rewrite K1 in K. cbn [andb] in K. cbv zeta. rewrite K. reflexivity.
Qed.

(** ** The send callback *)

(** C6 (defect of the code, the one of C5).  The write engine calls the
    send callback when the transfer of an invocation writes the final byte
    of the item in progress, a callback is registered and no item remains
    queued; it does not call it when items remain queued, and an
    invocation that does not complete an item never calls it.  But between
    the final byte and the callback the engine frees the item, and
    [item_free] asserts on the field of the other type: when that field is
    NULL the invocation aborts right after the write, and the callback is
    not called although the queue has drained.  When that field holds a
    stale pointer, that pointer is released and the callback is called
    once. *)
Theorem send_callback_fires_on_drain :
  forall (e : env) (p : pstream),
    (forall i pb,
        transfers e p i pb -> completes e pb = true ->
        let w := Ev_iochannel_write (fst (write_span pb)) (snd (write_span pb))
                   (iochannel_write e (snd (write_span pb))) in
        (item_freed_field_is_null i = true -> do_write e p = Aborted [w]) /\
        (item_freed_field_is_null i = false ->
         exists p',
           do_write e p
           = Returned p'
               (w :: item_release i
                  :: (if send_callback p && queue_is_empty (send_queue pb)
                      then [Ev_send_callback] else [])) /\
           write_current (write p') = None /\ send_queue p' = send_queue pb)) /\
    ((forall i pb, transfers e p i pb -> completes e pb = false) ->
     count is_send_callback (trace_of (do_write e p)) = 0%nat).
Proof.
  intros e p. split.
  - intros i pb T K w. rewrite (do_write_transfers e p i pb T).
    destruct T as (_ & _ & S & _). destruct (write_start_keeps p i pb S) as [SC _].
    rewrite <- SC. exact (write_result_completes e i pb K).
  - intro NC.
    destruct (dead p) eqn:D; [rewrite do_write_dead by exact D; reflexivity |].
    destruct (iochannel_is_writable e) eqn:W;
      [| rewrite do_write_blocked by exact W; reflexivity].
    destruct (write_start p) as [[i pb] |] eqn:S.
    + destruct (write_start_keeps p i pb S) as [_ CU].
      destruct (data_is_null (write_data (write pb))) eqn:DN.
      * destruct (do_write_without_transfer e p) as [A | A]; [| rewrite A | rewrite A];
          try reflexivity.
        intros j pj (_ & _ & Sj & _ & DNj). rewrite S in Sj. inversion Sj; subst.
        congruence.
      * destruct (write_current (write p)) as [j |] eqn:C.
        -- assert (T : transfers e p i pb).
           { unfold transfers. split; [exact D |]. split; [exact W |].
             split; [exact S |]. split; [| exact DN].
             intro X. rewrite C in X. discriminate X. }
           rewrite (do_write_transfers e p i pb T).
           apply write_result_incomplete. exact (NC i pb T).
        -- destruct (item_payload_is_null i) eqn:N.
           ++ destruct (do_write_without_transfer e p) as [A | A];
                [| rewrite A | rewrite A]; try reflexivity.
              intros j pj (_ & _ & Sj & Nj & _). rewrite S in Sj. inversion Sj; subst.
              rewrite (Nj C) in N. discriminate.
           ++ assert (T : transfers e p i pb).
              { unfold transfers. split; [exact D |]. split; [exact W |].
                split; [exact S |]. split; [intros _; exact N | exact DN]. }
              rewrite (do_write_transfers e p i pb T).
              apply write_result_incomplete. exact (NC i pb T).
    + destruct (do_write_without_transfer e p) as [A | A]; [| rewrite A | rewrite A];
        try reflexivity.
      intros j pj (_ & _ & Sj & _). rewrite S in Sj. discriminate.
Qed.

Lemma send_callback_fires_on_drain_witness :
  do_write (mock 8 [])
    (after [Call_set_send_callback true; Call_send_packet packet8 blank_item;
            Call_do_write (mock 12 [])] (pstream_new blank_stream))
  = Aborted [Ev_iochannel_write (InPacket 500 0) (2 ^ 64 - 16) 8] /\
  (exists p',
      do_write (mock 8 [])
        (after [Call_set_send_callback true; Call_send_packet packet8 stale_item;
                Call_do_write (mock 12 [])] (pstream_new blank_stream))
      = Returned p' [Ev_iochannel_write (InPacket 500 0) (2 ^ 64 - 16) 8;
                     Ev_memblock_unref 77; Ev_send_callback]) /\
  (exists p',
      do_write (mock 8 [])
        (after [Call_set_send_callback true; Call_send_packet packet8 stale_item;
                Call_send_packet packet24 stale_item;
                Call_do_write (mock 12 [])] (pstream_new blank_stream))
      = Returned p' [Ev_iochannel_write (InPacket 500 0) (2 ^ 64 - 16) 8;
                     Ev_memblock_unref 77]) /\
  count is_send_callback
    (trace_of
       (do_write (mock 5 [])
          (after [Call_set_send_callback true; Call_send_packet packet8 stale_item]
             (pstream_new blank_stream)))) = 0%nat.
Proof.
  split; [| split; [| split]].
  - destruct (send_callback_fires_on_drain (mock 8 [])
                (after [Call_set_send_callback true; Call_send_packet packet8 blank_item;
                        Call_do_write (mock 12 [])] (pstream_new blank_stream)))
      as [F _].
    edestruct F as [A _].
    + unfold transfers. split; [vm_compute; reflexivity |].
      split; [reflexivity |]. split; [vm_compute; reflexivity |].
      split; [intro X; vm_compute in X; discriminate X | vm_compute; reflexivity].
    + vm_compute. reflexivity.
    + rewrite A; [| vm_compute; reflexivity]. vm_compute. reflexivity.
  - destruct (send_callback_fires_on_drain (mock 8 [])
                (after [Call_set_send_callback true; Call_send_packet packet8 stale_item;
                        Call_do_write (mock 12 [])] (pstream_new blank_stream)))
      as [F _].
    edestruct F as [_ R].
    + unfold transfers. split; [vm_compute; reflexivity |].
      split; [reflexivity |]. split; [vm_compute; reflexivity |].
      split; [intro X; vm_compute in X; discriminate X | vm_compute; reflexivity].
    + vm_compute. reflexivity.
    + destruct R as (p' & E & _); [vm_compute; reflexivity |].
      exists p'. rewrite E. vm_compute. reflexivity.
  - destruct (send_callback_fires_on_drain (mock 8 [])
                (after [Call_set_send_callback true; Call_send_packet packet8 stale_item;
                        Call_send_packet packet24 stale_item;
                        Call_do_write (mock 12 [])] (pstream_new blank_stream)))
      as [F _].
    edestruct F as [_ R].
    + unfold transfers. split; [vm_compute; reflexivity |].
      split; [reflexivity |]. split; [vm_compute; reflexivity |].
      split; [intro X; vm_compute in X; discriminate X | vm_compute; reflexivity].
    + vm_compute. reflexivity.
    + destruct R as (p' & E & _); [vm_compute; reflexivity |].
      exists p'. rewrite E. vm_compute. reflexivity.
  - destruct (send_callback_fires_on_drain (mock 5 [])
                (after [Call_set_send_callback true; Call_send_packet packet8 stale_item]
                   (pstream_new blank_stream))) as [_ N].
    apply N. intros i pb (_ & _ & S & _).
    vm_compute in S. inversion S; subst. vm_compute. reflexivity.
Defined.

(** ** What a function may call *)

Section Emits.
Variable P : event -> Prop.

Lemma emits_ret : emits P ret.
Proof. intro p. constructor. Qed.

Lemma emits_emit : forall ev, P ev -> emits P (emit ev).
Proof. intros ev H p. simpl. constructor; [exact H | constructor]. Qed.

Lemma emits_assert : forall b, emits P (assert b).
Proof. intros b p. unfold assert. destruct b; constructor. Qed.

Lemma emits_modify : forall g, emits P (modify g).
Proof. intros g p. constructor. Qed.

Lemma emits_bind : forall m k, emits P m -> emits P k -> emits P (m ;; k).
Proof.
  intros m k Hm Hk p. unfold bind. specialize (Hm p).
  destruct (m p) as [p1 t1 | t1]; simpl in Hm; [| exact Hm].
  rewrite trace_of_prepend. apply Forall_app. split; [exact Hm | apply Hk].
Qed.

Lemma emits_get : forall k, (forall q, emits P (k q)) -> emits P (get k).
Proof. intros k Hk p. exact (Hk p p). Qed.
End Emits.

Ltac emits_step :=
  match goal with
  | |- emits _ (_ ;; _) => apply emits_bind
  | |- emits _ (get _) => apply emits_get; intro
  | |- emits _ ret => apply emits_ret
  | |- emits _ (emit _) => apply emits_emit
  | |- emits _ (assert _) => apply emits_assert
  | |- emits _ (modify _) => apply emits_modify
  | |- emits _ (modify_write _) => apply emits_modify
  | |- emits _ (modify_read _) => apply emits_modify
  | |- emits _ (mainloop_source_enable _) => apply emits_modify
  | |- emits _ (queue_push _) => apply emits_modify
  | |- emits _ (if ?c then _ else _) => destruct c
  | |- emits _ (let (_, _) := ?x in _) => destruct x
  | |- emits _ (match ?x with _ => _ end) => destruct x
  end.

Ltac emits_tac := repeat emits_step.

Lemma count_zero : forall f tr,
  Forall (fun ev => f ev = false) tr -> count f tr = 0%nat.
Proof.
  intros f tr H. unfold count. induction H as [| ev tr Hev _ IH]; simpl.
  - reflexivity.
  - rewrite Hev. exact IH.
Qed.

Lemma count_app : forall f t1 t2, count f (t1 ++ t2) = (count f t1 + count f t2)%nat.
Proof. intros f t1 t2. unfold count. rewrite filter_app, length_app. reflexivity. Qed.

Lemma frame_progress_no_io : forall e r,
  emits (fun ev => is_io ev = false) (frame_progress e r).
Proof.
  intros e r.
  unfold frame_progress, descriptor_complete, pass_memblock_data, frame_complete.
  emits_tac; reflexivity.
Qed.

(** ** One invocation of the read engine *)

Lemma do_read_blocked : forall e p,
  iochannel_is_readable e = false ->
  do_read e p = Returned (set_mainloop_source false p) [].
Proof.
  intros e p W. unfold do_read, mainloop_source_enable.
  rewrite bind_modify. unfold get. rewrite W, orb_true_r. reflexivity.
Qed.

Lemma do_read_live : forall e p,
  dead p = false -> iochannel_is_readable e = true ->
  do_read e p =
  if negb (read_index (read p) <? PSTREAM_DESCRIPTOR_SIZE)
     && data_is_null (read_data (read p))
  then Aborted [] else read_result e p.
Proof.
  intros e p D W. unfold do_read, mainloop_source_enable.
  rewrite bind_modify. unfold get at 1. cbn [dead set_mainloop_source].
  rewrite D, W. cbn [negb orb]. cbn [read set_mainloop_source].
  assert (K : forall k : M,
    (k (set_mainloop_source false p) = read_result e p) ->
    ((if read_index (read p) <? PSTREAM_DESCRIPTOR_SIZE then ret
      else assert (negb (data_is_null (read_data (read p))))) ;; k)
      (set_mainloop_source false p)
    = if negb (read_index (read p) <? PSTREAM_DESCRIPTOR_SIZE)
         && data_is_null (read_data (read p))
      then Aborted [] else read_result e p).
  { intros k Hk. destruct (read_index (read p) <? PSTREAM_DESCRIPTOR_SIZE); cbn [negb andb].
    - rewrite bind_ret. exact Hk.
    - destruct (data_is_null (read_data (read p))); cbn [negb].
      + apply bind_assert_false.
      + rewrite bind_assert_true. exact Hk. }
  apply K. unfold read_result.
  change (read_span (set_mainloop_source false p)) with (read_span p).
  destruct (read_span p) as [d l]. cbn [fst snd].
  rewrite bind_emit. f_equal.
  destruct (iochannel_read e l <=? 0); [reflexivity |].
  unfold deposited, advanced, deposit, modify_read.
  destruct d; rewrite ?bind_ret, !bind_modify; reflexivity.
Qed.

Lemma descriptor_complete_eq : forall e p,
  descriptor_complete e p =
  if read_length p >? FRAME_SIZE_MAX then Returned (set_dead true p) [] else
  if negb (packet_is_null (read_packet (read p)) && is_null (read_memblock (read p)))
  then Aborted [] else
  if read_channel p =? 0 then
    if is_null (packet_new e)
    then Aborted [Ev_packet_new (read_length p) (packet_new e)]
    else Returned (with_packet (packet_new e) p)
           [Ev_packet_new (read_length p) (packet_new e)]
  else
    if is_null (memblock_new e)
    then Aborted [Ev_memblock_new (read_length p) (memblock_new e)]
    else Returned (with_memblock (memblock_new e) p)
           [Ev_memblock_new (read_length p) (memblock_new e)].
Proof.
  intros e p. unfold descriptor_complete, get. fold (read_length p). fold (read_channel p).
  destruct (read_length p >? FRAME_SIZE_MAX); [reflexivity |].
  destruct (packet_is_null (read_packet (read p)) && is_null (read_memblock (read p)));
    cbn [negb]; [rewrite bind_assert_true | apply bind_assert_false].
  destruct (read_channel p =? 0).
  - rewrite bind_emit. unfold modify_read. rewrite bind_modify.
    unfold packet_is_null at 1. cbn [pk_addr].
    destruct (is_null (packet_new e)); cbn [negb].
    + rewrite bind_assert_false. reflexivity.
    + rewrite bind_assert_true. reflexivity.
  - rewrite bind_emit. unfold modify_read. rewrite bind_modify.
    destruct (is_null (memblock_new e)); cbn [negb].
    + rewrite bind_assert_false. reflexivity.
    + rewrite bind_assert_true. reflexivity.
Qed.

Lemma pass_memblock_data_eq : forall r p,
  pass_memblock_data r p = Returned p (passed r p).
Proof.
  intros r p. unfold pass_memblock_data, passed, get.
  fold (read_channel p). fold (read_delta p).
  destruct (negb (is_null (read_memblock (read p))) && recieve_memblock_callback p);
    [| reflexivity].
  cbv zeta. destruct (delivery_span (read_index (read p)) r >? 0); reflexivity.
Qed.

Lemma frame_complete_eq : forall p,
  frame_complete p =
  if read_index (read p) >=? size_t (read_length p + PSTREAM_DESCRIPTOR_SIZE) then
    if negb (is_null (read_memblock (read p))) then
      if packet_is_null (read_packet (read p))
      then Returned (frame_reset p) [Ev_memblock_unref (read_memblock (read p))]
      else Aborted []
    else
      if packet_is_null (read_packet (read p)) then Aborted []
      else Returned (frame_reset p)
             ((if recieve_packet_callback p
               then [Ev_recieve_packet_callback (read_packet (read p))] else [])
              ++ [Ev_packet_unref (pk_addr (read_packet (read p)))])
  else Returned p [].
Proof.
  intros p. unfold frame_complete, frame_reset, get. fold (read_length p).
  destruct (_ >=? _); [| reflexivity].
  destruct (negb (is_null (read_memblock (read p)))).
  - rewrite bind_assoc.
    destruct (packet_is_null (read_packet (read p))).
    + unfold modify_read.
      repeat (rewrite ?bind_assoc, ?bind_assert_true, ?bind_emit, ?bind_modify).
      reflexivity.
    + apply bind_assert_false.
  - rewrite bind_assoc.
    destruct (packet_is_null (read_packet (read p))); cbn [negb].
    + apply bind_assert_false.
    + rewrite bind_assert_true. unfold modify_read.
      destruct (recieve_packet_callback p).
      * repeat (rewrite ?bind_assoc, ?bind_emit, ?bind_modify). reflexivity.
      * repeat (rewrite ?bind_assoc, ?bind_ret, ?bind_emit, ?bind_modify). reflexivity.
Qed.

Lemma frame_progress_eq : forall e r p,
  frame_progress e r p =
  if read_index (read p) =? PSTREAM_DESCRIPTOR_SIZE then descriptor_complete e p
  else if read_index (read p) >? PSTREAM_DESCRIPTOR_SIZE
       then prepend (passed r p) (frame_complete p)
       else Returned p [].
Proof.
  intros e r p. unfold frame_progress, get.
  destruct (_ =? _); [reflexivity |].
  destruct (_ >? _); [| reflexivity].
  unfold bind. rewrite pass_memblock_data_eq. reflexivity.
Qed.

(** ** How the result of a transfer is classified *)

(** What follows the write in the trace of [write_result]. *)
Lemma write_result_shape : forall e i p,
  let r := iochannel_write e (snd (write_span p)) in
  exists rest,
    trace_of (write_result e i p)
    = Ev_iochannel_write (fst (write_span p)) (snd (write_span p)) r :: rest /\
    Forall (fun ev => is_io ev = false) rest /\
    (r < 0 ->
     write_result e i p
     = Returned (set_dead true (set_mainloop_source false p))
         [Ev_iochannel_write (fst (write_span p)) (snd (write_span p)) r]) /\
    (0 <= r -> forall p' tr, write_result e i p = Returned p' tr ->
       dead p' = dead p /\
       write_index (write p') = size_t (write_index (write p) + r)).
Proof.
  intros e i p r. unfold write_result. fold r.
  destruct (Z.ltb_spec r 0) as [N | N].
  - eexists. split; [reflexivity |]. split; [constructor |].
    split; [reflexivity | lia].
  - cbv zeta. destruct (_ >=? _).
    + destruct (item_free_cases i
        (set_write (set_write_index (size_t (write_index (write p) + r)) (write p))
           (set_mainloop_source false p))) as [A | [[a F] | [a F]]];
        rewrite ?A, ?F; (eexists; split; [reflexivity |]; split; [| split; [lia |]]).
      * constructor.
      * intros _ p' tr H. discriminate.
      * destruct (send_callback p && queue_is_empty (send_queue p));
          repeat constructor.
      * intros _ p' tr H. cbn in H. inversion H. split; reflexivity.
      * destruct (send_callback p && queue_is_empty (send_queue p));
          repeat constructor.
      * intros _ p' tr H. cbn in H. inversion H. split; reflexivity.
    + eexists. split; [reflexivity |]. split; [constructor |]. split; [lia |].
      intros _ p' tr H. cbn in H. inversion H. split; reflexivity.
Qed.

Lemma in_no_io : forall ev tr,
  Forall (fun ev => is_io ev = false) tr -> In ev tr -> is_io ev = false.
Proof. intros ev tr H I. rewrite Forall_forall in H. apply H. exact I. Qed.

Lemma write_start_offset : forall p i pb,
  write_start p = Some (i, pb) ->
  write_offset p = write_index (write pb) /\ dead pb = dead p.
Proof.
  intros p i pb S. unfold write_offset. rewrite S. split; [reflexivity |].
  unfold write_start in S. destruct (write_current (write p)).
  - inversion S. reflexivity.
  - destruct (send_queue p); [discriminate |]. inversion S. reflexivity.
Qed.

Lemma do_write_classified : forall e p d l r,
  In (Ev_iochannel_write d l r) (trace_of (do_write e p)) ->
  count is_io (trace_of (do_write e p)) = 1%nat /\
  (r < 0 ->
   exists p', do_write e p = Returned p' [Ev_iochannel_write d l r] /\
              dead p' = true /\ write_index (write p') = write_offset p) /\
  (0 <= r -> forall p' tr, do_write e p = Returned p' tr ->
     dead p' = false /\ write_index (write p') = size_t (write_offset p + r)).
Proof.
  intros e p d l r I.
  destruct (do_write_cases e p) as [A | [[Q _] | (i & pb & S & D & W & R)]].
  - rewrite A in I. contradiction.
  - rewrite Q in I. contradiction.
  - destruct (write_start_offset p i pb S) as [O Db].
    rewrite R in *. rewrite O.
    destruct (write_result_shape e i pb) as (rest & T & NI & Neg & Pos).
    rewrite T in I |- *.
    assert (E : Ev_iochannel_write d l r
                = Ev_iochannel_write (fst (write_span pb)) (snd (write_span pb))
                    (iochannel_write e (snd (write_span pb)))).
    { destruct I as [I | I]; [symmetry; exact I |].
      apply (in_no_io _ _ NI) in I. discriminate. }
    inversion E; subst d l r. clear E I.
    split; [| split].
    + unfold count. cbn [filter is_io length]. fold (count is_io rest).
      rewrite (count_zero _ _ NI). reflexivity.
    + intro N. eexists. split; [apply Neg; exact N |]. split; reflexivity.
    + intros N p' tr H. destruct (Pos N p' tr H) as [Dp Ip]. split; [congruence | exact Ip].
Qed.

Lemma frame_progress_returned : forall e r p p' tr,
  frame_progress e r p = Returned p' tr ->
  (read_index (read p') = read_index (read p) \/ read_index (read p') = 0) /\
  (dead p' = dead p \/ (dead p' = true /\ FRAME_SIZE_MAX < read_length p')).
Proof.
  intros e r p p' tr H. rewrite frame_progress_eq in H.
  destruct (_ =? _).
  - rewrite descriptor_complete_eq in H.
    destruct (Z.gtb_spec (read_length p) FRAME_SIZE_MAX) as [O | O].
    + inversion H; subst. split; [left; reflexivity | right; split; [reflexivity | exact O]].
    + destruct (negb _); [discriminate |].
      destruct (_ =? 0).
      * destruct (is_null _); [discriminate |]. inversion H; subst. auto.
      * destruct (is_null _); [discriminate |]. inversion H; subst. auto.
  - destruct (_ >? _).
    + rewrite frame_complete_eq in H. unfold frame_reset in H.
      destruct (_ >=? _).
      * destruct (negb _).
        -- destruct (packet_is_null _); [| discriminate].
           simpl in H. inversion H; subst. auto.
        -- destruct (packet_is_null _); [discriminate |].
           simpl in H. inversion H; subst. auto.
      * simpl in H. inversion H; subst. auto.
    + inversion H; subst. auto.
Qed.

(** What a returning [frame_progress] leaves: the descriptor as it was,
    the offset reset exactly when the frame is complete, and the stream
    dead exactly when the descriptor that was just completed is too long. *)
Lemma frame_progress_exact : forall e r p p' tr,
  frame_progress e r p = Returned p' tr ->
  read_length p' = read_length p /\
  read_index (read p') =
  (if (read_index (read p) >? PSTREAM_DESCRIPTOR_SIZE)
      && (read_index (read p) >=? size_t (read_length p + PSTREAM_DESCRIPTOR_SIZE))
   then 0 else read_index (read p)) /\
  (dead p' = true <->
   dead p = true \/
   (read_index (read p) = PSTREAM_DESCRIPTOR_SIZE /\ FRAME_SIZE_MAX < read_length p)).
Proof.
  intros e r p p' tr H. rewrite frame_progress_eq in H.
  destruct (Z.eqb_spec (read_index (read p)) PSTREAM_DESCRIPTOR_SIZE) as [E | E].
  - assert (G : (read_index (read p) >? PSTREAM_DESCRIPTOR_SIZE) = false).
    { rewrite E. unfold Z.gtb. rewrite Z.compare_refl. reflexivity. }
    rewrite G. cbn [andb].
    rewrite descriptor_complete_eq in H.
    destruct (Z.gtb_spec (read_length p) FRAME_SIZE_MAX) as [O | O].
    + inversion H; subst. cbn. split; [reflexivity |]. split; [reflexivity |].
      split; [intros _; right; split; [exact E | exact O] | reflexivity].
    + assert (X : forall q, read_length q = read_length p ->
                    read_index (read q) = read_index (read p) -> dead q = dead p ->
                    read_length q = read_length p /\
                    read_index (read q) = read_index (read p) /\
                    (dead q = true <->
                     dead p = true \/
                     (read_index (read p) = PSTREAM_DESCRIPTOR_SIZE /\
                      FRAME_SIZE_MAX < read_length p))).
      { intros q L I D. split; [exact L |]. split; [exact I |]. rewrite D.
        split; [auto | intros [K | [_ K]]; [exact K | lia]]. }
      destruct (negb _); [discriminate |].
      destruct (_ =? 0).
      * destruct (is_null _); [discriminate |]. inversion H; subst.
        apply X; reflexivity.
      * destruct (is_null _); [discriminate |]. inversion H; subst.
        apply X; reflexivity.
  - assert (X : forall q, read_length q = read_length p -> dead q = dead p ->
                  (dead q = true <->
                   dead p = true \/
                   (read_index (read p) = PSTREAM_DESCRIPTOR_SIZE /\
                    FRAME_SIZE_MAX < read_length p))).
    { intros q _ D. rewrite D. split; [auto | intros [K | [K _]]; [exact K | contradiction]]. }
    destruct (read_index (read p) >? PSTREAM_DESCRIPTOR_SIZE); cbn [andb].
    + rewrite frame_complete_eq in H. unfold frame_reset in H.
      destruct (_ >=? _).
      * destruct (negb _).
        -- destruct (packet_is_null _); [| discriminate].
           simpl in H. inversion H; subst.
           split; [reflexivity |]. split; [reflexivity | apply X; reflexivity].
        -- destruct (packet_is_null _); [discriminate |].
           simpl in H. inversion H; subst.
           split; [reflexivity |]. split; [reflexivity | apply X; reflexivity].
      * simpl in H. inversion H; subst.
        split; [reflexivity |]. split; [reflexivity | apply X; reflexivity].
    + inversion H; subst.
      split; [reflexivity |]. split; [reflexivity | apply X; reflexivity].
Qed.

Lemma do_read_cases : forall e p,
  do_read e p = Aborted [] \/
  (do_read e p = Returned (set_mainloop_source false p) [] /\
   (dead p = true \/ iochannel_is_readable e = false)) \/
  (dead p = false /\ iochannel_is_readable e = true /\
   do_read e p = read_result e p).
Proof.
  intros e p.
  destruct (dead p) eqn:D.
  { right; left. split; [apply do_read_dead; exact D | auto]. }
  destruct (iochannel_is_readable e) eqn:W.
  2:{ right; left. split; [apply do_read_blocked; exact W | auto]. }
  rewrite (do_read_live e p D W).
  destruct (_ && _); [left; reflexivity | right; right; auto].
Qed.

Lemma do_read_classified : forall e p d l r,
  In (Ev_iochannel_read d l r) (trace_of (do_read e p)) ->
  count is_io (trace_of (do_read e p)) = 1%nat /\
  (r <= 0 ->
   do_read e p = Returned (set_dead true (set_mainloop_source false p))
                   [Ev_iochannel_read d l r]) /\
  (0 < r -> forall p' tr, do_read e p = Returned p' tr ->
     let idx := size_t (read_index (read p) + r) in
     read_index (read p') =
     (if (idx >? PSTREAM_DESCRIPTOR_SIZE)
         && (idx >=? size_t (read_length p' + PSTREAM_DESCRIPTOR_SIZE))
      then 0 else idx) /\
     (dead p' = true <->
      idx = PSTREAM_DESCRIPTOR_SIZE /\ FRAME_SIZE_MAX < read_length p')).
Proof.
  intros e p d l r I.
  destruct (do_read_cases e p) as [A | [[Q _] | (D & W & R)]].
  - rewrite A in I. contradiction.
  - rewrite Q in I. contradiction.
  - rewrite R in *. unfold read_result in *.
    set (d0 := fst (read_span p)) in *. set (l0 := snd (read_span p)) in *.
    set (r0 := iochannel_read e l0) in *.
    set (p1 := advanced r0 (deposited e d0 r0 (set_mainloop_source false p))) in *.
    assert (NI : Forall (fun ev => is_io ev = false)
                   (trace_of (if r0 <=? 0
                              then Returned (set_dead true (set_mainloop_source false p)) []
                              else frame_progress e r0 p1))).
    { destruct (r0 <=? 0); [constructor | apply frame_progress_no_io]. }
    rewrite trace_of_prepend in I |- *.
    assert (E : Ev_iochannel_read d l r = Ev_iochannel_read d0 l0 r0).
    { destruct I as [I | I]; [symmetry; exact I |].
      apply (in_no_io _ _ NI) in I. discriminate. }
    inversion E; subst d l r. clear E I.
    split; [| split].
    + unfold count. cbn [app filter is_io length].
      match goal with |- S (length (filter is_io ?t)) = _ => fold (count is_io t) end.
      rewrite (count_zero _ _ NI). reflexivity.
    + intro N. destruct (Z.leb_spec r0 0); [reflexivity | lia].
    + intros N p' tr H. destruct (Z.leb_spec r0 0); [lia |].
      destruct (frame_progress e r0 p1) as [p2 t2 | t2] eqn:F; [| discriminate].
      simpl in H. inversion H; subst p2 tr. clear H.
      destruct (frame_progress_exact _ _ _ _ _ F) as (Lx & Ix & Dx).
      assert (I1 : read_index (read p1) = size_t (read_index (read p) + r0)).
      { unfold p1, advanced, deposited. destruct d0; reflexivity. }
      assert (D1 : dead p1 = false).
      { unfold p1, advanced, deposited. destruct d0; exact D. }
      cbv zeta. rewrite <- I1, Lx. split; [exact Ix |].
      rewrite Dx, D1. split; [intros [K | K]; [discriminate | exact K] | auto].
Qed.



Ltac zconst :=
  unfold SSIZE_MAX, SIZE_MAX, FRAME_SIZE_MAX, PSTREAM_DESCRIPTOR_SIZE,
    PSTREAM_DESCRIPTOR_MAX in *;
  change (3 * 4) with 12 in *;
  change (1024 * 64) with 65536 in *;
  change (2 ^ 64) with 18446744073709551616 in *;
  change (2 ^ 63) with 9223372036854775808 in *;
  change (2 ^ 32) with 4294967296 in *.

(** ** The invariant of the read cursor *)

Lemma read_length_range : forall p, 0 <= read_length p < 2 ^ 32.
Proof. intro p. apply descriptor_get_range. Qed.

Lemma frame_progress_inv : forall e r p p' tr,
  0 <= read_index (read p) ->
  (read_index (read p) < PSTREAM_DESCRIPTOR_SIZE ->
   packet_is_null (read_packet (read p)) = true /\
   is_null (read_memblock (read p)) = true) ->
  frame_progress e r p = Returned p' tr ->
  read_inv p'.
Proof.
  intros e r p p' tr I0 N H. rewrite frame_progress_eq in H.
  unfold read_inv, PSTREAM_DESCRIPTOR_SIZE, PSTREAM_DESCRIPTOR_MAX in *.
  change (3 * 4) with 12 in *.
  destruct (Z.eqb_spec (read_index (read p)) 12) as [E | E].
  - rewrite descriptor_complete_eq in H.
    destruct (_ >? _).
    + inversion H; subst. cbn [read set_dead]. rewrite E. split; lia.
    + destruct (negb (packet_is_null (read_packet (read p))
                      && is_null (read_memblock (read p)))); [discriminate |].
      destruct (read_channel p =? 0);
        [destruct (is_null (packet_new e)) | destruct (is_null (memblock_new e))];
        try discriminate;
        inversion H; subst; cbn; rewrite E; split; lia.
  - destruct (Z.gtb_spec (read_index (read p)) 12) as [G | G].
    + rewrite frame_complete_eq in H. unfold frame_reset in H.
      unfold PSTREAM_DESCRIPTOR_SIZE, PSTREAM_DESCRIPTOR_MAX in H.
      change (3 * 4) with 12 in H.
      pose proof (read_length_range p) as LR.
      rewrite (size_t_small (read_length p + 12)) in H by lia.
      destruct (Z.geb_spec (read_index (read p)) (read_length p + 12)) as [C | C].
      * destruct (negb (is_null (read_memblock (read p)))) eqn:M.
        -- destruct (packet_is_null (read_packet (read p))) eqn:K; [| discriminate].
           simpl in H. inversion H; subst. cbn. split; [lia |]. intros _. auto.
        -- destruct (packet_is_null (read_packet (read p))) eqn:K; [discriminate |].
           simpl in H. inversion H; subst. cbn. split; [lia |]. intros _.
           split; [reflexivity |]. apply negb_false_iff. exact M.
      * simpl in H. inversion H; subst. split; lia.
    + inversion H; subst. split; [lia |]. intros _. apply N. lia.
Qed.

Lemma do_read_inv : forall e p p' tr,
  env_ok e -> read_inv p -> do_read e p = Returned p' tr -> read_inv p'.
Proof.
  intros e p p' tr [_ OK] I H.
  destruct (do_read_cases e p) as [A | [[Q _] | (D & W & R)]].
  - congruence.
  - rewrite Q in H. inversion H; subst. exact I.
  - rewrite R in H. unfold read_result in H.
    set (d0 := fst (read_span p)) in *. set (l0 := snd (read_span p)) in *.
    set (r0 := iochannel_read e l0) in *.
    destruct (Z.leb_spec r0 0) as [N | N].
    + simpl in H. inversion H; subst. exact I.
    + destruct (frame_progress e r0 _) as [p2 t2 | t2] eqn:F; [| discriminate].
      simpl in H. inversion H; subst p2 tr. clear H.
      destruct I as [[I0 I1] I2].
      assert (R0 : r0 <= SSIZE_MAX).
      { unfold r0. apply OK. unfold l0, read_span.
        destruct (_ <? _); cbn [snd]; apply size_t_range. }
      apply (frame_progress_inv _ _ _ _ _) with (3 := F).
      * unfold advanced, deposited. destruct d0; cbn; apply size_t_range.
      * assert (X : read_index (read (advanced r0 (deposited e d0 r0
                      (set_mainloop_source false p)))) = read_index (read p) + r0).
        { unfold advanced, deposited.
          destruct d0; cbn; apply size_t_small; zconst; lia. }
        rewrite X. intro S.
        unfold advanced, deposited. destruct d0; cbn; apply I2; lia.
Qed.

Lemma do_write_keeps_read : forall e, keeps read (do_write e).
Proof.
  intro e. unfold do_write.
  keeps_tac; try apply item_free_keeps; apply prepare_next_write_item_keeps_read.
Qed.

Lemma exec_inv : forall c p p' tr,
  call_ok c -> read_inv p -> exec c p = Returned p' tr -> read_inv p'.
Proof.
  intros c p p' tr OK I H.
  assert (K : forall m, keeps read m -> m p = Returned p' tr -> read_inv p').
  { intros m Km Hm. unfold read_inv. rewrite (Km _ _ _ Hm). exact I. }
  assert (B : forall e, env_ok e ->
                (do_write e ;; do_read e) p = Returned p' tr -> read_inv p').
  { intros e Oe Hb. apply bind_returned in Hb.
    destruct Hb as (p1 & t1 & t2 & Hw & Hr & _).
    apply (do_read_inv e p1 p' t2 Oe); [| exact Hr].
    unfold read_inv. rewrite (do_write_keeps_read e _ _ _ Hw). exact I. }
  destruct c; simpl in H, OK.
  - apply (K (pstream_send_packet pk fresh)); [| exact H].
    unfold pstream_send_packet. keeps_tac.
  - apply (K (pstream_send_memblock ch dl ck fresh)); [| exact H].
    unfold pstream_send_memblock. keeps_tac.
  - apply (K (pstream_set_send_callback callback)); [| exact H].
    unfold pstream_set_send_callback. keeps_tac.
  - apply (K (pstream_set_recieve_packet_callback callback)); [| exact H].
    unfold pstream_set_recieve_packet_callback. keeps_tac.
  - apply (K (pstream_set_recieve_memblock_callback callback)); [| exact H].
    unfold pstream_set_recieve_memblock_callback. keeps_tac.
  - apply (K (do_write e)); [apply do_write_keeps_read | exact H].
  - apply (do_read_inv e p p' tr OK I H).
  - apply (B e OK H).
  - apply (B e OK H).
Qed.

Lemma reachable_read_inv : forall p, reachable p -> read_inv p.
Proof.
  intros p R. induction R as [fresh | p c p' tr R IH OK H].
  - unfold read_inv. cbn. zconst. split; [lia |]. intros _. split; reflexivity.
  - exact (exec_inv c p p' tr OK IH H).
Qed.

(** ** Completion of the frame descriptor *)

Lemma read_span_header : forall p,
  0 <= read_index (read p) < PSTREAM_DESCRIPTOR_SIZE ->
  read_span p = (InReadDescriptor (read_index (read p)),
                 PSTREAM_DESCRIPTOR_SIZE - read_index (read p)).
Proof.
  intros p H. unfold read_span.
  destruct (Z.ltb_spec (read_index (read p)) PSTREAM_DESCRIPTOR_SIZE); [| lia].
  rewrite size_t_small; [reflexivity |]. zconst. lia.
Qed.

(** C4.  A read completes the descriptor of a frame on a live stream.  If
    the decoded length exceeds 65536, the engine returns with the stream
    dead, and the read is the only call it made: nothing was allocated, no
    callback was invoked, no buffer is held.  Otherwise the engine makes
    exactly one more call, the allocation of a buffer of that length: of a
    packet if the channel is 0, of a memblock if it is not, and the stream
    holds that buffer and no other when the engine returns. *)
Theorem descriptor_completion :
  forall (e : env) (p : pstream),
    reachable p -> dead p = false -> iochannel_is_readable e = true ->
    let r := iochannel_read e (snd (read_span p)) in
    let length := descriptor_get (decoded e p) PSTREAM_DESCRIPTOR_LENGTH in
    let channel := descriptor_get (decoded e p) PSTREAM_DESCRIPTOR_CHANNEL in
    let io := Ev_iochannel_read (InReadDescriptor (read_index (read p)))
                (PSTREAM_DESCRIPTOR_SIZE - read_index (read p)) r in
    read_index (read p) < PSTREAM_DESCRIPTOR_SIZE ->
    read_index (read p) + r = PSTREAM_DESCRIPTOR_SIZE ->
    (FRAME_SIZE_MAX < length ->
     exists p', do_read e p = Returned p' [io] /\ dead p' = true /\
                packet_is_null (read_packet (read p')) = true /\
                is_null (read_memblock (read p')) = true) /\
    (length <= FRAME_SIZE_MAX ->
     (channel = 0 ->
      trace_of (do_read e p) = [io; Ev_packet_new length (packet_new e)] /\
      (is_null (packet_new e) = false ->
       exists p', do_read e p = Returned p' [io; Ev_packet_new length (packet_new e)] /\
                  dead p' = false /\
                  read_packet (read p')
                  = {| pk_addr := packet_new e; pk_length := length |} /\
                  is_null (read_memblock (read p')) = true)) /\
     (channel <> 0 ->
      trace_of (do_read e p) = [io; Ev_memblock_new length (memblock_new e)] /\
      (is_null (memblock_new e) = false ->
       exists p', do_read e p = Returned p' [io; Ev_memblock_new length (memblock_new e)] /\
                  dead p' = false /\
                  read_memblock (read p') = memblock_new e /\
                  packet_is_null (read_packet (read p')) = true))).
Proof.
  intros e p R D W r length channel io H C.
  destruct (reachable_read_inv p R) as [[I0 _] N].
  specialize (N H). destruct N as [NP NM].
  assert (SP : read_span p = (InReadDescriptor (read_index (read p)),
                              PSTREAM_DESCRIPTOR_SIZE - read_index (read p))).
  { apply read_span_header. lia. }
  assert (Rpos : (r <=? 0) = false).
  { apply Z.leb_gt. lia. }
  rewrite (do_read_live e p D W).
  replace (read_index (read p) <? PSTREAM_DESCRIPTOR_SIZE) with true
    by (symmetry; apply Z.ltb_lt; exact H).
  cbn [negb andb]. unfold read_result.
  unfold decoded in length, channel. subst r length channel io.
  rewrite SP in *. cbn [fst snd] in *.
  set (r := iochannel_read e (PSTREAM_DESCRIPTOR_SIZE - read_index (read p))) in *.
  set (length := descriptor_get
         (descriptor_store (read_descriptor (read p)) (read_index (read p))
            (firstn (Z.to_nat r) (incoming e))) PSTREAM_DESCRIPTOR_LENGTH).
  set (channel := descriptor_get
         (descriptor_store (read_descriptor (read p)) (read_index (read p))
            (firstn (Z.to_nat r) (incoming e))) PSTREAM_DESCRIPTOR_CHANNEL).
  rewrite Rpos. unfold deposited.
  set (p1 := advanced r _).
  assert (I1 : read_index (read p1) = PSTREAM_DESCRIPTOR_SIZE).
  { unfold p1, advanced. cbn. rewrite C. apply size_t_small. zconst. lia. }
  assert (L1 : read_length p1 = length) by reflexivity.
  assert (C1 : read_channel p1 = channel) by reflexivity.
  rewrite frame_progress_eq, I1, Z.eqb_refl, descriptor_complete_eq, L1, C1.
  change (read_packet (read p1)) with (read_packet (read p)).
  change (read_memblock (read p1)) with (read_memblock (read p)).
  rewrite NP, NM. cbn [negb andb].
  split.
  - intro O. destruct (Z.gtb_spec length FRAME_SIZE_MAX) as [G | G]; [| lia].
    eexists. split; [reflexivity |]. cbn. auto.
  - intro O. destruct (Z.gtb_spec length FRAME_SIZE_MAX) as [G | G]; [lia |].
    split; intro Ch.
    + rewrite Ch. cbn [Z.eqb]. split.
      * destruct (is_null (packet_new e)); reflexivity.
      * intro NN. rewrite NN. eexists. split; [reflexivity |]. cbn.
        rewrite NM. repeat split. exact D.
    + replace (channel =? 0) with false by (symmetry; apply Z.eqb_neq; exact Ch).
      split.
      * destruct (is_null (memblock_new e)); reflexivity.
      * intro NN. rewrite NN. eexists. split; [reflexivity |]. cbn.
        rewrite NP. repeat split. exact D.
Qed.

Lemma descriptor_completion_witness :
  (exists p',
      do_read (mock 12 header_oversized) (pstream_new blank_stream)
      = Returned p' [Ev_iochannel_read (InReadDescriptor 0) 12 12] /\
      dead p' = true /\
      packet_is_null (read_packet (read p')) = true /\
      is_null (read_memblock (read p')) = true) /\
  trace_of (do_read (mock 12 header8) (pstream_new blank_stream))
  = [Ev_iochannel_read (InReadDescriptor 0) 12 12; Ev_packet_new 8 1000] /\
  trace_of (do_read (mock 12 header30) (pstream_new blank_stream))
  = [Ev_iochannel_read (InReadDescriptor 0) 12 12; Ev_memblock_new 30 2000].
Proof.
  split; [| split].
  - destruct (descriptor_completion (mock 12 header_oversized) (pstream_new blank_stream)
                (reachable_new blank_stream) eq_refl eq_refl eq_refl eq_refl) as [O _].
    apply O. reflexivity.
  - destruct (descriptor_completion (mock 12 header8) (pstream_new blank_stream)
                (reachable_new blank_stream) eq_refl eq_refl eq_refl eq_refl) as [_ A].
    destruct A as [[T _] _]; [vm_compute; discriminate | reflexivity |].
    exact T.
  - destruct (descriptor_completion (mock 12 header30) (pstream_new blank_stream)
                (reachable_new blank_stream) eq_refl eq_refl eq_refl eq_refl) as [_ A].
    destruct A as [_ [T _]]; [vm_compute; discriminate | vm_compute; discriminate |].
    exact T.
Defined.

(** ** Incremental delivery *)

Lemma size_t_sub_idemp : forall a b, size_t (size_t a - b) = size_t (a - b).
Proof. intros a b. unfold size_t. apply Zminus_mod_idemp_l. Qed.

Lemma delivered_app : forall t1 t2, delivered (t1 ++ t2) = delivered t1 ++ delivered t2.
Proof.
  induction t1 as [| ev t1 IH]; intro t2; [reflexivity |].
  destruct ev; simpl; rewrite IH; reflexivity.
Qed.

Lemma frame_complete_delivers_nothing : forall p,
  delivered (trace_of (frame_complete p)) = [].
Proof.
  intro p. rewrite frame_complete_eq.
  destruct (_ >=? _); [| reflexivity].
  destruct (negb _); destruct (packet_is_null _); try reflexivity.
  destruct (recieve_packet_callback p); reflexivity.
Qed.

Lemma descriptor_complete_delivers_nothing : forall e p,
  delivered (trace_of (descriptor_complete e p)) = [].
Proof.
  intros e p. rewrite descriptor_complete_eq.
  destruct (_ >? _); [reflexivity |].
  destruct (negb _); [reflexivity |].
  destruct (_ =? 0); destruct (is_null _); reflexivity.
Qed.

Lemma in_delivered : forall ch dl c tr,
  In (Ev_recieve_memblock_callback ch dl c) tr -> In c (delivered tr).
Proof.
  intros ch dl c tr. induction tr as [| ev tr IH]; intro H; [contradiction |].
  destruct H as [H | H].
  - subst ev. left. reflexivity.
  - destruct ev; simpl; auto.
Qed.

(** C10.  The channel never returns more than it was asked for.  Then a
    read that leads to an incremental delivery started at or past the end
    of the header: the condition of the boundary-splitting arm of line 326
    is false, the chunk is as long as the result of the read, it starts
    where the payload read so far ended, and it is the only chunk that
    invocation delivers. *)
Theorem memblock_delivery_is_one_read :
  forall (e : env) (p : pstream) (ch dl : Z) (c : memchunk),
    reachable p -> channel_bounded e ->
    In (Ev_recieve_memblock_callback ch dl c) (trace_of (do_read e p)) ->
    let r := iochannel_read e (snd (read_span p)) in
    PSTREAM_DESCRIPTOR_SIZE <= read_index (read p) /\
    (size_t (size_t (read_index (read p) + r) - r) <? PSTREAM_DESCRIPTOR_SIZE) = false /\
    mc_length c = r /\
    mc_index c = read_index (read p) - PSTREAM_DESCRIPTOR_SIZE /\
    mc_memblock c = read_memblock (read p) /\
    delivered (trace_of (do_read e p)) = [c].
Proof.
  intros e p ch dl c R [_ B] I r.
  destruct (reachable_read_inv p R) as [[I0 I1] _].
  apply in_delivered in I.
  destruct (do_read_cases e p) as [A | [[Q _] | (D & W & E)]].
  - rewrite A in I. contradiction.
  - rewrite Q in I. contradiction.
  - rewrite E in *. unfold read_result in *. fold r in I |- *.
    specialize (B (snd (read_span p))). fold r in B.
    pose proof (size_t_range (read_index (read p) + r)) as R1.
    set (p1 := advanced r (deposited e (fst (read_span p)) r
                             (set_mainloop_source false p))) in *.
    assert (X1 : read_index (read p1) = size_t (read_index (read p) + r)).
    { unfold p1, advanced, deposited. destruct (fst (read_span p)); reflexivity. }
    assert (M1 : read_memblock (read p1) = read_memblock (read p)).
    { unfold p1, advanced, deposited. destruct (fst (read_span p)); reflexivity. }
    rewrite trace_of_prepend in I |- *. cbn [app delivered] in I |- *.
    destruct (Z.leb_spec r 0) as [N | N]; [contradiction |].
    rewrite frame_progress_eq in I |- *.
    destruct (read_index (read p1) =? PSTREAM_DESCRIPTOR_SIZE).
    { rewrite descriptor_complete_delivers_nothing in I. contradiction. }
    destruct (Z.gtb_spec (read_index (read p1)) PSTREAM_DESCRIPTOR_SIZE) as [G | G];
      [| contradiction].
    rewrite trace_of_prepend, delivered_app, frame_complete_delivers_nothing,
      app_nil_r in I |- *.
    assert (H12 : PSTREAM_DESCRIPTOR_SIZE <= read_index (read p)).
    { destruct (Z.le_gt_cases PSTREAM_DESCRIPTOR_SIZE (read_index (read p))) as [K | K];
        [exact K | exfalso].
      assert (SL : snd (read_span p) = PSTREAM_DESCRIPTOR_SIZE - read_index (read p)).
      { rewrite read_span_header by lia. reflexivity. }
      rewrite SL in B.
      rewrite X1, size_t_small in G; zconst; lia. }
    assert (SP : 0 <= snd (read_span p) < 2 ^ 64).
    { unfold read_span. destruct (_ <? _); cbn [snd]; apply size_t_range. }
    assert (T : size_t (size_t (read_index (read p) + r) - r) = read_index (read p)).
    { apply size_t_add_sub. zconst. lia. }
    assert (F : (size_t (size_t (read_index (read p) + r) - r)
                 <? PSTREAM_DESCRIPTOR_SIZE) = false).
    { rewrite T. apply Z.ltb_ge. exact H12. }
    split; [exact H12 |]. split; [exact F |].
    unfold passed in I |- *. unfold delivery_span in I |- *.
    rewrite X1, F, M1 in I |- *.
    rewrite (size_t_small r) in I |- * by (zconst; lia).
    destruct (negb (is_null (read_memblock (read p))) && recieve_memblock_callback p1);
      [| contradiction].
    destruct (Z.gtb_spec r 0) as [P | P]; [| lia].
    cbn [delivered] in I |- *. destruct I as [I | []]. subst c.
    cbn [mc_length mc_index mc_memblock].
    split; [reflexivity |].
    split; [| split; reflexivity].
    replace (size_t (read_index (read p) + r) - PSTREAM_DESCRIPTOR_SIZE - r)
      with (size_t (read_index (read p) + r) - (PSTREAM_DESCRIPTOR_SIZE + r)) by lia.
    rewrite size_t_sub_idemp.
    replace (read_index (read p) + r - (PSTREAM_DESCRIPTOR_SIZE + r))
      with (read_index (read p) - PSTREAM_DESCRIPTOR_SIZE) by lia.
    apply size_t_small. zconst. lia.
Qed.

Lemma mock_env_ok : forall k bs, 0 <= k <= SSIZE_MAX -> env_ok (mock k bs).
Proof.
  intros k bs H. unfold env_ok, ssize_range, mock. cbn. zconst. split; intros l L; lia.
Qed.

Lemma mock_channel_bounded : forall k bs, channel_bounded (mock k bs).
Proof. intros k bs. unfold channel_bounded, mock. cbn. split; intro l; lia. Qed.

Lemma reachable_run : forall cs p p' tr,
  reachable p -> Forall call_ok cs -> run cs p = Returned p' tr -> reachable p'.
Proof.
  induction cs as [| c cs IH]; intros p p' tr R OK H.
  - inversion H; subst. exact R.
  - simpl in H. apply bind_returned in H. destruct H as (p1 & t1 & t2 & H1 & H2 & _).
    inversion OK as [| c' cs' Oc Ocs]; subst.
    apply (IH p1 p' t2); [| exact Ocs | exact H2].
    exact (reachable_step p c p1 t1 R Oc H1).
Qed.

Lemma memblock_delivery_is_one_read_witness :
  delivered
    (trace_of
       (do_read (mock 4 [])
          (after [Call_set_recieve_memblock_callback true;
                  Call_do_read (mock 12 header30)] (pstream_new blank_stream))))
  = [{| mc_memblock := 2000; mc_index := 0; mc_length := 4 |}].
Proof.
  assert (R : reachable
                (after [Call_set_recieve_memblock_callback true;
                        Call_do_read (mock 12 header30)] (pstream_new blank_stream))).
  { apply (reachable_run
             [Call_set_recieve_memblock_callback true; Call_do_read (mock 12 header30)]
             (pstream_new blank_stream) _
             [Ev_iochannel_read (InReadDescriptor 0) 12 12; Ev_memblock_new 30 2000]).
    - apply reachable_new.
    - apply Forall_cons; [exact I |].
      apply Forall_cons; [| apply Forall_nil].
      apply mock_env_ok. vm_compute. split; discriminate.
    - vm_compute. reflexivity. }
  destruct (memblock_delivery_is_one_read (mock 4 [])
              (after [Call_set_recieve_memblock_callback true;
                      Call_do_read (mock 12 header30)] (pstream_new blank_stream))
              2 (-5) {| mc_memblock := 2000; mc_index := 0; mc_length := 4 |}
              R (mock_channel_bounded 4 []))
    as (_ & _ & _ & _ & _ & T).
  - vm_compute. right. left. reflexivity.
  - exact T.
Defined.

(** ** A frame of 24 bytes or more is never sent *)

Lemma uint32_t_small : forall x, 0 <= x < 2 ^ 32 -> uint32_t x = x.
Proof. intros x H. unfold uint32_t. apply Z.mod_small. exact H. Qed.

Lemma cursor_of_item_length : forall i,
  0 <= item_length i < 2 ^ 32 ->
  descriptor_get (write_descriptor (cursor_of_item i)) PSTREAM_DESCRIPTOR_LENGTH
  = item_length i.
Proof.
  intros i H. unfold cursor_of_item, item_length in *.
  destruct (type i); cbn; rewrite !uint32_t_small; try reflexivity; try exact H;
    rewrite uint32_t_small; exact H.
Qed.

Lemma payload_written_app : forall t1 t2,
  payload_written (t1 ++ t2) = payload_written t1 + payload_written t2.
Proof.
  induction t1 as [| ev t1 IH]; intro t2; [reflexivity |].
  destruct ev as [d l r | | | | | | | | |]; simpl; try apply IH.
  destruct d; rewrite ?IH; try reflexivity; lia.
Qed.

Lemma cursor_data_shape : forall i idx,
  (exists a o, data_add (data_add (write_data (cursor_of_item i)) idx)
                 (- PSTREAM_DESCRIPTOR_SIZE) = InPacket a o) \/
  (exists a o, data_add (data_add (write_data (cursor_of_item i)) idx)
                 (- PSTREAM_DESCRIPTOR_SIZE) = InMemblock a o).
Proof.
  intros i idx. unfold cursor_of_item.
  destruct (type i); cbn; [left | right]; eexists; eexists; reflexivity.
Qed.

Lemma stuck_busy_step : forall e i p idx,
  24 <= item_length i < 2 ^ 32 ->
  item_payload_is_null i = false ->
  iochannel_write e (snd (write_span p)) <= snd (write_span p) ->
  dead p = false -> iochannel_is_writable e = true ->
  send_queue p = [] ->
  0 <= idx <= item_length i - PSTREAM_DESCRIPTOR_SIZE ->
  write p = set_write_index idx (cursor_of_item i) ->
  exists p' tr,
    do_write e p = Returned p' tr /\ stuck i p' /\
    Forall (fun ev => is_io ev = true) tr /\
    payload_sent p + payload_written tr <= payload_sent p'.
Proof.
  intros e i p idx L N B D W Q I E.
  assert (C : write_current (write p) = Some i).
  { rewrite E. cbn. apply cursor_of_item_current. }
  assert (X : write_index (write p) = idx) by (rewrite E; reflexivity).
  assert (DL : descriptor_get (write_descriptor (write p)) PSTREAM_DESCRIPTOR_LENGTH
               = item_length i).
  { rewrite E. cbn. apply cursor_of_item_length. lia. }
  assert (DN : data_is_null (write_data (write p)) = false).
  { rewrite E. cbn. apply cursor_of_item_data. exact N. }
  rewrite (do_write_busy e p i D W C), DN. unfold write_result.
  unfold payload_sent at 1. rewrite C, X, DL.
  set (r := iochannel_write e (snd (write_span p))) in *. clearbody r.
  assert (SP : (idx < PSTREAM_DESCRIPTOR_SIZE /\
                write_span p = (InWriteDescriptor idx, PSTREAM_DESCRIPTOR_SIZE - idx)) \/
               (PSTREAM_DESCRIPTOR_SIZE <= idx /\
                snd (write_span p) = item_length i - idx - PSTREAM_DESCRIPTOR_SIZE /\
                ((exists a o, fst (write_span p) = InPacket a o) \/
                 (exists a o, fst (write_span p) = InMemblock a o)))).
  { unfold write_span. rewrite X, DL.
    destruct (Z.ltb_spec idx PSTREAM_DESCRIPTOR_SIZE) as [K | K].
    - left. split; [exact K |]. rewrite size_t_small; [reflexivity | zconst; lia].
    - right. split; [exact K |]. cbn [fst snd]. split.
      + apply size_t_small. zconst. lia.
      + rewrite E. cbn [write_data set_write_index]. apply cursor_data_shape. }
  assert (NC : forall r', 0 <= r' -> idx + r' <= item_length i - PSTREAM_DESCRIPTOR_SIZE ->
                 (size_t (idx + r') >=?
                  size_t (PSTREAM_DESCRIPTOR_SIZE + item_length i)) = false).
  { intros r' R0 R1. rewrite !size_t_small by (zconst; lia).
    destruct (Z.geb_spec (idx + r') (PSTREAM_DESCRIPTOR_SIZE + item_length i));
      [zconst; lia | reflexivity]. }
  assert (ST : forall r', 0 <= r' -> idx + r' <= item_length i - PSTREAM_DESCRIPTOR_SIZE ->
                 stuck i (set_write (set_write_index (size_t (idx + r')) (write p))
                            (set_mainloop_source false p))).
  { intros r' R0 R1. right. split; [exact Q |]. exists (idx + r').
    split; [lia |]. cbn. rewrite E, size_t_small by (zconst; lia). reflexivity. }
  assert (SD : stuck i (set_dead true (set_mainloop_source false p))).
  { right. split; [exact Q |]. exists idx. split; [exact I | exact E]. }
  destruct (Z.ltb_spec r 0) as [R0 | R0].
  - eexists. eexists. split; [reflexivity |]. split; [exact SD |].
    split; [repeat constructor |].
    unfold payload_sent. cbn [write set_dead set_mainloop_source]. rewrite C, X.
    cbn [app payload_written].
    destruct (fst (write_span p)); cbn [payload_written]; lia.
  - cbv zeta.
    destruct SP as [[K SP] | (K & SL & SF)].
    + rewrite SP in B |- *. cbn [fst snd] in B |- *.
      rewrite NC by (zconst; lia).
      eexists. eexists. split; [reflexivity |]. split; [apply ST; zconst; lia |].
      split; [repeat constructor |].
      unfold payload_sent. cbn [write set_write set_mainloop_source write_current
                                  set_write_index write_index].
      rewrite C, size_t_small by (zconst; lia).
      cbn [app payload_written]. zconst. lia.
    + rewrite SL in B. rewrite NC by lia.
      eexists. eexists. split; [reflexivity |]. split; [apply ST; lia |].
      split; [repeat constructor |].
      unfold payload_sent. cbn [write set_write set_mainloop_source write_current
                                  set_write_index write_index].
      rewrite C, size_t_small by (zconst; lia).
      cbn [app].
      destruct SF as [(a & o & SF) | (a & o & SF)]; rewrite SF;
        cbn [payload_written]; zconst; lia.
Qed.

Lemma stuck_quiet : forall i p,
  stuck i p -> stuck i (set_mainloop_source false p).
Proof. intros i p H. exact H. Qed.

Lemma stuck_step : forall e i p,
  24 <= item_length i < 2 ^ 32 ->
  item_payload_is_null i = false ->
  channel_bounded e ->
  stuck i p ->
  exists p' tr,
    do_write e p = Returned p' tr /\ stuck i p' /\
    Forall (fun ev => is_io ev = true) tr /\
    payload_sent p + payload_written tr <= payload_sent p'.
Proof.
  intros e i p L N [B _] S.
  destruct (dead p) eqn:D.
  { rewrite (do_write_dead e p D). eexists. eexists. split; [reflexivity |].
    split; [exact S |]. split; [constructor |]. cbn [payload_written].
    unfold payload_sent. cbn. lia. }
  destruct (iochannel_is_writable e) eqn:W.
  2:{ rewrite (do_write_blocked e p W). eexists. eexists. split; [reflexivity |].
      split; [exact S |]. split; [constructor |]. cbn [payload_written].
      unfold payload_sent. cbn. lia. }
  destruct S as [[C Q] | (Q & idx & I & E)].
  - rewrite (do_write_pop e p i [] D W C Q), N.
    destruct (stuck_busy_step e i (set_write (cursor_of_item i) (set_send_queue [] p)) 0
                L N (B _) D W eq_refl) as (p' & tr & H & S' & F & P).
    + zconst. lia.
    + cbn. unfold set_write_index. destruct (cursor_of_item i) eqn:K.
      assert (X := cursor_of_item_index i). rewrite K in X. cbn in X |- *. subst.
      reflexivity.
    + exists p', tr. split; [exact H |]. split; [exact S' |]. split; [exact F |].
      unfold payload_sent at 1. rewrite C.
      unfold payload_sent at 1 in P. cbn [write set_write] in P.
      rewrite cursor_of_item_current, cursor_of_item_index in P. zconst. lia.
  - exact (stuck_busy_step e i p idx L N (B _) D W Q I E).
Qed.

Lemma stuck_run : forall es i p,
  24 <= item_length i < 2 ^ 32 ->
  item_payload_is_null i = false ->
  Forall channel_bounded es ->
  stuck i p ->
  exists p' tr,
    run (map Call_do_write es) p = Returned p' tr /\ stuck i p' /\
    Forall (fun ev => is_io ev = true) tr /\
    payload_sent p + payload_written tr <= payload_sent p'.
Proof.
  induction es as [| e es IH]; intros i p L N B S.
  - exists p, []. split; [reflexivity |]. split; [exact S |]. split; [constructor |].
    cbn. lia.
  - inversion B as [| e' es' Be Bes]; subst.
    destruct (stuck_step e i p L N Be S) as (p1 & t1 & H1 & S1 & F1 & P1).
    destruct (IH i p1 L N Bes S1) as (p2 & t2 & H2 & S2 & F2 & P2).
    exists p2, (t1 ++ t2). split.
    + cbn [map run exec]. unfold bind. rewrite H1, H2. reflexivity.
    + split; [exact S2 |]. split; [apply Forall_app; auto |].
      rewrite payload_written_app. lia.
Qed.

Lemma stuck_payload_sent : forall i p,
  24 <= item_length i -> stuck i p ->
  0 <= payload_sent p <= item_length i - 24 /\
  (write_current (write p) <> None \/ send_queue p <> []).
Proof.
  intros i p L [[C Q] | (Q & idx & I & E)]; unfold payload_sent.
  - rewrite C, Q. split; [lia | right; discriminate].
  - rewrite E. cbn. rewrite cursor_of_item_current. zconst. split; [lia |].
    left. discriminate.
Qed.

(** C2 (defect of the code).  A packet of 24 bytes or more is sent on an
    idle stream and the write engine is invoked any number of times, the
    channel taking whatever part of each request it likes.  The engine
    never hands more than [length - 24] payload bytes to the channel, its
    trace holds nothing but writes (the item is never released, the send
    callback never fires), and the item stays pending: the receiver cannot
    observe the payload that was sent. *)
Theorem long_frame_is_never_sent :
  forall (pk : packet_p) (fresh : item_info) (es : list env) (p : pstream),
    write_current (write p) = None -> send_queue p = [] ->
    24 <= pk_length pk < 2 ^ 32 -> packet_is_null pk = false ->
    Forall channel_bounded es ->
    exists p' tr,
      run (Call_send_packet pk fresh :: map Call_do_write es) p = Returned p' tr /\
      payload_written tr <= pk_length pk - 24 /\
      Forall (fun ev => is_io ev = true) tr /\
      (write_current (write p') <> None \/ send_queue p' <> []).
Proof.
  intros pk fresh es p C Q L N B.
  set (i := {| type := PSTREAM_ITEM_PACKET; packet := pk; chunk := chunk fresh;
               channel := channel fresh; delta := delta fresh |}).
  assert (S : pstream_send_packet pk fresh p
              = Returned (set_mainloop_source true (set_send_queue [i] p)) []).
  { unfold pstream_send_packet. rewrite N. cbn [negb].
    rewrite bind_assert_true. unfold queue_push, mainloop_source_enable.
    rewrite !bind_modify. unfold modify. rewrite Q. reflexivity. }
  destruct (stuck_run es i (set_mainloop_source true (set_send_queue [i] p)))
    as (p' & tr & H & S' & F & P); try assumption.
  - left. split; [exact C | reflexivity].
  - exists p', tr. split.
    + cbn [run exec]. unfold bind. rewrite S, H. reflexivity.
    + destruct (stuck_payload_sent i p' (proj1 L) S') as [[_ U] V].
      unfold payload_sent at 1 in P. cbn [write set_mainloop_source set_send_queue] in P.
      rewrite C in P. change (item_length i) with (pk_length pk) in U.
      split; [lia |]. split; [exact F | exact V].
Qed.

Lemma long_frame_is_never_sent_witness :
  exists p' tr,
    run (Call_send_packet packet24 stale_item
         :: map Call_do_write [mock 5 []; mock 5 []; mock 5 []; mock 5 []; mock 5 []])
      (pstream_new blank_stream) = Returned p' tr /\
    payload_written tr <= 24 - 24 /\
    Forall (fun ev => is_io ev = true) tr /\
    (write_current (write p') <> None \/ send_queue p' <> []).
Proof.
  apply (long_frame_is_never_sent packet24 stale_item
           [mock 5 []; mock 5 []; mock 5 []; mock 5 []; mock 5 []]
           (pstream_new blank_stream)).
  - reflexivity.
  - reflexivity.
  - vm_compute. split; [discriminate | reflexivity].
  - reflexivity.
  - repeat (apply Forall_cons; [apply mock_channel_bounded |]). apply Forall_nil.
Defined.

(** Below 24 bytes the span wraps around: for a packet of 8 bytes the
    engine asks the channel to take nearly 2^64 bytes, and a channel that
    takes 5 bytes per call is handed 10 bytes of the 8-byte buffer before
    the item counts as complete. *)
Example short_frame_overruns_its_buffer :
  trace_of
    (run (Call_send_packet packet8 stale_item
          :: map Call_do_write [mock 12 []; mock 5 []; mock 5 []])
       (pstream_new blank_stream))
  = [Ev_iochannel_write (InWriteDescriptor 0) 12 12;
     Ev_iochannel_write (InPacket 500 0) (2 ^ 64 - 16) 5;
     Ev_iochannel_write (InPacket 500 5) (2 ^ 64 - 21) 5;
     Ev_memblock_unref 77].
Proof. vm_compute. reflexivity. Qed.

(** ** A memblock frame of 24 bytes or more is never delivered in full *)

Lemma delivered_bytes_app : forall t1 t2,
  delivered_bytes (t1 ++ t2) = delivered_bytes t1 + delivered_bytes t2.
Proof.
  intros t1 t2. unfold delivered_bytes. rewrite delivered_app.
  induction (delivered t1) as [| c cs IH]; simpl; [reflexivity | lia].
Qed.

Lemma receiving_step : forall e mb L p,
  channel_bounded e -> receiving mb L p ->
  exists p' tr,
    do_read e p = Returned p' tr /\ receiving mb L p' /\
    read_index (read p) + delivered_bytes tr <= read_index (read p').
Proof.
  intros e mb L p [_ B] (MB & M & K & DT & RL & I).
  assert (Q : forall b, receiving mb L (set_mainloop_source b p)).
  { intro b. repeat split; try assumption; apply I. }
  destruct (dead p) eqn:D.
  { rewrite (do_read_dead e p D). eexists. eexists. split; [reflexivity |].
    split; [apply Q |]. cbn. lia. }
  destruct (iochannel_is_readable e) eqn:W.
  2:{ rewrite (do_read_blocked e p W). eexists. eexists. split; [reflexivity |].
      split; [apply Q |]. cbn. lia. }
  pose proof (read_length_range p) as LR. rewrite RL in LR.
  rewrite (do_read_live e p D W).
  destruct (Z.ltb_spec (read_index (read p)) PSTREAM_DESCRIPTOR_SIZE) as [X | X];
    [lia |].
  rewrite DT. cbn [negb andb memblock_data data_is_null]. unfold read_result.
  assert (SP : read_span p
               = (InMemblock (read_memblock (read p))
                    (0 + read_index (read p) + - PSTREAM_DESCRIPTOR_SIZE),
                  L - read_index (read p) - PSTREAM_DESCRIPTOR_SIZE)).
  { unfold read_span.
    destruct (Z.ltb_spec (read_index (read p)) PSTREAM_DESCRIPTOR_SIZE); [lia |].
    rewrite DT. fold (read_length p). rewrite RL, size_t_small by (zconst; lia).
    reflexivity. }
  specialize (B (snd (read_span p))).
  rewrite SP in *. cbn [fst snd] in *.
  set (r := iochannel_read e (L - read_index (read p) - PSTREAM_DESCRIPTOR_SIZE)) in *.
  clearbody r.
  destruct (Z.leb_spec r 0) as [N | N].
  - eexists. eexists. split; [reflexivity |]. split.
    + repeat split; try assumption; apply I.
    + cbn. lia.
  - unfold deposited.
    set (p1 := advanced r (set_mainloop_source false p)).
    assert (I1 : read_index (read p1) = read_index (read p) + r).
    { unfold p1, advanced. cbn. apply size_t_small. zconst. lia. }
    assert (Q1 : receiving mb L p1).
    { repeat split; try assumption; rewrite I1; lia. }
    rewrite frame_progress_eq, frame_complete_eq, I1.
    change (read_length p1) with (read_length p). rewrite RL.
    destruct (Z.eqb_spec (read_index (read p) + r) PSTREAM_DESCRIPTOR_SIZE); [lia |].
    destruct (Z.gtb_spec (read_index (read p) + r) PSTREAM_DESCRIPTOR_SIZE); [| lia].
    rewrite (size_t_small (L + PSTREAM_DESCRIPTOR_SIZE)) by (zconst; lia).
    destruct (Z.geb_spec (read_index (read p) + r) (L + PSTREAM_DESCRIPTOR_SIZE));
      [zconst; lia |].
    eexists. eexists. split; [reflexivity |]. split; [exact Q1 |].
    rewrite I1. cbn [app prepend].
    change (delivered_bytes (?ev :: ?t)) with (delivered_bytes t).
    rewrite app_nil_r. unfold passed.
    destruct (negb _ && _); [| cbn; lia].
    unfold delivery_span. rewrite I1.
    replace (read_index (read p) + r - r) with (read_index (read p)) by lia.
    rewrite (size_t_small (read_index (read p))) by (zconst; lia).
    destruct (Z.ltb_spec (read_index (read p)) PSTREAM_DESCRIPTOR_SIZE); [lia |].
    rewrite (size_t_small r) by (zconst; lia).
    destruct (r >? 0); cbn; lia.
Qed.

Lemma receiving_run : forall es mb L p,
  Forall channel_bounded es -> receiving mb L p ->
  exists p' tr,
    run (map Call_do_read es) p = Returned p' tr /\ receiving mb L p' /\
    read_index (read p) + delivered_bytes tr <= read_index (read p').
Proof.
  induction es as [| e es IH]; intros mb L p B R.
  - exists p, []. split; [reflexivity |]. split; [exact R |]. cbn. lia.
  - inversion B as [| e' es' Be Bes]; subst.
    destruct (receiving_step e mb L p Be R) as (p1 & t1 & H1 & R1 & P1).
    destruct (IH mb L p1 Bes R1) as (p2 & t2 & H2 & R2 & P2).
    exists p2, (t1 ++ t2). split.
    + cbn [map run exec]. unfold bind. rewrite H1, H2. reflexivity.
    + split; [exact R2 |]. rewrite delivered_bytes_app. lia.
Qed.

(** C3 (defect of the code).  The header of a memblock frame of 24 bytes
    or more is complete and its buffer is allocated.  However many times
    the read engine is invoked, and whatever the channel returns within
    what it is asked for, the chunks delivered to the callback add up to
    at most [length - 24] bytes: the views never cover the payload, and
    the frame is never complete (its buffer is still held, the offset
    stays below the end of the frame). *)
Theorem long_memblock_frame_is_never_delivered :
  forall (es : list env) (p : pstream),
    read_index (read p) = PSTREAM_DESCRIPTOR_SIZE ->
    is_null (read_memblock (read p)) = false ->
    packet_is_null (read_packet (read p)) = true ->
    read_data (read p) = memblock_data (read_memblock (read p)) ->
    24 <= read_length p ->
    Forall channel_bounded es ->
    exists p' tr,
      run (map Call_do_read es) p = Returned p' tr /\
      delivered_bytes tr <= read_length p - 24 /\
      read_memblock (read p') = read_memblock (read p) /\
      read_index (read p') <= read_length p - PSTREAM_DESCRIPTOR_SIZE.
Proof.
  intros es p I M K DT L B.
  assert (R : receiving (read_memblock (read p)) (read_length p) p).
  { repeat split; try assumption; rewrite I; zconst; lia. }
  destruct (receiving_run es _ _ p B R) as (p' & tr & H & (MB & _ & _ & _ & _ & I') & P).
  exists p', tr. split; [exact H |]. rewrite I in P. zconst.
  split; [lia |]. split; [exact MB | lia].
Qed.

Lemma long_memblock_frame_is_never_delivered_witness :
  exists p' tr,
    run (map Call_do_read [mock 4 []; mock 4 []; mock 4 []; mock 4 []])
      (after [Call_set_recieve_memblock_callback true; Call_do_read (mock 12 header30)]
         (pstream_new blank_stream)) = Returned p' tr /\
    delivered_bytes tr <= 30 - 24 /\
    read_memblock (read p') = 2000 /\
    read_index (read p') <= 30 - 12.
Proof.
  apply (long_memblock_frame_is_never_delivered
           [mock 4 []; mock 4 []; mock 4 []; mock 4 []]
           (after [Call_set_recieve_memblock_callback true;
                   Call_do_read (mock 12 header30)] (pstream_new blank_stream))).
  - reflexivity.
  - reflexivity.
  - reflexivity.
  - reflexivity.
  - vm_compute. discriminate.
  - repeat (apply Forall_cons; [apply mock_channel_bounded |]). apply Forall_nil.
Defined.

(** ** Release of the references an item owns *)

(** C5 (defect of the code).  [item_free] tests the type of the item and
    then releases the field of the other type.  A packet item, as
    [pstream_send_packet] enqueues it, never has its packet released:
    freeing it aborts on the assertion or releases whatever the block held
    in its chunk field, which the send never wrote.  A memblock item never
    has its memblock released: freeing it aborts or releases whatever the
    block held in its packet field. *)
Theorem item_free_releases_the_other_field :
  forall (p p' s : pstream) (tr : trace) (fresh : item_info),
    (forall pk,
        pstream_send_packet pk fresh p = Returned p' tr ->
        exists i,
          send_queue p' = send_queue p ++ [i] /\
          packet_unrefs (pk_addr pk) (trace_of (item_free i s)) = 0%nat /\
          item_free i s =
          if is_null (mc_memblock (chunk fresh)) then Aborted []
          else Returned s [Ev_memblock_unref (mc_memblock (chunk fresh))]) /\
    (forall ch dl c,
        pstream_send_memblock ch dl (Some c) fresh p = Returned p' tr ->
        exists i,
          send_queue p' = send_queue p ++ [i] /\
          memblock_unrefs (mc_memblock c) (trace_of (item_free i s)) = 0%nat /\
          item_free i s =
          if packet_is_null (packet fresh) then Aborted []
          else Returned s [Ev_packet_unref (pk_addr (packet fresh))]).
Proof.
  intros p p' s tr fresh. split.
  - intros pk H. unfold pstream_send_packet in H.
    destruct (packet_is_null pk); cbn [negb] in H;
      [rewrite bind_assert_false in H; discriminate |].
    rewrite bind_assert_true in H. unfold queue_push, mainloop_source_enable in H.
    rewrite !bind_modify in H. inversion H; subst. clear H.
    eexists. split; [reflexivity |].
    unfold item_free. cbn [type chunk].
    destruct (is_null (mc_memblock (chunk fresh))); cbn [negb].
    + rewrite bind_assert_false. split; reflexivity.
    + rewrite bind_assert_true. split; reflexivity.
  - intros ch dl c H. unfold pstream_send_memblock in H.
    destruct (ch =? 0); cbn [negb] in H;
      [rewrite bind_assert_false in H; discriminate |].
    rewrite bind_assert_true in H. unfold queue_push, mainloop_source_enable in H.
    rewrite !bind_modify in H. inversion H; subst. clear H.
    eexists. split; [reflexivity |].
    unfold item_free. cbn [type packet].
    destruct (packet_is_null (packet fresh)); cbn [negb].
    + rewrite bind_assert_false. split; reflexivity.
    + rewrite bind_assert_true. split; reflexivity.
Qed.

Lemma item_free_releases_the_other_field_witness :
  (exists i,
      send_queue (after [Call_send_packet packet8 stale_item] (pstream_new blank_stream))
      = [] ++ [i] /\
      packet_unrefs 500 (trace_of (item_free i blank_stream)) = 0%nat /\
      item_free i blank_stream = Returned blank_stream [Ev_memblock_unref 77]) /\
  (exists i,
      send_queue
        (after [Call_send_memblock 2 (-5)
                  (Some {| mc_memblock := 900; mc_index := 0; mc_length := 8 |})
                  blank_item] (pstream_new blank_stream))
      = [] ++ [i] /\
      memblock_unrefs 900 (trace_of (item_free i blank_stream)) = 0%nat /\
      item_free i blank_stream = Aborted []).
Proof.
  split.
  - destruct (item_free_releases_the_other_field (pstream_new blank_stream)
                (after [Call_send_packet packet8 stale_item] (pstream_new blank_stream))
                blank_stream [] stale_item) as [P _].
    apply (P packet8). vm_compute. reflexivity.
  - destruct (item_free_releases_the_other_field (pstream_new blank_stream)
                (after [Call_send_memblock 2 (-5)
                          (Some {| mc_memblock := 900; mc_index := 0; mc_length := 8 |})
                          blank_item] (pstream_new blank_stream))
                blank_stream [] blank_item) as [_ M].
    apply (M 2 (-5) {| mc_memblock := 900; mc_index := 0; mc_length := 8 |}).
    vm_compute. reflexivity.
Defined.

(** A stream holds one unsent packet; the block of its item had been used
    before.  Destroying the stream releases a stale memblock pointer and
    leaves the packet alone. *)
Example pstream_free_leaks_the_packet :
  trace_of (pstream_free
              (after [Call_send_packet packet8 stale_item] (pstream_new blank_stream)))
  = [Ev_iochannel_free; Ev_memblock_unref 77].
Proof. vm_compute. reflexivity. Qed.

(** ** Further properties: when the engines wait *)

(** X1.  With no item in progress and an empty queue, or with a channel
    that is not writable, the write engine makes no call and changes
    nothing but the scheduler hook, which it disarms; the same holds for
    the read engine when the channel is not readable. *)
Theorem engines_wait_when_not_ready :
  forall (e : env) (p : pstream),
    (iochannel_is_writable e = false \/
     (write_current (write p) = None /\ send_queue p = []) ->
     do_write e p = Returned (set_mainloop_source false p) []) /\
    (iochannel_is_readable e = false ->
     do_read e p = Returned (set_mainloop_source false p) []).
Proof.
  intros e p. split.
  - intros [W | [C Q]].
    + apply do_write_blocked. exact W.
    + destruct (dead p) eqn:D; [apply do_write_dead; exact D |].
      destruct (iochannel_is_writable e) eqn:W; [| apply do_write_blocked; exact W].
      rewrite (do_write_idle e p D W C Q). rewrite set_write_current_same by exact C.
      reflexivity.
  - apply do_read_blocked.
Qed.

Lemma engines_wait_when_not_ready_witness :
  do_write (mock 5 []) (pstream_new blank_stream)
  = Returned (set_mainloop_source false (pstream_new blank_stream)) [] /\
  do_read {| iochannel_is_writable := true; iochannel_write := fun l => l;
             iochannel_is_readable := false; iochannel_read := fun l => l;
             incoming := []; packet_new := 1; memblock_new := 2 |}
    (pstream_new blank_stream)
  = Returned (set_mainloop_source false (pstream_new blank_stream)) [].
Proof.
  split.
  - destruct (engines_wait_when_not_ready (mock 5 []) (pstream_new blank_stream))
      as [W _].
    apply W. right. split; reflexivity.
  - destruct (engines_wait_when_not_ready
                {| iochannel_is_writable := true; iochannel_write := fun l => l;
                   iochannel_is_readable := false; iochannel_read := fun l => l;
                   incoming := []; packet_new := 1; memblock_new := 2 |}
                (pstream_new blank_stream)) as [_ R].
    apply R. reflexivity.
Defined.

(** ** Further properties: the order of transmission *)

Lemma cursor_of_item_descriptor : forall i,
  descriptor_get (write_descriptor (cursor_of_item i)) PSTREAM_DESCRIPTOR_LENGTH
  = uint32_t (item_length i) /\
  descriptor_get (write_descriptor (cursor_of_item i)) PSTREAM_DESCRIPTOR_CHANNEL
  = uint32_t (item_channel i) /\
  descriptor_get (write_descriptor (cursor_of_item i)) PSTREAM_DESCRIPTOR_DELTA
  = uint32_t (item_delta i).
Proof.
  intro i. unfold cursor_of_item, item_length, item_channel, item_delta.
  assert (U : forall x, uint32_t (uint32_t x) = uint32_t x).
  { intro x. unfold uint32_t. apply Z.mod_mod. lia. }
  destruct (type i); cbn; rewrite !U; auto.
Qed.

Lemma write_result_keeps : forall e i p p' tr,
  write_result e i p = Returned p' tr ->
  send_queue p' = send_queue p /\
  write_descriptor (write p') = write_descriptor (write p) /\
  write_data (write p') = write_data (write p) /\
  read p' = read p.
Proof.
  intros e i p p' tr H. unfold write_result in H.
  destruct (_ <? 0).
  - cbn in H. inversion H. auto.
  - cbv zeta in H. destruct (_ >=? _).
    + destruct (item_free i _); [| discriminate]. cbn in H. inversion H. auto.
    + cbn in H. inversion H. auto.
Qed.



(** ** Further properties: how a stream dies *)

(** X3.  A live stream is dead after a call only for one of three reasons:
    a write returned a negative result; a read returned 0 or less; or a
    read returned a positive result that brought the read offset to 12,
    where it stays, and the descriptor that is complete at that point
    carries a length above 65536.  Sending and registering callbacks never
    kill a stream. *)
Theorem death_has_a_cause :
  forall (c : call) (p p' : pstream) (tr : trace),
    dead p = false -> exec c p = Returned p' tr -> dead p' = true ->
    (exists d l r, In (Ev_iochannel_write d l r) tr /\ r < 0) \/
    (exists d l r, In (Ev_iochannel_read d l r) tr /\ r <= 0) \/
    (exists d l r,
        In (Ev_iochannel_read d l r) tr /\ 0 < r /\
        size_t (read_index (read p) + r) = PSTREAM_DESCRIPTOR_SIZE /\
        read_index (read p') = PSTREAM_DESCRIPTOR_SIZE /\
        FRAME_SIZE_MAX < read_length p').
Proof.
  assert (Wr : forall e p p' tr,
             dead p = false -> do_write e p = Returned p' tr -> dead p' = true ->
             exists d l r, In (Ev_iochannel_write d l r) tr /\ r < 0).
  { intros e p p' tr D H D'.
    destruct (do_write_cases e p) as [A | [[Q _] | (i & pb & S & _ & _ & R)]].
    - congruence.
    - rewrite Q in H. inversion H; subst. cbn in D'. congruence.
    - destruct (write_start_offset p i pb S) as [_ Db].
      rewrite R in H.
      destruct (write_result_shape e i pb) as (rest & T & _ & Neg & Pos).
      destruct (Z.lt_ge_cases (iochannel_write e (snd (write_span pb))) 0) as [N | N].
      + rewrite (Neg N) in H. inversion H; subst.
        eexists. eexists. eexists. split; [left; reflexivity | exact N].
      + destruct (Pos N p' tr H) as [Dp _]. congruence. }
  assert (Rd : forall e p p' tr,
             dead p = false -> do_read e p = Returned p' tr -> dead p' = true ->
             (exists d l r, In (Ev_iochannel_read d l r) tr /\ r <= 0) \/
             (exists d l r,
                 In (Ev_iochannel_read d l r) tr /\ 0 < r /\
                 size_t (read_index (read p) + r) = PSTREAM_DESCRIPTOR_SIZE /\
                 read_index (read p') = PSTREAM_DESCRIPTOR_SIZE /\
                 FRAME_SIZE_MAX < read_length p')).
  { intros e p p' tr D H D'.
    destruct (do_read_cases e p) as [A | [[Q _] | (_ & _ & R)]].
    - congruence.
    - rewrite Q in H. inversion H; subst. cbn in D'. congruence.
    - assert (I : In (Ev_iochannel_read (fst (read_span p)) (snd (read_span p))
                        (iochannel_read e (snd (read_span p)))) tr).
      { rewrite R in H. unfold read_result in H.
        destruct (if _ <=? 0 then _ else _) as [q t | t]; [| discriminate].
        cbn in H. inversion H. left. reflexivity. }
      destruct (Z.le_gt_cases (iochannel_read e (snd (read_span p))) 0) as [N | N].
      + left. eexists. eexists. eexists. split; [exact I | exact N].
      + right. exists (fst (read_span p)), (snd (read_span p)),
                 (iochannel_read e (snd (read_span p))).
        assert (I' : In (Ev_iochannel_read (fst (read_span p)) (snd (read_span p))
                           (iochannel_read e (snd (read_span p))))
                       (trace_of (do_read e p))) by (rewrite H; exact I).
        destruct (do_read_classified e p _ _ _ I') as (_ & _ & P).
        assert (N' : 0 < iochannel_read e (snd (read_span p))) by lia.
        destruct (P N' p' tr H) as [Ix Dx]. cbv zeta in Ix, Dx.
        destruct (proj1 Dx D') as [E O].
        split; [exact I |]. split; [exact N' |]. split; [exact E |].
        split; [| exact O].
        rewrite Ix, E.
        replace (PSTREAM_DESCRIPTOR_SIZE >? PSTREAM_DESCRIPTOR_SIZE) with false
          by reflexivity.
        reflexivity. }
  assert (Both : forall e p p' tr,
             dead p = false -> (do_write e ;; do_read e) p = Returned p' tr ->
             dead p' = true ->
             (exists d l r, In (Ev_iochannel_write d l r) tr /\ r < 0) \/
             (exists d l r, In (Ev_iochannel_read d l r) tr /\ r <= 0) \/
             (exists d l r,
                 In (Ev_iochannel_read d l r) tr /\ 0 < r /\
                 size_t (read_index (read p) + r) = PSTREAM_DESCRIPTOR_SIZE /\
                 read_index (read p') = PSTREAM_DESCRIPTOR_SIZE /\
                 FRAME_SIZE_MAX < read_length p')).
  { intros e p p' tr D H D'. apply bind_returned in H.
    destruct H as (p1 & t1 & t2 & H1 & H2 & ->).
    destruct (dead p1) eqn:D1.
    - left. destruct (Wr e p p1 t1 D H1 D1) as (d & l & r & I & N).
      exists d, l, r. split; [apply in_or_app; left; exact I | exact N].
    - right. pose proof (do_write_keeps_read e _ _ _ H1) as K.
      destruct (Rd e p1 p' t2 D1 H2 D') as [(d & l & r & I & N) | (d & l & r & I & N)].
      + left. exists d, l, r. split; [apply in_or_app; right; exact I | exact N].
      + right. exists d, l, r. rewrite K in N.
        split; [apply in_or_app; right; exact I | exact N]. }
  intros c p p' tr D H D'.
  assert (K : forall m, keeps dead m -> m p = Returned p' tr -> False).
  { intros m Km Hm. rewrite (Km _ _ _ Hm) in D'. congruence. }
  destruct c; simpl in H.
  - exfalso. apply (K (pstream_send_packet pk fresh)); [| exact H].
    unfold pstream_send_packet. keeps_tac.
  - exfalso. apply (K (pstream_send_memblock ch dl ck fresh)); [| exact H].
    unfold pstream_send_memblock. keeps_tac.
  - exfalso. apply (K (pstream_set_send_callback callback)); [| exact H].
    unfold pstream_set_send_callback. keeps_tac.
  - exfalso. apply (K (pstream_set_recieve_packet_callback callback)); [| exact H].
    unfold pstream_set_recieve_packet_callback. keeps_tac.
  - exfalso. apply (K (pstream_set_recieve_memblock_callback callback)); [| exact H].
    unfold pstream_set_recieve_memblock_callback. keeps_tac.
  - left. exact (Wr e p p' tr D H D').
  - right. exact (Rd e p p' tr D H D').
  - exact (Both e p p' tr D H D').
  - exact (Both e p p' tr D H D').
Qed.

Lemma death_has_a_cause_witness :
  (exists d l r,
      In (Ev_iochannel_write d l r) [Ev_iochannel_read (InReadDescriptor 5) 7 7] /\
      r < 0) \/
  (exists d l r,
      In (Ev_iochannel_read d l r) [Ev_iochannel_read (InReadDescriptor 5) 7 7] /\
      r <= 0) \/
  (exists d l r,
      In (Ev_iochannel_read d l r) [Ev_iochannel_read (InReadDescriptor 5) 7 7] /\
      0 < r /\
      size_t (read_index
                (read (after [Call_do_read (mock 5 header_oversized)]
                         (pstream_new blank_stream))) + r)
      = PSTREAM_DESCRIPTOR_SIZE /\
      read_index
        (read (after [Call_do_read (mock 5 header_oversized);
                      Call_do_read (mock 7 (skipn 5 header_oversized))]
                 (pstream_new blank_stream)))
      = PSTREAM_DESCRIPTOR_SIZE /\
      FRAME_SIZE_MAX <
      read_length (after [Call_do_read (mock 5 header_oversized);
                          Call_do_read (mock 7 (skipn 5 header_oversized))]
                     (pstream_new blank_stream))).
Proof.
  apply (death_has_a_cause (Call_do_read (mock 7 (skipn 5 header_oversized)))
           (after [Call_do_read (mock 5 header_oversized)] (pstream_new blank_stream))).
  - reflexivity.
  - vm_compute. reflexivity.
  - reflexivity.
Defined.

(** ** Further properties: the two engines keep apart *)

Lemma item_free_emits_write_side : forall i,
  emits (fun ev => is_write_side ev = true) (item_free i).
Proof. intro i. unfold item_free. emits_tac; reflexivity. Qed.

Lemma prepare_next_write_item_emits_nothing : forall P,
  emits P prepare_next_write_item.
Proof. intro P. unfold prepare_next_write_item. emits_tac. Qed.

Lemma do_read_keeps_write_side : forall e,
  keeps (fun p => (write p, send_queue p, send_callback p)) (do_read e).
Proof.
  intro e.
  unfold do_read, frame_progress, descriptor_complete, pass_memblock_data,
    frame_complete, deposit.
  keeps_tac.
Qed.

Lemma do_write_keeps_read_side : forall e,
  keeps (fun p => (read p, recieve_packet_callback p, recieve_memblock_callback p))
    (do_write e).
Proof.
  intro e. unfold do_write.
  keeps_tac; try apply item_free_keeps.
  unfold prepare_next_write_item. keeps_tac.
Qed.

(** X4.  The write engine never changes the read cursor nor the receive
    callbacks, and makes no call of the read side (no read, no allocation,
    no receive callback).  The read engine never changes the write cursor,
    the queue nor the send callback, and makes no call of the write side
    (no write, no send callback). *)
Theorem engines_keep_apart :
  forall (e : env) (p : pstream),
    Forall (fun ev => is_write_side ev = true) (trace_of (do_write e p)) /\
    Forall (fun ev => is_read_side ev = true) (trace_of (do_read e p)) /\
    (forall p' tr, do_write e p = Returned p' tr ->
       read p' = read p /\
       recieve_packet_callback p' = recieve_packet_callback p /\
       recieve_memblock_callback p' = recieve_memblock_callback p) /\
    (forall p' tr, do_read e p = Returned p' tr ->
       write p' = write p /\ send_queue p' = send_queue p /\
       send_callback p' = send_callback p).
Proof.
  intros e p. split; [| split; [| split]].
  - revert p. change (emits (fun ev => is_write_side ev = true) (do_write e)).
    unfold do_write.
    emits_tac; try reflexivity; try apply item_free_emits_write_side;
      apply prepare_next_write_item_emits_nothing.
  - revert p. change (emits (fun ev => is_read_side ev = true) (do_read e)).
    unfold do_read, frame_progress, descriptor_complete, pass_memblock_data,
      frame_complete, deposit.
    emits_tac; reflexivity.
  - intros p' tr H. pose proof (do_write_keeps_read_side e _ _ _ H) as K.
    inversion K. auto.
  - intros p' tr H. pose proof (do_read_keeps_write_side e _ _ _ H) as K.
    inversion K. auto.
Qed.

Lemma engines_keep_apart_witness :
  read (after [Call_send_packet packet8 stale_item; Call_do_write (mock 5 [])]
          (pstream_new blank_stream)) =
  read (after [Call_send_packet packet8 stale_item] (pstream_new blank_stream)).
Proof.
  destruct (engines_keep_apart (mock 5 [])
              (after [Call_send_packet packet8 stale_item] (pstream_new blank_stream)))
    as (_ & _ & W & _).
  edestruct W as [E _]; [vm_compute; reflexivity |].
  exact E.
Defined.

(** ** Further properties: which callback a frame reaches *)

Lemma count_is_zero_app : forall f t1 t2,
  count f t1 = 0%nat -> count f t2 = 0%nat -> count f (t1 ++ t2) = 0%nat.
Proof. intros f t1 t2 H1 H2. rewrite count_app, H1, H2. reflexivity. Qed.

(** X5.  While no memblock is held, an invocation of the read engine
    delivers no chunk to the receive-memblock callback; while no packet is
    held, it does not call the receive-packet callback.  So the bytes of a
    packet frame never reach the memblock callback, and a memblock frame
    never reaches the packet callback. *)
Theorem callbacks_match_the_buffer :
  forall (e : env) (p : pstream),
    (is_null (read_memblock (read p)) = true ->
     delivered (trace_of (do_read e p)) = []) /\
    (packet_is_null (read_packet (read p)) = true ->
     count is_recieve_packet (trace_of (do_read e p)) = 0%nat).
Proof.
  intros e p.
  destruct (do_read_cases e p) as [A | [[Q _] | (D & W & R)]].
  - rewrite A. split; reflexivity.
  - rewrite Q. split; reflexivity.
  - rewrite R. unfold read_result.
    set (r := iochannel_read e (snd (read_span p))).
    set (p1 := advanced r (deposited e (fst (read_span p)) r
                             (set_mainloop_source false p))).
    assert (M1 : read_memblock (read p1) = read_memblock (read p)).
    { unfold p1, advanced, deposited. destruct (fst (read_span p)); reflexivity. }
    assert (K1 : read_packet (read p1) = read_packet (read p)).
    { unfold p1, advanced, deposited. destruct (fst (read_span p)); reflexivity. }
    rewrite trace_of_prepend.
    destruct (r <=? 0); [split; reflexivity |].
    rewrite frame_progress_eq.
    destruct (read_index (read p1) =? PSTREAM_DESCRIPTOR_SIZE).
    { split; intros _.
      - cbn [app delivered]. apply descriptor_complete_delivers_nothing.
      - rewrite descriptor_complete_eq.
        destruct (_ >? _); [reflexivity |].
        destruct (negb _); [reflexivity |].
        destruct (_ =? 0); destruct (is_null _); reflexivity. }
    destruct (read_index (read p1) >? PSTREAM_DESCRIPTOR_SIZE); [| split; reflexivity].
    rewrite trace_of_prepend. split; intro N.
    + cbn [app delivered].
      rewrite delivered_app, frame_complete_delivers_nothing, app_nil_r.
      unfold passed. rewrite M1, N. reflexivity.
    + apply count_is_zero_app; [reflexivity |].
      apply count_is_zero_app.
      * unfold passed.
        destruct (negb (is_null (read_memblock (read p1))) && recieve_memblock_callback p1);
          [| reflexivity].
        cbv zeta. destruct (_ >? 0); reflexivity.
      * rewrite frame_complete_eq, K1, N.
        destruct (_ >=? _); [| reflexivity].
        destruct (negb (is_null (read_memblock (read p1)))); reflexivity.
Qed.

Lemma callbacks_match_the_buffer_witness :
  delivered
    (trace_of
       (do_read (mock 5 [])
          (after [Call_set_recieve_memblock_callback true;
                  Call_set_recieve_packet_callback true;
                  Call_do_read (mock 12 header8)] (pstream_new blank_stream)))) = [] /\
  count is_recieve_packet
    (trace_of
       (do_read (mock 5 [])
          (after [Call_set_recieve_memblock_callback true;
                  Call_set_recieve_packet_callback true;
                  Call_do_read (mock 12 header30)] (pstream_new blank_stream))))
  = 0%nat.
Proof.
  split.
  - destruct (callbacks_match_the_buffer (mock 5 [])
                (after [Call_set_recieve_memblock_callback true;
                        Call_set_recieve_packet_callback true;
                        Call_do_read (mock 12 header8)] (pstream_new blank_stream)))
      as [M _].
    apply M. reflexivity.
  - destruct (callbacks_match_the_buffer (mock 5 [])
                (after [Call_set_recieve_memblock_callback true;
                        Call_set_recieve_packet_callback true;
                        Call_do_read (mock 12 header30)] (pstream_new blank_stream)))
      as [_ K].
    apply K. reflexivity.
Defined.

(** ** Further properties: the three phases of a read *)

Lemma read_span_payload : forall p a o,
  PSTREAM_DESCRIPTOR_SIZE <= read_index (read p) ->
  (read_data (read p) = InPacket a o ->
   fst (read_span p) = InPacket a (o + read_index (read p) + - PSTREAM_DESCRIPTOR_SIZE)) /\
  (read_data (read p) = InMemblock a o ->
   fst (read_span p) = InMemblock a (o + read_index (read p) + - PSTREAM_DESCRIPTOR_SIZE)).
Proof.
  intros p a o H. unfold read_span.
  destruct (Z.ltb_spec (read_index (read p)) PSTREAM_DESCRIPTOR_SIZE); [lia |].
  split; intro E; rewrite E; reflexivity.
Qed.

(** A read in the payload of a frame whose buffer is held. *)
Lemma do_read_payload : forall e p,
  dead p = false -> iochannel_is_readable e = true ->
  PSTREAM_DESCRIPTOR_SIZE <= read_index (read p) -> holding p ->
  let r := iochannel_read e (snd (read_span p)) in
  0 < r -> read_index (read p) + r < 2 ^ 64 ->
  let p1 := advanced r (set_mainloop_source false p) in
  read_index (read p1) = read_index (read p) + r /\
  do_read e p
  = prepend [Ev_iochannel_read (fst (read_span p)) (snd (read_span p)) r]
      (prepend (passed r p1) (frame_complete p1)).
Proof.
  intros e p D W I H r R0 R1 p1.
  assert (I1 : read_index (read p1) = read_index (read p) + r).
  { unfold p1, advanced. cbn. apply size_t_small. zconst. lia. }
  split; [exact I1 |].
  rewrite (do_read_live e p D W).
  destruct (Z.ltb_spec (read_index (read p)) PSTREAM_DESCRIPTOR_SIZE); [lia |].
  assert (DN : data_is_null (read_data (read p)) = false
               /\ deposited e (fst (read_span p)) r (set_mainloop_source false p)
                  = set_mainloop_source false p).
  { destruct H as [(_ & _ & _ & E) | (_ & _ & E)]; rewrite E; split; try reflexivity.
    - destruct (read_span_payload p (pk_addr (read_packet (read p))) 0) as [S _];
        [assumption |].
      rewrite (S E). reflexivity.
    - destruct (read_span_payload p (read_memblock (read p)) 0) as [_ S];
        [assumption |].
      rewrite (S E). reflexivity. }
  destruct DN as [DN DP]. rewrite DN. cbn [negb andb]. unfold read_result.
  fold r. rewrite DP. fold p1.
  destruct (Z.leb_spec r 0); [lia |].
  rewrite frame_progress_eq, I1.
  destruct (Z.eqb_spec (read_index (read p) + r) PSTREAM_DESCRIPTOR_SIZE); [lia |].
  destruct (Z.gtb_spec (read_index (read p) + r) PSTREAM_DESCRIPTOR_SIZE); [| lia].
  reflexivity.
Qed.

(** A read in the header. *)
Lemma do_read_header : forall e p,
  dead p = false -> iochannel_is_readable e = true ->
  0 <= read_index (read p) < PSTREAM_DESCRIPTOR_SIZE ->
  let l := PSTREAM_DESCRIPTOR_SIZE - read_index (read p) in
  let r := iochannel_read e l in
  0 < r <= l ->
  let p1 := advanced r (deposited e (InReadDescriptor (read_index (read p))) r
                          (set_mainloop_source false p)) in
  read_index (read p1) = read_index (read p) + r /\
  do_read e p
  = prepend [Ev_iochannel_read (InReadDescriptor (read_index (read p))) l r]
      (if read_index (read p) + r =? PSTREAM_DESCRIPTOR_SIZE
       then descriptor_complete e p1 else Returned p1 []).
Proof.
  intros e p D W I l r R p1.
  assert (I1 : read_index (read p1) = read_index (read p) + r).
  { unfold p1, advanced, deposited. cbn. apply size_t_small. zconst. lia. }
  split; [exact I1 |].
  rewrite (do_read_live e p D W).
  destruct (Z.ltb_spec (read_index (read p)) PSTREAM_DESCRIPTOR_SIZE); [| lia].
  cbn [negb andb]. unfold read_result. rewrite read_span_header by exact I.
  cbn [fst snd]. fold l. fold r. fold p1.
  destruct (Z.leb_spec r 0); [lia |].
  rewrite frame_progress_eq, I1.
  destruct (Z.eqb_spec (read_index (read p) + r) PSTREAM_DESCRIPTOR_SIZE);
    [reflexivity |].
  destruct (Z.gtb_spec (read_index (read p) + r) PSTREAM_DESCRIPTOR_SIZE); [lia |].
  reflexivity.
Qed.

(** ** Further properties: the invariant of the read cursor *)

Lemma holding_at_most_one : forall p,
  holding p ->
  is_null (read_memblock (read p)) || packet_is_null (read_packet (read p)) = true.
Proof.
  intros p [(M & K & _) | (M & K & _)]; rewrite M, K; reflexivity.
Qed.

Lemma read_span_range : forall p, 0 <= snd (read_span p) < 2 ^ 64.
Proof.
  intro p. unfold read_span. destruct (_ <? _); cbn [snd]; apply size_t_range.
Qed.

(** What [do_read] does on a stream that satisfies the invariant, phase by
    phase. *)
Lemma do_read_wf_cases : forall e p,
  env_ok e -> channel_bounded e -> read_wf p ->
  dead p = false -> iochannel_is_readable e = true ->
  let r := iochannel_read e (snd (read_span p)) in
  let io := Ev_iochannel_read (fst (read_span p)) (snd (read_span p)) r in
  (r <= 0 /\ do_read e p = Returned (set_dead true (set_mainloop_source false p)) [io]) \/
  (0 < r /\ read_index (read p) < PSTREAM_DESCRIPTOR_SIZE /\
   let p1 := advanced r (deposited e (fst (read_span p)) r
                           (set_mainloop_source false p)) in
   read_index (read p1) = read_index (read p) + r /\
   read_index (read p) + r <= PSTREAM_DESCRIPTOR_SIZE /\
   do_read e p
   = prepend [io] (if read_index (read p) + r =? PSTREAM_DESCRIPTOR_SIZE
                   then descriptor_complete e p1 else Returned p1 [])) \/
  (0 < r /\ PSTREAM_DESCRIPTOR_SIZE <= read_index (read p) /\ holding p /\
   let p1 := advanced r (set_mainloop_source false p) in
   read_index (read p1) = read_index (read p) + r /\
   do_read e p = prepend [io] (prepend (passed r p1) (frame_complete p1))).
Proof.
  intros e p [_ OK] [_ B] (RG & HN & HP & _) D W r io.
  pose proof (read_span_range p) as SR.
  assert (R0 : r <= SSIZE_MAX) by (apply OK; lia).
  assert (R1 : r <= snd (read_span p)) by apply B.
  destruct (Z.leb_spec r 0) as [N | N].
  { left. split; [exact N |].
    destruct (do_read_cases e p) as [A | [[Q [X | X]] | (_ & _ & R)]]; try congruence.
    - exfalso. rewrite (do_read_live e p D W) in A.
      destruct (Z.ltb_spec (read_index (read p)) PSTREAM_DESCRIPTOR_SIZE) as [K | K];
        cbn [negb andb] in A.
      + unfold read_result in A. fold r in A.
        destruct (Z.leb_spec r 0); [discriminate | lia].
      + destruct (HP K D) as (H & _).
        assert (DN : data_is_null (read_data (read p)) = false).
        { destruct H as [(_ & _ & _ & E) | (_ & _ & E)]; rewrite E; reflexivity. }
        rewrite DN in A. unfold read_result in A. fold r in A.
        destruct (Z.leb_spec r 0); [discriminate | lia].
    - rewrite R. unfold read_result. fold r.
      destruct (Z.leb_spec r 0); [reflexivity | lia]. }
  right.
  destruct (Z.lt_ge_cases (read_index (read p)) PSTREAM_DESCRIPTOR_SIZE) as [K | K].
  - left. split; [exact N |]. split; [exact K |].
    assert (SP := read_span_header p (conj (proj1 RG) K)).
    unfold io, r in *. rewrite SP in *. cbn [fst snd] in *.
    destruct (do_read_header e p D W (conj (proj1 RG) K) (conj N R1)) as [I1 E].
    cbv zeta. split; [exact I1 |]. split; [lia | exact E].
  - right. split; [exact N |]. split; [exact K |].
    destruct (HP K D) as (H & LM & IX). split; [exact H |].
    apply (do_read_payload e p D W K H N). zconst. lia.
Qed.

Lemma frame_complete_wf : forall p p' tr,
  holding p -> read_length p <= FRAME_SIZE_MAX ->
  PSTREAM_DESCRIPTOR_SIZE < read_index (read p) ->
  frame_complete p = Returned p' tr ->
  dead p' = dead p /\
  (read_index (read p') = 0 /\
   packet_is_null (read_packet (read p')) = true /\
   is_null (read_memblock (read p')) = true /\
   read_length p + PSTREAM_DESCRIPTOR_SIZE <= read_index (read p)
   \/ p' = p /\ read_index (read p) < read_length p + PSTREAM_DESCRIPTOR_SIZE).
Proof.
  intros p p' tr H LM I F. rewrite frame_complete_eq in F.
  pose proof (read_length_range p) as LR.
  rewrite size_t_small in F by (zconst; lia).
  destruct (Z.geb_spec (read_index (read p)) (read_length p + PSTREAM_DESCRIPTOR_SIZE)).
  - unfold frame_reset in F.
    destruct H as [(M & K & _) | (M & K & _)]; rewrite M, K in F; cbn in F;
      inversion F; subst; cbn; split; auto; left; repeat split; auto; lia.
  - inversion F; subst. split; [reflexivity |]. right. split; [reflexivity | lia].
Qed.

Lemma descriptor_complete_wf : forall e p p' tr,
  read_index (read p) = PSTREAM_DESCRIPTOR_SIZE ->
  packet_is_null (read_packet (read p)) = true ->
  is_null (read_memblock (read p)) = true ->
  descriptor_complete e p = Returned p' tr ->
  read_index (read p') = PSTREAM_DESCRIPTOR_SIZE /\
  (dead p' = true /\ read p' = read p \/
   dead p' = dead p /\ holding p' /\ read_length p' <= FRAME_SIZE_MAX).
Proof.
  intros e p p' tr I K M H. rewrite descriptor_complete_eq, K, M in H.
  cbn [andb negb] in H.
  destruct (Z.gtb_spec (read_length p) FRAME_SIZE_MAX) as [O | O].
  - inversion H; subst. split; [exact I |]. left. split; reflexivity.
  - destruct (read_channel p =? 0).
    + destruct (is_null (packet_new e)) eqn:N; [discriminate |].
      inversion H; subst. split; [exact I |]. right. split; [reflexivity |].
      split; [| exact O]. left. cbn. repeat split; auto.
    + destruct (is_null (memblock_new e)) eqn:N; [discriminate |].
      inversion H; subst. split; [exact I |]. right. split; [reflexivity |].
      split; [| exact O]. right. cbn. repeat split; auto.
Qed.

Lemma do_read_wf : forall e p p' tr,
  env_ok e -> channel_bounded e -> read_wf p ->
  do_read e p = Returned p' tr -> read_wf p'.
Proof.
  intros e p p' tr OK B WF H.
  destruct (dead p) eqn:D.
  { rewrite (do_read_dead e p D) in H. inversion H; subst. exact WF. }
  destruct (iochannel_is_readable e) eqn:W.
  2:{ rewrite (do_read_blocked e p W) in H. inversion H; subst. exact WF. }
  destruct (do_read_wf_cases e p OK B WF D W)
    as [[N E] | [(N & K & I1 & LE & E) | (N & K & HO & I1 & E)]];
    rewrite E in H; clear E.
  - inversion H; subst. destruct WF as (RG & HN & HP & AM).
    split; [exact RG |]. split; [exact HN |].
    split; [intros _ X; discriminate X | exact AM].
  - destruct WF as (RG & HN & HP & AM). destruct (HN K) as [KN MN].
    set (p1 := advanced _ _) in *.
    assert (K1 : packet_is_null (read_packet (read p1)) = true).
    { unfold p1, advanced, deposited. destruct (fst (read_span p)); exact KN. }
    assert (M1 : is_null (read_memblock (read p1)) = true).
    { unfold p1, advanced, deposited. destruct (fst (read_span p)); exact MN. }
    destruct (Z.eqb_spec (read_index (read p) + iochannel_read e (snd (read_span p)))
                PSTREAM_DESCRIPTOR_SIZE) as [C | C].
    + destruct (descriptor_complete e p1) as [p2 t2 |] eqn:DC; [| discriminate].
      cbn in H. inversion H; subst p2 tr. clear H.
      destruct (descriptor_complete_wf e p1 p' t2) as (I' & [[Dd Rd] | (Dd & Ho & Lm)]);
        try assumption; try congruence.
      * unfold read_wf. rewrite I', Rd, K1, M1. zconst.
        split; [lia |]. split; [lia |]. split; [| reflexivity].
        intros _ X. congruence.
      * unfold read_wf. rewrite I'. zconst. split; [lia |]. split; [lia |].
        split; [intros _ _; auto | apply holding_at_most_one; exact Ho].
    + cbn in H. inversion H; subst p' tr. clear H.
      unfold read_wf. rewrite I1, K1, M1. zconst.
      split; [lia |]. split; [auto |]. split; [lia | reflexivity].
  - destruct WF as (RG & HN & HP & AM). destruct (HP K D) as (_ & LM & IX).
    set (p1 := advanced _ _) in *.
    assert (H1 : holding p1) by exact HO.
    destruct (frame_complete p1) as [p2 t2 |] eqn:FC; [| discriminate].
    cbn in H. inversion H; subst p2 tr. clear H.
    destruct (frame_complete_wf p1 p' t2 H1 LM) as (Dd & [(I' & K' & M' & _) | [E NC]]);
      try assumption; try lia.
    + unfold read_wf. rewrite I', K', M'. zconst.
      split; [lia |]. split; [auto |]. split; [lia | reflexivity].
    + subst p'. unfold read_wf. rewrite I1 in *.
      change (read_length p1) with (read_length p) in *. zconst.
      split; [lia |]. split; [lia |].
      split; [intros _ _; auto | apply holding_at_most_one; exact H1].
Qed.

Lemma do_write_never_revives : forall e p p' tr,
  do_write e p = Returned p' tr -> dead p' = false -> dead p = false.
Proof.
  intros e p p' tr H D'. destruct (dead p) eqn:D; [| reflexivity].
  rewrite (do_write_dead e p D) in H. inversion H; subst. cbn in D'. congruence.
Qed.

Lemma read_wf_transfer : forall p p',
  read p' = read p -> (dead p' = false -> dead p = false) -> read_wf p -> read_wf p'.
Proof.
  intros p p' R D (RG & HN & HP & AM).
  unfold read_wf, holding, read_length in *. rewrite R.
  split; [exact RG |]. split; [exact HN |]. split; [| exact AM].
  intros K D'. apply (HP K (D D')).
Qed.

Lemma exec_wf : forall c p p' tr,
  call_ok c -> call_bounded c -> read_wf p -> exec c p = Returned p' tr -> read_wf p'.
Proof.
  intros c p p' tr OK B WF H.
  assert (K : forall m, keeps (fun q => (read q, dead q)) m ->
                m p = Returned p' tr -> read_wf p').
  { intros m Km Hm. pose proof (Km _ _ _ Hm) as E. inversion E as [[E1 E2]].
    apply (read_wf_transfer p p' E1); [| exact WF]. congruence. }
  assert (Wr : forall e q q' t, read_wf q -> do_write e q = Returned q' t -> read_wf q').
  { intros e q q' t WFq Hq.
    apply (read_wf_transfer q q'); [| | exact WFq].
    - exact (do_write_keeps_read e _ _ _ Hq).
    - exact (do_write_never_revives e q q' t Hq). }
  assert (Both : forall e, env_ok e -> channel_bounded e ->
                   (do_write e ;; do_read e) p = Returned p' tr -> read_wf p').
  { intros e Oe Be Hb. apply bind_returned in Hb.
    destruct Hb as (p1 & t1 & t2 & H1 & H2 & _).
    apply (do_read_wf e p1 p' t2 Oe Be); [| exact H2].
    exact (Wr e p p1 t1 WF H1). }
  destruct c; simpl in H, OK, B.
  - apply (K (pstream_send_packet pk fresh)); [| exact H].
    unfold pstream_send_packet. keeps_tac.
  - apply (K (pstream_send_memblock ch dl ck fresh)); [| exact H].
    unfold pstream_send_memblock. keeps_tac.
  - apply (K (pstream_set_send_callback callback)); [| exact H].
    unfold pstream_set_send_callback. keeps_tac.
  - apply (K (pstream_set_recieve_packet_callback callback)); [| exact H].
    unfold pstream_set_recieve_packet_callback. keeps_tac.
  - apply (K (pstream_set_recieve_memblock_callback callback)); [| exact H].
    unfold pstream_set_recieve_memblock_callback. keeps_tac.
  - exact (Wr e p p' tr WF H).
  - exact (do_read_wf e p p' tr OK B WF H).
  - exact (Both e OK B H).
  - exact (Both e OK B H).
Qed.

(** The invariant holds on every well-driven stream. *)
Lemma well_driven_read_wf : forall p : pstream, well_driven p -> read_wf p.
Proof.
  intros p R. induction R as [fresh | p c p' tr R IH OK B H].
  - unfold read_wf. cbn. zconst. split; [lia |]. split; [auto |].
    split; [lia | reflexivity].
  - exact (exec_wf c p p' tr OK B IH H).
Qed.

Lemma well_driven_run : forall cs p p' tr,
  well_driven p -> Forall call_ok cs -> Forall call_bounded cs ->
  run cs p = Returned p' tr -> well_driven p'.
Proof.
  induction cs as [| c cs IH]; intros p p' tr R OK B H.
  - inversion H; subst. exact R.
  - simpl in H. apply bind_returned in H. destruct H as (p1 & t1 & t2 & H1 & H2 & _).
    inversion OK as [| c' cs' Oc Ocs]; subst.
    inversion B as [| c'' cs'' Bc Bcs]; subst.
    apply (IH p1 p' t2); [| exact Ocs | exact Bcs | exact H2].
    exact (well_driven_step p c p1 t1 R Oc Bc H1).
Qed.

(** A stream in which the header of a memblock frame of 30 bytes was read. *)
Lemma receiving30_well_driven :
  well_driven (after [Call_set_recieve_memblock_callback true;
                      Call_do_read (mock 12 header30)] (pstream_new blank_stream)).
Proof.
  apply (well_driven_run
           [Call_set_recieve_memblock_callback true; Call_do_read (mock 12 header30)]
           (pstream_new blank_stream) _
           [Ev_iochannel_read (InReadDescriptor 0) 12 12; Ev_memblock_new 30 2000]).
  - apply well_driven_new.
  - apply Forall_cons; [exact I |]. apply Forall_cons; [| apply Forall_nil].
    apply mock_env_ok. vm_compute. split; discriminate.
  - apply Forall_cons; [exact I |]. apply Forall_cons; [| apply Forall_nil].
    apply mock_channel_bounded.
  - vm_compute. reflexivity.
Defined.

(** X6.  On every stream obtained from a new one by calls whose channel
    returns at most what it is asked for: the read offset stays below
    65536 + 12; no buffer is held while the header is being read; a live
    stream past the header holds exactly one buffer (a packet of the length
    of the descriptor, or a memblock), its data pointer is the start of
    that buffer and the length is at most 65536; a packet and a memblock
    are never held together. *)
Theorem read_cursor_invariant :
  forall (fresh : pstream) (cs : list call) (p : pstream) (tr : trace),
    Forall call_ok cs -> Forall call_bounded cs ->
    run cs (pstream_new fresh) = Returned p tr ->
    read_wf p.
Proof.
  intros fresh cs p tr OK B H. apply well_driven_read_wf.
  exact (well_driven_run cs (pstream_new fresh) p tr (well_driven_new fresh) OK B H).
Qed.

Lemma read_cursor_invariant_witness :
  read_wf (after [Call_set_recieve_memblock_callback true;
                  Call_do_read (mock 12 header30)] (pstream_new blank_stream)).
Proof.
  apply (read_cursor_invariant blank_stream
           [Call_set_recieve_memblock_callback true; Call_do_read (mock 12 header30)]
           _
           [Ev_iochannel_read (InReadDescriptor 0) 12 12; Ev_memblock_new 30 2000]).
  - apply Forall_cons; [exact I |]. apply Forall_cons; [| apply Forall_nil].
    apply mock_env_ok. vm_compute. split; discriminate.
  - apply Forall_cons; [exact I |]. apply Forall_cons; [| apply Forall_nil].
    apply mock_channel_bounded.
  - vm_compute. reflexivity.
Defined.

(** ** Further properties: the assertions of the read engine *)

(** X7.  On such a stream the assertions of the read engine hold: an
    invocation aborts only when the allocator returned NULL for the buffer
    of a frame whose descriptor was just completed, and the allocation is
    then the last call it made. *)
Theorem read_engine_aborts_only_on_allocation :
  forall (e : env) (p : pstream) (tr : trace),
    well_driven p -> env_ok e -> channel_bounded e ->
    do_read e p = Aborted tr ->
    exists io length,
      (tr = [io; Ev_packet_new length (packet_new e)] /\ is_null (packet_new e) = true) \/
      (tr = [io; Ev_memblock_new length (memblock_new e)] /\
       is_null (memblock_new e) = true).
Proof.
  intros e p tr R OK B H.
  pose proof (well_driven_read_wf p R) as WF.
  destruct (dead p) eqn:D.
  { rewrite (do_read_dead e p D) in H. discriminate. }
  destruct (iochannel_is_readable e) eqn:W.
  2:{ rewrite (do_read_blocked e p W) in H. discriminate. }
  destruct (do_read_wf_cases e p OK B WF D W)
    as [[N E] | [(N & K & I1 & LE & E) | (N & K & HO & I1 & E)]];
    rewrite E in H; clear E.
  - discriminate.
  - destruct WF as (RG & HN & HP & AM). destruct (HN K) as [KN MN].
    set (p1 := advanced _ _) in *.
    assert (K1 : packet_is_null (read_packet (read p1)) = true).
    { unfold p1, advanced, deposited. destruct (fst (read_span p)); exact KN. }
    assert (M1 : is_null (read_memblock (read p1)) = true).
    { unfold p1, advanced, deposited. destruct (fst (read_span p)); exact MN. }
    destruct (_ =? _); [| discriminate].
    rewrite descriptor_complete_eq, K1, M1 in H. cbn [andb negb] in H.
    destruct (_ >? _); [discriminate |].
    destruct (read_channel p1 =? 0).
    + destruct (is_null (packet_new e)) eqn:X; [| discriminate].
      cbn in H. inversion H. eexists. eexists. left. split; reflexivity.
    + destruct (is_null (memblock_new e)) eqn:X; [| discriminate].
      cbn in H. inversion H. eexists. eexists. right. split; reflexivity.
  - exfalso. set (p1 := advanced _ _) in *.
    assert (H1 : holding p1) by exact HO.
    rewrite frame_complete_eq in H.
    destruct (_ >=? _); [| discriminate].
    destruct H1 as [(M & Kk & _) | (M & Kk & _)]; rewrite M, Kk in H; discriminate.
Qed.

Lemma read_engine_aborts_only_on_allocation_witness :
  exists io length,
    ([Ev_iochannel_read (InReadDescriptor 0) 12 12; Ev_packet_new 8 NULL]
     = [io; Ev_packet_new length NULL] /\ is_null NULL = true) \/
    ([Ev_iochannel_read (InReadDescriptor 0) 12 12; Ev_packet_new 8 NULL]
     = [io; Ev_memblock_new length NULL] /\ is_null NULL = true).
Proof.
  apply (read_engine_aborts_only_on_allocation
           {| iochannel_is_writable := true; iochannel_write := fun l => Z.min 12 l;
              iochannel_is_readable := true; iochannel_read := fun l => Z.min 12 l;
              incoming := header8; packet_new := NULL; memblock_new := NULL |}
           (pstream_new blank_stream)).
  - apply well_driven_new.
  - split; intros l L; cbn; unfold ssize_range; zconst; lia.
  - split; intro l; cbn; lia.
  - vm_compute. reflexivity.
Defined.

(** ** Further properties: delivery and release of a frame *)

(** X8.  A packet frame is delivered whole and only on completion.  While
    a packet is held, a read of [r > 0] bytes either leaves the offset
    below the end of the frame, and then the engine makes no other call
    and keeps the packet; or it brings the offset to the end of the frame
    or past it, and then the engine calls the receive-packet callback once
    with the packet (if one is registered), releases the packet once, and
    is ready for the next frame with the offset at 0 and no buffer held.
    The packet has the length its descriptor announced. *)
Theorem packet_is_delivered_whole :
  forall (e : env) (p : pstream),
    well_driven p -> env_ok e -> channel_bounded e ->
    dead p = false -> iochannel_is_readable e = true ->
    packet_is_null (read_packet (read p)) = false ->
    let pk := read_packet (read p) in
    let r := iochannel_read e (snd (read_span p)) in
    let io := Ev_iochannel_read (fst (read_span p)) (snd (read_span p)) r in
    0 < r ->
    pk_length pk = read_length p /\
    exists p',
      (read_index (read p) + r < read_length p + PSTREAM_DESCRIPTOR_SIZE ->
       do_read e p = Returned p' [io] /\
       read_index (read p') = read_index (read p) + r /\
       read_packet (read p') = pk) /\
      (read_length p + PSTREAM_DESCRIPTOR_SIZE <= read_index (read p) + r ->
       do_read e p
       = Returned p'
           (io :: (if recieve_packet_callback p
                   then [Ev_recieve_packet_callback pk] else [])
               ++ [Ev_packet_unref (pk_addr pk)]) /\
       read_index (read p') = 0 /\
       packet_is_null (read_packet (read p')) = true /\
       is_null (read_memblock (read p')) = true).
Proof.
  intros e p R OK B D W K pk r io N.
  pose proof (well_driven_read_wf p R) as WF.
  destruct (do_read_wf_cases e p OK B WF D W)
    as [[N' _] | [(_ & X & _) | (_ & I & HO & I1 & E)]].
  - fold r in N'. lia.
  - destruct WF as (_ & HN & _). destruct (HN X) as [KN _].
    unfold pk in *. congruence.
  - destruct HO as [(M & _ & PL & DT) | (_ & KN & _)]; [| congruence].
    split; [exact PL |]. fold r in I1, E. fold io in E.
    set (p1 := advanced r (set_mainloop_source false p)) in *.
    assert (PS : passed r p1 = []).
    { unfold passed. change (read_memblock (read p1)) with (read_memblock (read p)).
      rewrite M. reflexivity. }
    rewrite PS in E. cbn [prepend] in E.
    pose proof (read_length_range p) as LR.
    rewrite frame_complete_eq, I1 in E.
    change (read_length p1) with (read_length p) in E.
    rewrite (size_t_small (read_length p + PSTREAM_DESCRIPTOR_SIZE)) in E
      by (zconst; lia).
    change (read_memblock (read p1)) with (read_memblock (read p)) in E.
    change (read_packet (read p1)) with pk in E.
    change (recieve_packet_callback p1) with (recieve_packet_callback p) in E.
    rewrite M in E. cbn [negb] in E. unfold pk in E at 1. rewrite K in E.
    destruct (Z.geb_spec (read_index (read p) + r)
                (read_length p + PSTREAM_DESCRIPTOR_SIZE)) as [C | C].
    + exists (frame_reset p1). split; [lia |]. intros _.
      split; [rewrite E; reflexivity |].
      unfold frame_reset. change (read_memblock (read p1)) with (read_memblock (read p)).
      rewrite M. cbn. auto.
    + exists p1. split; [| lia]. intros _.
      split; [rewrite E; reflexivity |]. split; [exact I1 | reflexivity].
Qed.

Lemma well_driven_after : forall cs fresh,
  Forall call_ok cs -> Forall call_bounded cs ->
  well_driven (after cs (pstream_new fresh)).
Proof.
  intros cs fresh OK B. unfold after.
  destruct (run cs (pstream_new fresh)) as [p' tr |] eqn:H.
  - exact (well_driven_run cs _ p' tr (well_driven_new fresh) OK B H).
  - apply well_driven_new.
Qed.

Lemma mock_calls_ok : forall k bs, 0 <= k <= SSIZE_MAX ->
  call_ok (Call_do_read (mock k bs)) /\ call_bounded (Call_do_read (mock k bs)) /\
  call_ok (Call_do_write (mock k bs)) /\ call_bounded (Call_do_write (mock k bs)).
Proof.
  intros k bs H. cbn [call_ok call_bounded].
  split; [apply mock_env_ok; exact H |].
  split; [apply mock_channel_bounded |].
  split; [apply mock_env_ok; exact H | apply mock_channel_bounded].
Qed.

(** A stream that holds the packet of a frame of 8 bytes, with the
    receive-packet callback registered. *)
Lemma holding_packet8_well_driven :
  well_driven (after [Call_set_recieve_packet_callback true;
                      Call_do_read (mock 12 header8)] (pstream_new blank_stream)).
Proof.
  destruct (mock_calls_ok 12 header8) as (O & B & _); [vm_compute; split; discriminate |].
  apply well_driven_after.
  - apply Forall_cons; [exact I |]. apply Forall_cons; [exact O | apply Forall_nil].
  - apply Forall_cons; [exact I |]. apply Forall_cons; [exact B | apply Forall_nil].
Qed.

Lemma packet_is_delivered_whole_witness :
  exists p',
    do_read (mock 8 [])
      (after [Call_set_recieve_packet_callback true; Call_do_read (mock 12 header8)]
         (pstream_new blank_stream))
    = Returned p'
        [Ev_iochannel_read (InPacket 1000 0) (2 ^ 64 - 16) 8;
         Ev_recieve_packet_callback {| pk_addr := 1000; pk_length := 8 |};
         Ev_packet_unref 1000] /\
    read_index (read p') = 0 /\
    packet_is_null (read_packet (read p')) = true /\
    is_null (read_memblock (read p')) = true.
Proof.
  destruct (packet_is_delivered_whole (mock 8 [])
              (after [Call_set_recieve_packet_callback true;
                      Call_do_read (mock 12 header8)] (pstream_new blank_stream))
              holding_packet8_well_driven
              (mock_env_ok 8 [] ltac:(vm_compute; split; discriminate))
              (mock_channel_bounded 8 []) eq_refl eq_refl eq_refl eq_refl)
    as (_ & p' & _ & C).
  exists p'. destruct C as (E & X); [vm_compute; discriminate |].
  split; [| exact X]. rewrite E. vm_compute. reflexivity.
Defined.

(** X9.  A memblock frame is delivered as it arrives and never as a whole.
    While a memblock is held, a read of [r > 0] bytes delivers exactly the
    [r] bytes it read, as a chunk of the held memblock that starts where
    the payload ended before the read (if a receive-memblock callback is
    registered), and never calls the receive-packet callback.  If the read
    brings the offset to the end of the frame or past it, the memblock is
    then released once and the offset is back to 0 with no buffer held;
    otherwise the memblock stays held. *)
Theorem memblock_is_delivered_as_it_arrives :
  forall (e : env) (p : pstream),
    well_driven p -> env_ok e -> channel_bounded e ->
    dead p = false -> iochannel_is_readable e = true ->
    is_null (read_memblock (read p)) = false ->
    let mb := read_memblock (read p) in
    let r := iochannel_read e (snd (read_span p)) in
    let io := Ev_iochannel_read (fst (read_span p)) (snd (read_span p)) r in
    let chunk := {| mc_memblock := mb;
                    mc_index := read_index (read p) - PSTREAM_DESCRIPTOR_SIZE;
                    mc_length := r |} in
    let pass := if recieve_memblock_callback p
                then [Ev_recieve_memblock_callback (read_channel p)
                        (int32_t (read_delta p)) chunk]
                else [] in
    0 < r ->
    exists p',
      (read_index (read p) + r < read_length p + PSTREAM_DESCRIPTOR_SIZE ->
       do_read e p = Returned p' (io :: pass) /\
       read_index (read p') = read_index (read p) + r /\
       read_memblock (read p') = mb) /\
      (read_length p + PSTREAM_DESCRIPTOR_SIZE <= read_index (read p) + r ->
       do_read e p = Returned p' (io :: pass ++ [Ev_memblock_unref mb]) /\
       read_index (read p') = 0 /\
       packet_is_null (read_packet (read p')) = true /\
       is_null (read_memblock (read p')) = true).
Proof.
  intros e p R OK B D W M mb r io chunk pass N.
  pose proof (well_driven_read_wf p R) as WF.
  destruct (do_read_wf_cases e p OK B WF D W)
    as [[N' _] | [(_ & X & _) | (_ & I & HO & I1 & E)]].
  - fold r in N'. lia.
  - destruct WF as (_ & HN & _). destruct (HN X) as [_ MN]. congruence.
  - destruct HO as [(MN & _) | (_ & KN & DT)]; [congruence |].
    fold r in I1, E. fold io in E.
    set (p1 := advanced r (set_mainloop_source false p)) in *.
    destruct WF as ((I0 & IM) & _).
    assert (R1 : r <= SSIZE_MAX).
    { destruct OK as [_ OK]. apply OK. apply read_span_range. }
    assert (PS : passed r p1 = pass).
    { unfold passed, pass, chunk, mb.
      change (read_memblock (read p1)) with (read_memblock (read p)).
      change (recieve_memblock_callback p1) with (recieve_memblock_callback p).
      change (read_channel p1) with (read_channel p).
      change (read_delta p1) with (read_delta p).
      rewrite M. cbn [negb andb].
      destruct (recieve_memblock_callback p); [| reflexivity].
      unfold delivery_span. rewrite I1.
      replace (read_index (read p) + r - r) with (read_index (read p)) by lia.
      rewrite (size_t_small (read_index (read p))) by (zconst; lia).
      destruct (Z.ltb_spec (read_index (read p)) PSTREAM_DESCRIPTOR_SIZE); [lia |].
      rewrite (size_t_small r) by (zconst; lia).
      destruct (Z.gtb_spec r 0); [| lia].
      replace (read_index (read p) + r - PSTREAM_DESCRIPTOR_SIZE - r)
        with (read_index (read p) - PSTREAM_DESCRIPTOR_SIZE) by lia.
      rewrite size_t_small by (zconst; lia). reflexivity. }
    rewrite PS in E.
    pose proof (read_length_range p) as LR.
    rewrite frame_complete_eq, I1 in E.
    change (read_length p1) with (read_length p) in E.
    rewrite (size_t_small (read_length p + PSTREAM_DESCRIPTOR_SIZE)) in E
      by (zconst; lia).
    change (read_memblock (read p1)) with mb in E.
    change (read_packet (read p1)) with (read_packet (read p)) in E.
    unfold mb in E at 1. rewrite M, KN in E. cbn [negb] in E.
    destruct (Z.geb_spec (read_index (read p) + r)
                (read_length p + PSTREAM_DESCRIPTOR_SIZE)) as [C | C].
    + exists (frame_reset p1). split; [lia |]. intros _.
      split; [rewrite E; reflexivity |].
      unfold frame_reset. change (read_memblock (read p1)) with (read_memblock (read p)).
      rewrite M. cbn. auto.
    + exists p1. split; [| lia]. intros _.
      split; [rewrite E; cbn; rewrite app_nil_r; reflexivity |].
      split; [exact I1 | reflexivity].
Qed.

Lemma memblock_is_delivered_as_it_arrives_witness :
  exists p',
    do_read (mock 4 [])
      (after [Call_set_recieve_memblock_callback true; Call_do_read (mock 12 header30)]
         (pstream_new blank_stream))
    = Returned p'
        [Ev_iochannel_read (InMemblock 2000 0) 6 4;
         Ev_recieve_memblock_callback 2 (-5)
           {| mc_memblock := 2000; mc_index := 0; mc_length := 4 |}] /\
    read_index (read p') = 16 /\
    read_memblock (read p') = 2000.
Proof.
  destruct (memblock_is_delivered_as_it_arrives (mock 4 [])
              (after [Call_set_recieve_memblock_callback true;
                      Call_do_read (mock 12 header30)] (pstream_new blank_stream))
              receiving30_well_driven
              (mock_env_ok 4 [] ltac:(vm_compute; split; discriminate))
              (mock_channel_bounded 4 []) eq_refl eq_refl eq_refl eq_refl)
    as (p' & C & _).
  exists p'. destruct C as (E & X); [vm_compute; reflexivity |].
  split; [| exact X]. rewrite E. vm_compute. reflexivity.
Defined.

(** ** Further properties: an empty frame *)

(** X10.  A frame of length 0 is not over when its header is complete.
    With the offset at 12 and a length of 0 the read engine asks the
    channel for 2^64 - 24 bytes for the buffer of the empty frame, and the
    frame is completed, and its buffer released, by whatever that read
    returns: the bytes that follow the empty frame on the channel. *)
Theorem empty_frame_waits_for_more_bytes :
  forall (e : env) (p : pstream),
    well_driven p -> env_ok e -> channel_bounded e ->
    dead p = false -> iochannel_is_readable e = true ->
    read_index (read p) = PSTREAM_DESCRIPTOR_SIZE -> read_length p = 0 ->
    let r := iochannel_read e (2 ^ 64 - 24) in
    snd (read_span p) = 2 ^ 64 - 24 /\
    (0 < r ->
     exists p' rest,
       do_read e p
       = Returned p' (Ev_iochannel_read (fst (read_span p)) (2 ^ 64 - 24) r :: rest) /\
       rest <> [] /\
       read_index (read p') = 0 /\
       packet_is_null (read_packet (read p')) = true /\
       is_null (read_memblock (read p')) = true).
Proof.
  intros e p R OK B D W I L r.
  assert (SP : snd (read_span p) = 2 ^ 64 - 24).
  { unfold read_span. rewrite I. cbn [snd]. fold (read_length p). rewrite L.
    vm_compute. reflexivity. }
  split; [exact SP |]. intro N.
  pose proof (well_driven_read_wf p R) as WF.
  destruct (do_read_wf_cases e p OK B WF D W)
    as [[N' _] | [(_ & X & _) | (_ & _ & HO & I1 & E)]].
  - rewrite SP in N'. fold r in N'. lia.
  - lia.
  - rewrite SP in I1, E. fold r in I1, E.
    set (p1 := advanced r (set_mainloop_source false p)) in *.
    rewrite frame_complete_eq, I1 in E.
    change (read_length p1) with (read_length p) in E. rewrite L, I in E.
    assert (R1 : r <= SSIZE_MAX).
    { destruct OK as [_ OK]. apply OK. zconst. lia. }
    rewrite size_t_small in E by (zconst; lia).
    destruct (Z.geb_spec (PSTREAM_DESCRIPTOR_SIZE + r) (0 + PSTREAM_DESCRIPTOR_SIZE));
      [| lia].
    assert (H1 : holding p1) by exact HO.
    exists (frame_reset p1).
    destruct H1 as [(M & K & _) | (M & K & _)]; rewrite M, K in E; cbn [negb] in E;
      eexists; (split; [rewrite E; reflexivity |]); split.
    + intro X. apply app_eq_nil in X. destruct X as [_ X].
      apply app_eq_nil in X. destruct X as [_ X]. discriminate X.
    + unfold frame_reset. rewrite M. cbn. auto.
    + intro X. apply app_eq_nil in X. destruct X as [_ X]. discriminate X.
    + unfold frame_reset. rewrite M. cbn. auto.
Qed.

(** A stream in which the header of an empty packet frame was read. *)
Lemma empty_frame_well_driven :
  well_driven (after [Call_do_read (mock 12 [0; 0; 0; 0; 0; 0; 0; 0; 0; 0; 0; 0])]
                 (pstream_new blank_stream)).
Proof.
  destruct (mock_calls_ok 12 [0; 0; 0; 0; 0; 0; 0; 0; 0; 0; 0; 0]) as (O & B & _);
    [vm_compute; split; discriminate |].
  apply well_driven_after.
  - apply Forall_cons; [exact O | apply Forall_nil].
  - apply Forall_cons; [exact B | apply Forall_nil].
Qed.

Lemma empty_frame_waits_for_more_bytes_witness :
  snd (read_span (after [Call_do_read (mock 12 [0; 0; 0; 0; 0; 0; 0; 0; 0; 0; 0; 0])]
                    (pstream_new blank_stream))) = 2 ^ 64 - 24.
Proof.
  apply (empty_frame_waits_for_more_bytes (mock 5 header8) _ empty_frame_well_driven
           (mock_env_ok 5 header8 ltac:(vm_compute; split; discriminate))
           (mock_channel_bounded 5 header8) eq_refl eq_refl eq_refl eq_refl).
Defined.

(** ** Further properties: destruction *)

(** X11.  Destroying a stream that has no outbound work (empty queue, no
    item in progress) never aborts: it frees the channel and then releases
    the buffer the read cursor holds, once, or nothing if none is held. *)
Theorem pstream_free_releases_the_read_buffer :
  forall p : pstream,
    well_driven p -> send_queue p = [] -> write_current (write p) = None ->
    pstream_free p
    = Returned (set_send_queue [] p) (Ev_iochannel_free :: held_buffer_release p).
Proof.
  intros p R Q C. destruct (well_driven_read_wf p R) as (_ & _ & _ & AM).
  unfold pstream_free, get, held_buffer_release. rewrite Q, C.
  rewrite bind_emit. cbn [queue_free]. rewrite bind_ret, bind_modify, bind_ret.
  destruct (is_null (read_memblock (read p))) eqn:M; cbn [negb].
  - rewrite bind_ret. cbn [read set_send_queue].
    destruct (packet_is_null (read_packet (read p))); reflexivity.
  - cbn [orb] in AM. rewrite bind_emit. cbn [read set_send_queue]. rewrite AM.
    reflexivity.
Qed.

Lemma pstream_free_releases_the_read_buffer_witness :
  pstream_free
    (after [Call_set_recieve_memblock_callback true; Call_do_read (mock 12 header30)]
       (pstream_new blank_stream))
  = Returned
      (set_send_queue []
         (after [Call_set_recieve_memblock_callback true;
                 Call_do_read (mock 12 header30)] (pstream_new blank_stream)))
      [Ev_iochannel_free; Ev_memblock_unref 2000].
Proof.
  apply (pstream_free_releases_the_read_buffer _ receiving30_well_driven eq_refl eq_refl).
Defined.

(** ** Further properties: sending *)

Lemma send_step : forall c p,
  is_send c ->
  exec c p =
  if send_ok c
  then Returned (set_mainloop_source true
                   (set_send_queue (send_queue p ++ sent_item c) p)) []
  else Aborted [].
Proof.
  intros c p S. destruct c; try contradiction; cbn [exec send_ok sent_item].
  - unfold pstream_send_packet.
    destruct (packet_is_null pk); cbn [negb];
      [apply bind_assert_false | rewrite bind_assert_true].
    unfold queue_push, mainloop_source_enable. rewrite bind_modify. reflexivity.
  - unfold pstream_send_memblock. destruct ck as [ck |]; [| reflexivity].
    destruct (ch =? 0); cbn [negb];
      [apply bind_assert_false | rewrite bind_assert_true].
    unfold queue_push, mainloop_source_enable. rewrite bind_modify. reflexivity.
Qed.

(** X12.  A series of sends makes no call and changes nothing but the
    queue and the scheduler hook.  If every send passes its assertions
    (the packet is not NULL; the chunk is not NULL and the channel is not
    0), the series returns the stream it started from with the items
    appended to the queue in the order of the sends and the hook armed,
    and with every other field as it was; otherwise the series aborts. *)
Theorem sends_are_queued_in_order :
  forall (cs : list call) (p : pstream),
    Forall is_send cs ->
    (forallb send_ok cs = true ->
     run cs p
     = Returned
         (match cs with
          | [] => p
          | _ :: _ =>
              set_mainloop_source true
                (set_send_queue (send_queue p ++ flat_map sent_item cs) p)
          end) []) /\
    (forallb send_ok cs = false -> run cs p = Aborted []).
Proof.
  induction cs as [| c cs IH]; intros p S.
  - split; [| discriminate]. intros _. reflexivity.
  - inversion S as [| c' cs' Sc Scs]; subst.
    cbn [forallb run flat_map]. unfold bind. rewrite (send_step c p Sc).
    destruct (send_ok c); cbn [andb].
    + destruct (IH (set_mainloop_source true
                      (set_send_queue (send_queue p ++ sent_item c) p)) Scs)
        as [Y N].
      split; intro F.
      * rewrite (Y F). cbn [prepend app]. f_equal.
        destruct cs as [| c2 cs2].
        -- cbn [flat_map]. rewrite app_nil_r. reflexivity.
        -- cbn [send_queue set_send_queue set_mainloop_source].
           rewrite <- app_assoc. destruct p; reflexivity.
      * rewrite (N F). reflexivity.
    + split; [discriminate | reflexivity].
Qed.

Lemma sends_are_queued_in_order_witness :
  (exists p',
      run [Call_send_packet packet8 stale_item;
           Call_send_memblock 2 (-5)
             (Some {| mc_memblock := 900; mc_index := 4; mc_length := 8 |}) blank_item]
        (pstream_new blank_stream) = Returned p' [] /\
      length (send_queue p') = 2%nat /\ mainloop_source p' = true /\
      read p' = read (pstream_new blank_stream)) /\
  run [Call_send_packet packet8 stale_item;
       Call_send_memblock 0 (-5)
         (Some {| mc_memblock := 900; mc_index := 4; mc_length := 8 |}) blank_item]
    (pstream_new blank_stream) = Aborted [].
Proof.
  split.
  - destruct (sends_are_queued_in_order
                [Call_send_packet packet8 stale_item;
                 Call_send_memblock 2 (-5)
                   (Some {| mc_memblock := 900; mc_index := 4; mc_length := 8 |})
                   blank_item]
                (pstream_new blank_stream)) as [Y _].
    + repeat constructor.
    + eexists. split; [exact (Y eq_refl) |]. repeat split.
  - destruct (sends_are_queued_in_order
                [Call_send_packet packet8 stale_item;
                 Call_send_memblock 0 (-5)
                   (Some {| mc_memblock := 900; mc_index := 4; mc_length := 8 |})
                   blank_item]
                (pstream_new blank_stream)) as [_ N].
    + repeat constructor.
    + apply N. reflexivity.
Defined.

(** ** Further properties: where the payload is read from *)

(** X13.  Once [prepare_next_write_item] has set up the cursor for an
    item, the write at an offset at or past the header starts at byte
    [offset - 12] of the packet, and for a memblock item at byte
    [chunk.index + offset - 12] of the memblock: the view of the chunk is
    honoured. *)
Theorem payload_is_read_from_the_item :
  forall (p p1 : pstream) (i : item_info) (q : list item_info) (tr : trace) (idx : Z),
    send_queue p = i :: q ->
    prepare_next_write_item p = Returned p1 tr ->
    PSTREAM_DESCRIPTOR_SIZE <= idx ->
    fst (write_span (set_write (set_write_index idx (write p1)) p1))
    = match type i with
      | PSTREAM_ITEM_PACKET =>
          InPacket (pk_addr (packet i)) (idx - PSTREAM_DESCRIPTOR_SIZE)
      | PSTREAM_ITEM_MEMBLOCK =>
          InMemblock (mc_memblock (chunk i))
            (mc_index (chunk i) + (idx - PSTREAM_DESCRIPTOR_SIZE))
      end.
Proof.
  intros p p1 i q tr idx Q H I.
  rewrite (prepare_next_write_item_pop p i q Q) in H.
  destruct (item_payload_is_null i); [discriminate |]. inversion H; subst. clear H.
  unfold write_span. cbn [write set_write write_index set_write_index write_data].
  destruct (Z.ltb_spec idx PSTREAM_DESCRIPTOR_SIZE); [lia |]. cbn [fst].
  unfold cursor_of_item. destruct (type i); cbn; f_equal; lia.
Qed.

Lemma payload_is_read_from_the_item_witness :
  exists p1,
    prepare_next_write_item
      (after [Call_send_memblock 2 (-5)
                (Some {| mc_memblock := 900; mc_index := 4; mc_length := 8 |})
                blank_item] (pstream_new blank_stream))
    = Returned p1 [] /\
    fst (write_span (set_write (set_write_index 15 (write p1)) p1))
    = InMemblock 900 (4 + (15 - 12)).
Proof.
  eexists. split; [vm_compute; reflexivity |].
  apply (payload_is_read_from_the_item
           (after [Call_send_memblock 2 (-5)
                     (Some {| mc_memblock := 900; mc_index := 4; mc_length := 8 |})
                     blank_item] (pstream_new blank_stream))
           _ _ [] [] 15 eq_refl).
  - vm_compute. reflexivity.
  - vm_compute. discriminate.
Defined.

(** ** Further properties: the header across the channel *)

Lemma word_bytes_word : forall a b c d,
  is_byte a -> is_byte b -> is_byte c -> is_byte d ->
  word_bytes (bytes_word [a; b; c; d]) = [a; b; c; d].
Proof.
  unfold is_byte, word_bytes, bytes_word. intros a b c d Ha Hb Hc Hd. cbn [nth].
  repeat f_equal; Z.div_mod_to_equations; lia.
Qed.

Lemma bytes_word_bytes : forall w, 0 <= w < 2 ^ 32 -> bytes_word (word_bytes w) = w.
Proof.
  intros w H. unfold word_bytes, bytes_word. cbn [nth].
  change (2 ^ 32) with 4294967296 in H. Z.div_mod_to_equations. lia.
Qed.

Lemma word_bytes_are_bytes : forall w, Forall is_byte (word_bytes w).
Proof.
  intro w. unfold word_bytes, is_byte.
  repeat constructor; apply Z.mod_pos_bound; lia.
Qed.

Lemma descriptor_bytes_are_bytes : forall d, Forall is_byte (descriptor_bytes d).
Proof.
  intro d. unfold descriptor_bytes.
  repeat (apply Forall_app; split); apply word_bytes_are_bytes.
Qed.

Lemma descriptor_bytes_length : forall d, length (descriptor_bytes d) = 12%nat.
Proof. reflexivity. Qed.

Lemma descriptor_of_bytes_of_descriptor : forall d,
  0 <= d_length d < 2 ^ 32 -> 0 <= d_channel d < 2 ^ 32 -> 0 <= d_delta d < 2 ^ 32 ->
  descriptor_of_bytes (descriptor_bytes d) = d.
Proof.
  intros [l c t] Hl Hc Ht. cbn in Hl, Hc, Ht.
  unfold descriptor_of_bytes, descriptor_bytes. cbn [d_length d_channel d_delta].
  change (firstn 4 (word_bytes l ++ word_bytes c ++ word_bytes t)) with (word_bytes l).
  change (firstn 4 (skipn 4 (word_bytes l ++ word_bytes c ++ word_bytes t)))
    with (word_bytes c).
  change (firstn 4 (skipn 8 (word_bytes l ++ word_bytes c ++ word_bytes t)))
    with (word_bytes t).
  rewrite !bytes_word_bytes by assumption. reflexivity.
Qed.

Lemma descriptor_bytes_of_bytes : forall X,
  length X = 12%nat -> Forall is_byte X ->
  descriptor_bytes (descriptor_of_bytes X) = X.
Proof.
  intros X L B.
  do 12 (destruct X as [| ? X]; [discriminate L |]).
  destruct X; [| discriminate L].
  repeat match goal with H : Forall _ (_ :: _) |- _ => inversion H; subst; clear H end.
  unfold descriptor_bytes, descriptor_of_bytes.
  cbn [firstn skipn d_length d_channel d_delta].
  rewrite !word_bytes_word by assumption. reflexivity.
Qed.

Lemma store_bytes_length : forall mem off bs,
  length (store_bytes mem off bs) = length mem.
Proof.
  induction mem as [| m mem IH]; intros off bs; [reflexivity |].
  destruct off as [| off]; cbn.
  - destruct bs; cbn; [reflexivity | rewrite IH; reflexivity].
  - rewrite IH. reflexivity.
Qed.

Lemma store_bytes_are_bytes : forall mem off bs,
  Forall is_byte mem -> Forall is_byte (store_bytes mem off bs).
Proof.
  induction mem as [| m mem IH]; intros off bs H; [constructor |].
  inversion H; subst. destruct off as [| off]; cbn.
  - destruct bs; [exact H |]. constructor; [| apply IH; assumption].
    unfold is_byte. apply Z.mod_pos_bound. lia.
  - constructor; [assumption | apply IH; assumption].
Qed.

Lemma store_bytes_at_start : forall k mem B,
  Forall is_byte B -> (k <= length B)%nat -> length mem = length B ->
  firstn k (store_bytes mem 0 (firstn k B)) = firstn k B.
Proof.
  induction k as [| k IH]; intros mem B HB K L; [reflexivity |].
  destruct B as [| b B]; [cbn in K; lia |].
  destruct mem as [| m mem]; [discriminate L |].
  inversion HB; subst. cbn. f_equal.
  - apply Z.mod_small. assumption.
  - apply IH; [assumption | cbn in K; lia | cbn in L; lia].
Qed.

Lemma store_bytes_prefix : forall n k mem B,
  Forall is_byte B -> (n + k <= length B)%nat -> length mem = length B ->
  firstn n mem = firstn n B ->
  firstn (n + k) (store_bytes mem n (firstn k (skipn n B))) = firstn (n + k) B.
Proof.
  induction n as [| n IH]; intros k mem B HB K L P.
  - cbn [Nat.add skipn]. apply store_bytes_at_start; assumption.
  - destruct B as [| b B]; [cbn in K; lia |].
    destruct mem as [| m mem]; [discriminate L |].
    inversion HB; subst. cbn in P. inversion P; subst.
    cbn. f_equal. apply IH; [assumption | cbn in K; lia | cbn in L; lia | assumption].
Qed.

Lemma firstn_whole : forall (X B : list Z),
  length X = length B -> firstn (length B) X = firstn (length B) B -> X = B.
Proof.
  intros X B L H. rewrite <- L in H at 1. rewrite !firstn_all in H. exact H.
Qed.

Lemma positive_sum : forall ks, Forall (fun k => 0 < k) ks -> 0 <= fold_right Z.add 0 ks.
Proof. intros ks H. induction H; cbn; lia. Qed.

Lemma positive_sum_zero : forall ks,
  Forall (fun k => 0 < k) ks -> fold_right Z.add 0 ks = 0 -> ks = [].
Proof.
  intros ks H S. destruct H as [| k ks K Ks]; [reflexivity |].
  pose proof (positive_sum ks Ks). cbn in S. lia.
Qed.

(** The state of the read cursor when the descriptor [d] has arrived. *)
Lemma feed_header : forall ks n p d,
  0 <= d_length d < 2 ^ 32 -> 0 <= d_channel d < 2 ^ 32 -> 0 <= d_delta d < 2 ^ 32 ->
  Forall (fun k => 0 < k) ks -> ks <> [] ->
  Z.of_nat n + fold_right Z.add 0 ks = PSTREAM_DESCRIPTOR_SIZE ->
  dead p = false -> read_index (read p) = Z.of_nat n ->
  firstn n (descriptor_bytes (read_descriptor (read p))) = firstn n (descriptor_bytes d) ->
  exists p1 tr,
    run (map Call_do_read (feed ks (skipn n (descriptor_bytes d)))) p
    = prepend tr (descriptor_complete (mock 0 []) p1) /\
    Forall (fun ev => is_io ev = true) tr /\
    dead p1 = false /\
    read_index (read p1) = PSTREAM_DESCRIPTOR_SIZE /\
    read_descriptor (read p1) = d /\
    read_packet (read p1) = read_packet (read p) /\
    read_memblock (read p1) = read_memblock (read p).
Proof.
  induction ks as [| k ks IH]; intros n p d Hl Hc Ht P NE S D I PX; [congruence |].
  inversion P as [| k' ks' Pk Pks]; subst. clear NE.
  pose proof (positive_sum ks Pks) as S0. cbn [fold_right] in S.
  set (B := descriptor_bytes d) in *.
  set (e := mock k (skipn n B)).
  assert (N12 : 0 <= read_index (read p) < PSTREAM_DESCRIPTOR_SIZE) by (zconst; lia).
  assert (Rk : iochannel_read e (PSTREAM_DESCRIPTOR_SIZE - read_index (read p)) = k).
  { unfold e, mock. cbn [iochannel_read]. zconst. lia. }
  destruct (do_read_header e p D eq_refl N12) as [I1 E].
  { rewrite Rk. zconst. lia. }
  rewrite Rk in I1, E. cbv zeta in I1, E.
  set (p1 := advanced k (deposited e (InReadDescriptor (read_index (read p))) k
                           (set_mainloop_source false p))) in *.
  set (X := store_bytes (descriptor_bytes (read_descriptor (read p))) n
              (firstn (Z.to_nat k) (skipn n B))).
  assert (RD : read_descriptor (read p1) = descriptor_of_bytes X).
  { unfold p1, advanced, deposited, descriptor_store, X. cbn. rewrite I, Nat2Z.id.
    reflexivity. }
  assert (XL : length X = 12%nat).
  { unfold X. rewrite store_bytes_length. reflexivity. }
  assert (XB : Forall is_byte X).
  { unfold X. apply store_bytes_are_bytes, descriptor_bytes_are_bytes. }
  assert (XP : firstn (n + Z.to_nat k) X = firstn (n + Z.to_nat k) B).
  { unfold X. apply store_bytes_prefix.
    - apply descriptor_bytes_are_bytes.
    - unfold B. rewrite descriptor_bytes_length. zconst. lia.
    - reflexivity.
    - exact PX. }
  cbn [feed map run exec]. fold e. unfold bind. rewrite E.
  destruct (Z.eqb_spec (read_index (read p) + k) PSTREAM_DESCRIPTOR_SIZE) as [C | C].
  - assert (ks = []) by (apply positive_sum_zero; [assumption | zconst; lia]). subst ks.
    assert (XE : X = B).
    { apply firstn_whole; [exact XL |].
      unfold B in *. rewrite descriptor_bytes_length.
      replace 12%nat with (n + Z.to_nat k)%nat by (zconst; lia). exact XP. }
    exists p1, [Ev_iochannel_read (InReadDescriptor (read_index (read p)))
                  (PSTREAM_DESCRIPTOR_SIZE - read_index (read p)) k].
    split.
    + change (descriptor_complete e p1) with (descriptor_complete (mock 0 []) p1).
      destruct (descriptor_complete (mock 0 []) p1) as [p2 t2 | t2]; cbn;
        rewrite ?app_nil_r; reflexivity.
    + split; [repeat constructor |]. split; [exact D |].
      split; [rewrite I1; exact C |].
      split; [rewrite RD, XE; apply descriptor_of_bytes_of_descriptor; assumption |].
      split; reflexivity.
  - cbn [prepend].
    destruct (IH (n + Z.to_nat k)%nat p1 d Hl Hc Ht Pks) as (p2 & t2 & H2 & F2 & R2).
    + intro Z0. subst ks. cbn in S. zconst. lia.
    + rewrite Nat2Z.inj_add, Z2Nat.id by lia. lia.
    + exact D.
    + rewrite I1, I, Nat2Z.inj_add, Z2Nat.id by lia. reflexivity.
    + rewrite RD, descriptor_bytes_of_bytes by assumption. exact XP.
    + fold B in H2. rewrite skipn_skipn, Nat.add_comm.
      rewrite H2. exists p2, (Ev_iochannel_read (InReadDescriptor (read_index (read p)))
                                (PSTREAM_DESCRIPTOR_SIZE - read_index (read p)) k :: t2).
      split; [destruct (descriptor_complete (mock 0 []) p2); reflexivity |].
      split; [constructor; [reflexivity | exact F2] |].
      exact R2.
Qed.

Lemma cursor_of_item_descriptor_range : forall i,
  let d := write_descriptor (cursor_of_item i) in
  0 <= d_length d < 2 ^ 32 /\ 0 <= d_channel d < 2 ^ 32 /\ 0 <= d_delta d < 2 ^ 32.
Proof.
  intro i. unfold cursor_of_item. destruct (type i); cbn; repeat split;
    apply uint32_t_range.
Qed.

Lemma int32_t_of_uint32_t : forall x, - 2 ^ 31 <= x < 2 ^ 31 -> int32_t (uint32_t x) = x.
Proof.
  intros x H. unfold int32_t, uint32_t. rewrite Z.mod_mod by lia.
  change (2 ^ 31) with 2147483648 in *. change (2 ^ 32) with 4294967296 in *.
  destruct (Z.ltb_spec (x mod 4294967296) 2147483648); Z.div_mod_to_equations; lia.
Qed.

(** X14.  The header of a frame survives the channel however it is
    fragmented.  The 12 header bytes the write engine sends for an item
    arrive in pieces of any positive sizes at a stream that awaits a
    frame.  When the last piece has arrived the read engine has decoded
    the length, the channel and the delta of the item (the delta as the
    signed number that was sent).  If the length is at most 65536 the
    stream is alive and holds a packet of that length when the channel
    field is 0, and a memblock when it is not; if the length is above
    65536, which no send checks, the receiving stream is dead. *)
Theorem header_survives_fragmentation :
  forall (i : item_info) (ks : list Z) (p : pstream),
    Forall (fun k => 0 < k) ks ->
    fold_right Z.add 0 ks = PSTREAM_DESCRIPTOR_SIZE ->
    dead p = false -> read_index (read p) = 0 ->
    packet_is_null (read_packet (read p)) = true ->
    is_null (read_memblock (read p)) = true ->
    0 <= item_length i < 2 ^ 32 ->
    exists p' tr,
      run (map Call_do_read (feed ks (header_bytes i))) p = Returned p' tr /\
      read_index (read p') = PSTREAM_DESCRIPTOR_SIZE /\
      read_length p' = item_length i /\
      read_channel p' = uint32_t (item_channel i) /\
      (- 2 ^ 31 <= item_delta i < 2 ^ 31 -> int32_t (read_delta p') = item_delta i) /\
      (FRAME_SIZE_MAX < item_length i -> dead p' = true) /\
      (item_length i <= FRAME_SIZE_MAX ->
       dead p' = false /\
       (uint32_t (item_channel i) = 0 ->
        read_packet (read p') = {| pk_addr := 1000; pk_length := item_length i |} /\
        is_null (read_memblock (read p')) = true) /\
       (uint32_t (item_channel i) <> 0 ->
        read_memblock (read p') = 2000 /\
        packet_is_null (read_packet (read p')) = true)).
Proof.
  intros i ks p P S D I K M L.
  destruct (cursor_of_item_descriptor_range i) as (Hl & Hc & Ht).
  destruct (cursor_of_item_descriptor i) as (DL & DC & DD).
  destruct (feed_header ks 0 p (write_descriptor (cursor_of_item i)) Hl Hc Ht P)
    as (p1 & t1 & H & _ & D1 & I1 & RD & K1 & M1).
  - intro E. subst ks. cbn in S. zconst. lia.
  - cbn [Z.of_nat]. lia.
  - exact D.
  - exact I.
  - reflexivity.
  - cbn [skipn] in H. fold (header_bytes i) in H. rewrite H. clear H.
    assert (RL : read_length p1 = item_length i).
    { unfold read_length. rewrite RD, DL. apply uint32_t_small. exact L. }
    assert (RC : read_channel p1 = uint32_t (item_channel i)).
    { unfold read_channel. rewrite RD. exact DC. }
    assert (RT : read_delta p1 = uint32_t (item_delta i)).
    { unfold read_delta. rewrite RD. exact DD. }
    rewrite descriptor_complete_eq, RL, RC, K1, M1, K, M. cbn [andb negb].
    destruct (Z.gtb_spec (item_length i) FRAME_SIZE_MAX) as [O | O].
    + eexists. eexists. split; [reflexivity |].
      split; [exact I1 |]. split; [exact RL |]. split; [exact RC |].
      split; [intro T; transitivity (int32_t (read_delta p1)); [reflexivity |];
              rewrite RT; apply int32_t_of_uint32_t; exact T |].
      split; [reflexivity | lia].
    + destruct (Z.eqb_spec (uint32_t (item_channel i)) 0) as [Z0 | Z0].
      * eexists. eexists. split; [reflexivity |].
        split; [exact I1 |]. split; [exact RL |]. split; [exact RC |].
        split; [intro T; transitivity (int32_t (read_delta p1)); [reflexivity |];
                rewrite RT; apply int32_t_of_uint32_t; exact T |].
        split; [lia |]. intros _. split; [exact D1 |].
        split; [| congruence]. intros _. split.
        -- transitivity {| pk_addr := 1000; pk_length := read_length p1 |};
             [reflexivity | rewrite RL; reflexivity].
        -- transitivity (is_null (read_memblock (read p1))); [reflexivity |].
           rewrite M1. exact M.
      * eexists. eexists. split; [reflexivity |].
        split; [exact I1 |]. split; [exact RL |]. split; [exact RC |].
        split; [intro T; transitivity (int32_t (read_delta p1)); [reflexivity |];
                rewrite RT; apply int32_t_of_uint32_t; exact T |].
        split; [lia |]. intros _. split; [exact D1 |].
        split; [congruence |]. intros _. split; [reflexivity |].
        transitivity (packet_is_null (read_packet (read p1))); [reflexivity |].
        rewrite K1. exact K.
Qed.

Lemma header_survives_fragmentation_witness :
  exists p' tr,
    run (map Call_do_read
           (feed [5; 1; 6]
              (header_bytes
                 {| type := PSTREAM_ITEM_MEMBLOCK;
                    chunk := {| mc_memblock := 900; mc_index := 4; mc_length := 8 |};
                    channel := 2; delta := -5; packet := NULL_packet |})))
      (pstream_new blank_stream) = Returned p' tr /\
    read_length p' = 8 /\ read_channel p' = 2 /\ int32_t (read_delta p') = -5 /\
    read_memblock (read p') = 2000.
Proof.
  destruct (header_survives_fragmentation
              {| type := PSTREAM_ITEM_MEMBLOCK;
                 chunk := {| mc_memblock := 900; mc_index := 4; mc_length := 8 |};
                 channel := 2; delta := -5; packet := NULL_packet |}
              [5; 1; 6] (pstream_new blank_stream))
    as (p' & tr & H & _ & RL & RC & RT & _ & A); try reflexivity.
  - repeat constructor.
  - vm_compute. split; [discriminate | reflexivity].
  - exists p', tr. split; [exact H |]. split; [exact RL |]. split; [exact RC |].
    split; [apply RT; vm_compute; split; [discriminate | reflexivity] |].
    destruct A as (_ & _ & Mb); [vm_compute; discriminate |].
    apply Mb. vm_compute. discriminate.
Defined.

(** ** Further properties: one frame at a time *)

(** X15.  While an item is in progress the write engine does not touch
    the queue: an invocation that returns leaves the queue, the descriptor
    and the data pointer as they were, and the item is either still in
    progress or complete; and whatever the outcome, the only write it
    makes is one from the frame of that item. *)
Theorem item_in_progress_is_not_preempted :
  forall (e : env) (p : pstream) (i : item_info),
    write_current (write p) = Some i ->
    (count is_io (trace_of (do_write e p)) <= 1)%nat /\
    (forall d l r, In (Ev_iochannel_write d l r) (trace_of (do_write e p)) ->
       (d, l) = write_span p) /\
    (forall p' tr, do_write e p = Returned p' tr ->
       send_queue p' = send_queue p /\
       write_descriptor (write p') = write_descriptor (write p) /\
       write_data (write p') = write_data (write p) /\
       (write_current (write p') = Some i \/ write_current (write p') = None)).
Proof.
  intros e p i C.
  assert (Q : forall b, do_write e p = Returned (set_mainloop_source b p) [] ->
    (count is_io (trace_of (do_write e p)) <= 1)%nat /\
    (forall d l r, In (Ev_iochannel_write d l r) (trace_of (do_write e p)) ->
       (d, l) = write_span p) /\
    (forall p' tr, do_write e p = Returned p' tr ->
       send_queue p' = send_queue p /\
       write_descriptor (write p') = write_descriptor (write p) /\
       write_data (write p') = write_data (write p) /\
       (write_current (write p') = Some i \/ write_current (write p') = None))).
  { intros b E. rewrite E. split; [cbn; lia |]. split; [intros d l r []|].
    intros p' tr H. inversion H; subst. cbn. auto. }
  destruct (dead p) eqn:D; [apply (Q false), do_write_dead; exact D |].
  destruct (iochannel_is_writable e) eqn:W;
    [| apply (Q false), do_write_blocked; exact W].
  clear Q. rewrite (do_write_busy e p i D W C).
  destruct (data_is_null (write_data (write p))).
  { split; [cbn; lia |]. split; [intros d l r [] | intros p' tr H; discriminate]. }
  destruct (write_result_shape e i p) as (rest & T & NI & _ & _).
  rewrite T. split; [| split].
  - unfold count. cbn [filter is_io length]. fold (count is_io rest).
    rewrite (count_zero _ _ NI). lia.
  - intros d l r [E | I].
    + inversion E. destruct (write_span p); reflexivity.
    + apply (in_no_io _ _ NI) in I. discriminate.
  - intros p' tr H. destruct (write_result_keeps _ _ _ _ _ H) as (Qe & De & Da & _).
    split; [exact Qe |]. split; [exact De |]. split; [exact Da |].
    unfold write_result in H. destruct (_ <? 0).
    + cbn in H. inversion H. left. exact C.
    + cbv zeta in H. destruct (_ >=? _).
      * destruct (item_free i _); [| discriminate]. cbn in H. inversion H.
        right. reflexivity.
      * cbn in H. inversion H. left. exact C.
Qed.

Lemma item_in_progress_is_not_preempted_witness :
  (count is_io
     (trace_of
        (do_write (mock 5 [])
           (after [Call_send_packet packet8 stale_item; Call_do_write (mock 5 []);
                   Call_send_packet packet24 blank_item] (pstream_new blank_stream))))
   <= 1)%nat.
Proof.
  destruct (item_in_progress_is_not_preempted (mock 5 [])
              (after [Call_send_packet packet8 stale_item; Call_do_write (mock 5 []);
                      Call_send_packet packet24 blank_item] (pstream_new blank_stream))
              _ eq_refl) as [N _].
  exact N.
Defined.

(** ** Further properties: the invariant of the write cursor *)

Lemma write_wf_transfer : forall p p',
  write p' = write p -> write_wf p -> write_wf p'.
Proof. intros p p' E WF. unfold write_wf in *. rewrite E. exact WF. Qed.

Lemma write_start_wf : forall p i pb,
  write_wf p -> write_start p = Some (i, pb) ->
  write_wf pb /\ write_current (write pb) = Some i.
Proof.
  intros p i pb WF H. unfold write_start in H.
  destruct (write_current (write p)) as [j |] eqn:C.
  - inversion H; subst. split; [exact WF | exact C].
  - destruct (send_queue p) as [| j q]; [discriminate |].
    inversion H; subst. cbn [write set_write]. split.
    + unfold write_wf. cbn [write set_write]. rewrite cursor_of_item_index, cursor_of_item_current.
      split; [lia |]. intros k K. inversion K; subst. auto.
    + apply cursor_of_item_current.
Qed.

Lemma write_result_current : forall e i p p' tr,
  write_current (write p) = Some i ->
  write_result e i p = Returned p' tr ->
  0 <= write_index (write p) < 2 ^ 64 ->
  (write_current (write p') = Some i \/ write_current (write p') = None) /\
  write_descriptor (write p') = write_descriptor (write p) /\
  write_data (write p') = write_data (write p) /\
  0 <= write_index (write p') < 2 ^ 64.
Proof.
  intros e i p p' tr C H RG. unfold write_result in H.
  destruct (_ <? 0).
  - cbn in H. inversion H. cbn. auto.
  - cbv zeta in H. destruct (_ >=? _).
    + destruct (item_free i _); [| discriminate]. cbn in H. inversion H. cbn.
      pose proof (size_t_range (write_index (write p)
                                + iochannel_write e (snd (write_span p)))). auto.
    + cbn in H. inversion H. cbn.
      pose proof (size_t_range (write_index (write p)
                                + iochannel_write e (snd (write_span p)))). auto.
Qed.

Lemma do_write_wf : forall e p p' tr,
  write_wf p -> do_write e p = Returned p' tr -> write_wf p'.
Proof.
  intros e p p' tr WF H.
  destruct (do_write_cases e p) as [A | [[E _] | (i & pb & S & _ & _ & E)]].
  - rewrite A in H. discriminate.
  - rewrite E in H. inversion H; subst. exact WF.
  - rewrite E in H. destruct (write_start_wf p i pb WF S) as [[RG WFb] C].
    destruct (write_result_current e i pb p' tr C H RG) as (C' & D' & A' & RG').
    unfold write_wf. split; [exact RG' |].
    intros j J. rewrite D', A'. destruct C' as [C' | C']; rewrite C' in J.
    + inversion J; subst. exact (WFb j C).
    + discriminate.
Qed.

Lemma exec_write_wf : forall c p p' tr,
  write_wf p -> exec c p = Returned p' tr -> write_wf p'.
Proof.
  intros c p p' tr WF H.
  assert (K : forall m, keeps write m -> m p = Returned p' tr -> write_wf p').
  { intros m Km Hm. exact (write_wf_transfer p p' (Km _ _ _ Hm) WF). }
  assert (Rd : forall e, keeps write (do_read e)).
  { intro e.
    unfold do_read, frame_progress, descriptor_complete, pass_memblock_data,
      frame_complete, deposit.
    keeps_tac. }
  assert (Both : forall e, (do_write e ;; do_read e) p = Returned p' tr -> write_wf p').
  { intros e Hb. apply bind_returned in Hb.
    destruct Hb as (p1 & t1 & t2 & H1 & H2 & _).
    apply (write_wf_transfer p1 p' (Rd e _ _ _ H2)).
    exact (do_write_wf e p p1 t1 WF H1). }
  destruct c; simpl in H.
  - apply (K (pstream_send_packet pk fresh)); [| exact H].
    unfold pstream_send_packet, queue_push, mainloop_source_enable. keeps_tac.
  - apply (K (pstream_send_memblock ch dl ck fresh)); [| exact H].
    unfold pstream_send_memblock, queue_push, mainloop_source_enable. keeps_tac.
  - apply (K (pstream_set_send_callback callback)); [| exact H].
    unfold pstream_set_send_callback. keeps_tac.
  - apply (K (pstream_set_recieve_packet_callback callback)); [| exact H].
    unfold pstream_set_recieve_packet_callback. keeps_tac.
  - apply (K (pstream_set_recieve_memblock_callback callback)); [| exact H].
    unfold pstream_set_recieve_memblock_callback. keeps_tac.
  - exact (do_write_wf e p p' tr WF H).
  - exact (K (do_read e) (Rd e) H).
  - exact (Both e H).
  - exact (Both e H).
Qed.

Lemma run_write_wf : forall cs p p' tr,
  write_wf p -> run cs p = Returned p' tr -> write_wf p'.
Proof.
  induction cs as [| c cs IH]; intros p p' tr WF H.
  - inversion H; subst. exact WF.
  - simpl in H. apply bind_returned in H. destruct H as (p1 & t1 & t2 & H1 & H2 & _).
    exact (IH p1 p' t2 (exec_write_wf c p p1 t1 WF H1) H2).
Qed.

Lemma pstream_new_write_wf : forall fresh, write_wf (pstream_new fresh).
Proof.
  intro fresh. unfold write_wf. cbn. split; [lia |]. intros i H. discriminate.
Qed.

(** X16.  On every stream obtained from a new one by any calls, the
    write offset is a [size_t] and, while an item is in progress, the
    descriptor and the data pointer of the write cursor are the ones of
    that item: the length of its payload and its start, with channel 0 and
    delta 0 for a packet and the channel and the delta of the item for a
    memblock.  The frame on the wire is always the one of the item in
    progress. *)
Theorem write_cursor_invariant :
  forall (fresh : pstream) (cs : list call) (p : pstream) (tr : trace),
    run cs (pstream_new fresh) = Returned p tr ->
    0 <= write_index (write p) < 2 ^ 64 /\
    forall i, write_current (write p) = Some i ->
      write_data (write p) = write_data (cursor_of_item i) /\
      descriptor_get (write_descriptor (write p)) PSTREAM_DESCRIPTOR_LENGTH
      = uint32_t (item_length i) /\
      descriptor_get (write_descriptor (write p)) PSTREAM_DESCRIPTOR_CHANNEL
      = uint32_t (item_channel i) /\
      descriptor_get (write_descriptor (write p)) PSTREAM_DESCRIPTOR_DELTA
      = uint32_t (item_delta i).
Proof.
  intros fresh cs p tr H.
  destruct (run_write_wf cs _ p tr (pstream_new_write_wf fresh) H) as [RG WF].
  split; [exact RG |]. intros i C. destruct (WF i C) as [D A].
  split; [exact A |]. rewrite D. apply cursor_of_item_descriptor.
Qed.

Lemma write_cursor_invariant_witness :
  write_data
    (write (after [Call_send_memblock 5 (-1)
                     (Some {| mc_memblock := 77; mc_index := 3; mc_length := 9 |})
                     blank_item;
                   Call_do_write (mock 5 [])] (pstream_new blank_stream)))
  = InMemblock 77 3.
Proof.
  edestruct (write_cursor_invariant blank_stream
               [Call_send_memblock 5 (-1)
                  (Some {| mc_memblock := 77; mc_index := 3; mc_length := 9 |}) blank_item;
                Call_do_write (mock 5 [])]) as [_ W]; [vm_compute; reflexivity |].
  edestruct W as [A _]; [vm_compute; reflexivity |].
  vm_compute. vm_compute in A. exact A.
Defined.

(** ** Further properties: the assertions of the write engine *)




(** ** Further properties: the callbacks *)

Lemma do_write_keeps_callbacks : forall e, keeps callbacks (do_write e).
Proof.
  intro e. unfold do_write, mainloop_source_enable, modify_write.
  keeps_tac; try apply item_free_keeps.
  unfold prepare_next_write_item, modify_write. keeps_tac.
Qed.

Lemma do_read_keeps_callbacks : forall e, keeps callbacks (do_read e).
Proof.
  intro e.
  unfold do_read, frame_progress, descriptor_complete, pass_memblock_data,
    frame_complete, deposit.
  keeps_tac.
Qed.

Lemma setter_registers : forall (set : bool -> pstream -> pstream) cb p p' tr,
  (assert cb ;; modify (set cb)) p = Returned p' tr -> cb = true /\ p' = set true p.
Proof.
  intros set cb p p' tr H. destruct cb.
  - rewrite bind_assert_true in H. inversion H. auto.
  - rewrite bind_assert_false in H. discriminate.
Qed.

Lemma exec_keeps_registered : forall c p p' tr,
  exec c p = Returned p' tr ->
  (send_callback p = true -> send_callback p' = true) /\
  (recieve_packet_callback p = true -> recieve_packet_callback p' = true) /\
  (recieve_memblock_callback p = true -> recieve_memblock_callback p' = true).
Proof.
  intros c p p' tr H.
  assert (K : forall m, keeps callbacks m -> m p = Returned p' tr ->
    (send_callback p = true -> send_callback p' = true) /\
    (recieve_packet_callback p = true -> recieve_packet_callback p' = true) /\
    (recieve_memblock_callback p = true -> recieve_memblock_callback p' = true)).
  { intros m Km Hm. pose proof (Km _ _ _ Hm) as E. unfold callbacks in E.
    inversion E as [[E1 E2 E3]]. rewrite E1, E2, E3. auto. }
  assert (Both : forall e, keeps callbacks (do_write e ;; do_read e)).
  { intro e. apply keeps_bind; [apply do_write_keeps_callbacks | apply do_read_keeps_callbacks]. }
  destruct c; simpl in H.
  - apply (K (pstream_send_packet pk fresh)); [| exact H].
    unfold pstream_send_packet, queue_push, mainloop_source_enable. keeps_tac.
  - apply (K (pstream_send_memblock ch dl ck fresh)); [| exact H].
    unfold pstream_send_memblock, queue_push, mainloop_source_enable. keeps_tac.
  - destruct (setter_registers set_send_callback _ _ _ _ H) as [_ E]. subst p'. cbn. auto.
  - destruct (setter_registers set_recieve_packet_callback _ _ _ _ H) as [_ E].
    subst p'. cbn. auto.
  - destruct (setter_registers set_recieve_memblock_callback _ _ _ _ H) as [_ E].
    subst p'. cbn. auto.
  - exact (K _ (do_write_keeps_callbacks e) H).
  - exact (K _ (do_read_keeps_callbacks e) H).
  - exact (K _ (Both e) H).
  - exact (K _ (Both e) H).
Qed.

(** X18.  A callback that is registered stays registered: the setters
    abort on a NULL callback, and no send and no invocation of an engine
    changes a callback.  So after any series of calls that returns, each
    of the three callbacks that was registered before is registered
    still. *)
Theorem callbacks_are_never_unregistered :
  forall (cs : list call) (p p' : pstream) (tr : trace),
    run cs p = Returned p' tr ->
    (send_callback p = true -> send_callback p' = true) /\
    (recieve_packet_callback p = true -> recieve_packet_callback p' = true) /\
    (recieve_memblock_callback p = true -> recieve_memblock_callback p' = true).
Proof.
  induction cs as [| c cs IH]; intros p p' tr H.
  - inversion H; subst. auto.
  - simpl in H. apply bind_returned in H. destruct H as (p1 & t1 & t2 & H1 & H2 & _).
    destruct (exec_keeps_registered c p p1 t1 H1) as (A1 & A2 & A3).
    destruct (IH p1 p' t2 H2) as (B1 & B2 & B3). auto.
Qed.

Lemma callbacks_are_never_unregistered_witness :
  recieve_memblock_callback
    (after [Call_send_packet packet8 stale_item; Call_io_callback (mock 5 header30)]
       (after [Call_set_recieve_memblock_callback true] (pstream_new blank_stream)))
  = true.
Proof.
  edestruct (callbacks_are_never_unregistered
               [Call_send_packet packet8 stale_item; Call_io_callback (mock 5 header30)]
               (after [Call_set_recieve_memblock_callback true] (pstream_new blank_stream)))
    as (_ & _ & K); [vm_compute; reflexivity |].
  vm_compute. vm_compute in K. apply K. reflexivity.
Defined.

(** ** Further properties: the two callbacks *)

Lemma do_read_makes_no_write : forall e p d l r,
  ~ In (Ev_iochannel_write d l r) (trace_of (do_read e p)).
Proof.
  intros e p d l r I.
  assert (E : emits (fun ev => is_read_side ev = true) (do_read e)).
  { unfold do_read, frame_progress, descriptor_complete, pass_memblock_data,
      frame_complete, deposit.
    emits_tac; reflexivity. }
  pose proof (E p) as F. rewrite Forall_forall in F. apply F in I. discriminate I.
Qed.

Lemma write_then_read_failed_write : forall e p d l r,
  In (Ev_iochannel_write d l r) (trace_of ((do_write e ;; do_read e) p)) -> r < 0 ->
  exists p',
    (do_write e ;; do_read e) p = Returned p' [Ev_iochannel_write d l r] /\
    dead p' = true.
Proof.
  intros e p d l r I N. unfold bind in *.
  destruct (do_write e p) as [p1 t1 | t1] eqn:W.
  - rewrite trace_of_prepend in I. apply in_app_or in I. destruct I as [I | I].
    + assert (I' : In (Ev_iochannel_write d l r) (trace_of (do_write e p)))
        by (rewrite W; exact I).
      destruct (do_write_classified e p d l r I') as (_ & F & _).
      destruct (F N) as (p' & E & D & _). rewrite W in E. inversion E; subst.
      rewrite (do_read_dead e p' D). exists (set_mainloop_source false p').
      split; [reflexivity | exact D].
    + exfalso. exact (do_read_makes_no_write e p1 d l r I).
  - assert (I' : In (Ev_iochannel_write d l r) (trace_of (do_write e p)))
      by (rewrite W; exact I).
    destruct (do_write_classified e p d l r I') as (_ & F & _).
    destruct (F N) as (p' & E & _). rewrite W in E. discriminate.
Qed.

(** X19.  The callback of the channel and the callback of the scheduler
    hook run the write engine and then the read engine.  When the write
    fails (the channel returns a negative result) the stream is dead and
    the read engine does nothing in the same callback: the failed write is
    the only call the callback makes, no read is attempted and no callback
    of the client runs. *)
Theorem callback_stops_after_a_failed_write :
  forall (e : env) (p : pstream) (d : dataptr) (l r : Z),
    r < 0 ->
    (In (Ev_iochannel_write d l r) (trace_of (io_callback e p)) ->
     exists p',
       io_callback e p = Returned p' [Ev_iochannel_write d l r] /\ dead p' = true) /\
    (In (Ev_iochannel_write d l r) (trace_of (prepare_callback e p)) ->
     exists p',
       prepare_callback e p = Returned p' [Ev_iochannel_write d l r] /\ dead p' = true).
Proof.
  intros e p d l r N. split; intro I.
  - exact (write_then_read_failed_write e p d l r I N).
  - exact (write_then_read_failed_write e p d l r I N).
Qed.

Lemma callback_stops_after_a_failed_write_witness :
  exists p',
    io_callback (failing (-1))
      (after [Call_set_recieve_packet_callback true; Call_send_packet packet8 stale_item]
         (pstream_new blank_stream))
    = Returned p' [Ev_iochannel_write (InWriteDescriptor 0) 12 (-1)] /\
    dead p' = true.
Proof.
  destruct (callback_stops_after_a_failed_write (failing (-1))
              (after [Call_set_recieve_packet_callback true;
                      Call_send_packet packet8 stale_item] (pstream_new blank_stream))
              (InWriteDescriptor 0) 12 (-1)) as [K _]; [lia |].
  apply K. vm_compute. left. reflexivity.
Defined.
